(** * cyclecloud-slurm: the slurmcc command line driver

    A shallow embedding of [slurm/src/slurmcc/cli.py]: the retry helpers,
    the bucket preprocessing of [SlurmDriver], the three configuration
    renderers, the [keep_alive] command and the convergence loop
    [SlurmCLI._wait_for_resume], followed by the properties established
    about them.

    Conventions of the embedding.
    - A Python exception is a value of [exn]; code that may raise returns
      [exn + A] ([inl] is a raise, [inr] a normal return).
    - Side effects on the outside world (scheduler commands, sleeps, text
      written to a stream) are recorded in explicit traces.
    - Calls into collaborators that live outside this file (the fleet
      manager, [slutil], [hpcutil], the scheduler binary) are taken as
      parameters or as oracles giving the outcome of each call.
    - The order in which Python goes through a set is not fixed by the
      program: it is an input of a run.
    - Logging is not modelled, except where building the message can
      raise. *)

From Stdlib Require Import ZArith String Ascii List DecimalString Permutation Sorted.
From stdpp Require Import gmap strings list fin_maps.
Import ListNotations.

Local Open Scope string_scope.

(** ** Python values shared by all components *)

Module Py.

(** The exception classes that occur in [cli.py].  [ExternalError]
    stands for any exception raised inside a collaborator. *)
Inductive exn_class : Type :=
| TypeError
| AttributeError
| ZeroDivisionError
| RuntimeError
| CyclecloudSlurmError
| ExternalError.

Record exn : Type := Exn { exn_class_of : exn_class; exn_msg : string }.

(** [str(e)] for an exception built from a single message. *)
Definition str_exn (e : exn) : string := exn_msg e.

(** [str(x)] where [x] is an exception or [None]. *)
Definition str_opt_exn (o : option exn) : string :=
  match o with
  | Some e => str_exn e
  | None => "None"
  end.

Definition bind {A B : Type} (m : exn + A) (k : A -> exn + B) : exn + B :=
  match m with
  | inl e => inl e
  | inr a => k a
  end.

Definition raised {A : Type} (m : exn + A) : Prop :=
  match m with
  | inl _ => True
  | inr _ => False
  end.

(** [str.lower] on the ASCII range, which is all that the comparison
    with ["failed"] can observe. *)
Definition lower_ascii (c : ascii) : ascii :=
  let n := nat_of_ascii c in
  if (65 <=? n)%nat && (n <=? 90)%nat then ascii_of_nat (n + 32) else c.

Fixpoint lower (s : string) : string :=
  match s with
  | EmptyString => EmptyString
  | String c r => String (lower_ascii c) (lower r)
  end.

(** [str(n)] / ["%d" % n] / ["{}".format(n)] for an integer. *)
Definition str_int (n : Z) : string := NilZero.string_of_int (Z.to_int n).

(** [sep.join(parts)]. *)
Definition join (sep : string) (parts : list string) : string :=
  String.concat sep parts.

(** [range(lo, hi)] over the integers. *)
Definition range (lo hi : Z) : list Z :=
  map (fun i => (lo + Z.of_nat i)%Z) (seq 0 (Z.to_nat (hi - lo))).

(** [l[start:stop]]: a negative bound counts from the end, and both
    bounds are clamped to the length. *)
Definition clamp_index (len i : Z) : Z :=
  if (i <? 0)%Z then Z.max 0 (len + i) else Z.min i len.

Definition slice {A : Type} (l : list A) (start stop : Z) : list A :=
  let len := Z.of_nat (length l) in
  let lo := clamp_index len start in
  let hi := clamp_index len stop in
  firstn (Z.to_nat (hi - lo)) (skipn (Z.to_nat lo) l).

(** [a // b] on integers. *)
Definition floordiv (a b : Z) : exn + Z :=
  if (b =? 0)%Z
  then inl (Exn ZeroDivisionError "integer division or modulo by zero")
  else inr (a / b)%Z.

(** [ceil(a / b)] on integers: true division followed by [math.ceil].
    The quotient of two integers below 2^53 in absolute value is rounded
    to a float that has the same ceiling as the exact quotient, so the
    integer ceiling is used. *)
Definition ceildiv (a b : Z) : exn + Z :=
  if (b =? 0)%Z
  then inl (Exn ZeroDivisionError "division by zero")
  else inr (- ((- a) / b))%Z.

(** The line feed written as a backslash-n escape in the source. *)
Definition nl : string := String (ascii_of_nat 10) EmptyString.

(** [set.pop] takes no argument: calling it with one raises
    [TypeError] whatever the set and the argument are. *)
Definition set_pop_with_argument (s : gset string) (arg : string)
  : exn + gset string :=
  inl (Exn TypeError "set.pop() takes no arguments (1 given)").

(** What the outside world sees of a run. *)
Inductive event : Type :=
| Cmd (argv : list string)
| Sleep (seconds : Z)
| FileWrite (path : string) (text : string)
| FileMove (src dst : string).

End Py.

Import Py.

Notation "'do' x <- m ; k" := (Py.bind m (fun x => k))
  (at level 10, x name, m at level 100, k at level 200,
   format "'[v' 'do'  x  <-  m ; '/' k ']'").

(** ** Retry helpers: [_retry_rest] and [_retry_subprocess] *)

Module Retry.

Section Loop.
Context {A : Type}.

(** The wrapped zero-argument operation, as the outcome of each of its
    successive calls: [func i] is what the call made after [i] earlier
    calls does. *)
Variable func : nat -> exn + A.

(** The body of [for attempt in range(1, attempts + 1)], with the
    number of calls made so far, [last_exception] and the sleeps
    performed so far. *)
Fixpoint attempt_loop (attempt_numbers : list Z) (calls : nat)
  (last_exception : option exn) (slept : list event)
  : (exn + A) * list event :=
  match attempt_numbers with
  | [] => (inl (Exn CyclecloudSlurmError (str_opt_exn last_exception)), slept)
  | attempt :: rest =>
      match func calls with
      | inr v => (inr v, slept)
      | inl e =>
          attempt_loop rest (S calls) (Some e)
            (slept ++ [Sleep (attempt * attempt)])%list
      end
  end.

Definition _retry_rest (attempts : Z) : (exn + A) * list event :=
  let attempts := Z.max 1 attempts in
  attempt_loop (range 1 (attempts + 1)) 0 None [].

(** Same control flow; the only difference in the source is one more
    log line. *)
Definition _retry_subprocess (attempts : Z) : (exn + A) * list event :=
  let attempts := Z.max 1 attempts in
  attempt_loop (range 1 (attempts + 1)) 0 None [].

End Loop.

(** The sleeps that follow failed attempts with the given numbers. *)
Definition squares (numbers : list Z) : list event :=
  map (fun a => Sleep (a * a)) numbers.

(** The squares [1, 4, ..., k*k] as sleep events. *)
Definition backoff (k : nat) : list event :=
  map (fun i => Sleep (Z.of_nat (S i) * Z.of_nat (S i))) (seq 0 k).

End Retry.

(** ** [SlurmDriver.preprocess_node_mgr] *)

Module Preprocess.

(** A value of the operator's software configuration. *)
Inductive conf_value : Type :=
| CBool (b : bool)
| CStr (s : string).

(** The attributes of a [NodeBucket] that the driver reads;
    [slurm_hpc] is [software_configuration.get("slurm", {}).get("hpc")]. *)
Record Bucket : Type := {
  nodearray : string;
  slurm_hpc : option conf_value;
  max_count : Z;
  max_placement_group_size : Z
}.

(** The part of [config] that the driver touches: [config["nodearrays"]],
    absent or a dictionary from node array name to its settings. *)
Record Config : Type := { nodearrays : option (gmap string (gmap string Z)) }.

Definition buffer_key : string := "generated_placement_group_buffer".

(** [str(v or "false")]. *)
Definition str_or_false (v : option conf_value) : string :=
  match v with
  | None => "false"
  | Some (CBool true) => "True"
  | Some (CBool false) => "false"
  | Some (CStr s) => if String.eqb s "" then "false" else s
  end.

Definition is_hpc (b : Bucket) : bool :=
  String.eqb (lower (str_or_false (slurm_hpc b))) "true".

(** One iteration of [for b in node_mgr.get_buckets()]. *)
Definition visit_bucket (config : Config) (b : Bucket) : exn + Config :=
  let arrays := default ∅ (nodearrays config) in
  let settings := default ∅ (arrays !! nodearray b) in
  (* TODO remove *)
  let settings := <[buffer_key := 0%Z]> settings in
  match settings !! buffer_key with
  | Some _ =>
      inr {| nodearrays := Some (<[nodearray b := settings]> arrays) |}
  | None =>
      do buffer <- (if is_hpc b
                    then ceildiv (max_count b) (max_placement_group_size b)
                    else inr 0%Z);
      inr {| nodearrays :=
               Some (<[nodearray b := <[buffer_key := buffer]> settings]> arrays) |}
  end.

Fixpoint preprocess_node_mgr (config : Config) (buckets : list Bucket)
  : exn + Config :=
  match buckets with
  | [] => inr config
  | b :: rest =>
      do config' <- visit_bucket config b;
      preprocess_node_mgr config' rest
  end.

(** [config["nodearrays"][name]["generated_placement_group_buffer"]]. *)
Definition buffer_of (config : Config) (name : string) : option Z :=
  arrays ← nodearrays config; settings ← arrays !! name; settings !! buffer_key.

(** What the computation written after the override would store: the
    cached value when there is one, the ceiling for an HPC bucket, zero
    otherwise. *)
Definition intended_buffer (config : Config) (b : Bucket) : exn + Z :=
  match buffer_of config (nodearray b) with
  | Some cached => inr cached
  | None =>
      if is_hpc b
      then ceildiv (max_count b) (max_placement_group_size b)
      else inr 0%Z
  end.

End Preprocess.

(** ** The configuration renderers *)

Module Render.

(** Modelled from the spec: the class [partitionlib.Partition] is
    declared outside this file; these are the attributes that the
    renderers read, with the types the design gives them (integer
    counts, memory in MB).  [node_list] is a hostlist expression or
    [None]; [node_list_by_pg] is a dictionary from placement group id
    (possibly [None]) to node names, kept as an association list in
    insertion order. *)
Record Partition : Type := {
  name : string;
  nodearray : string;
  node_list : option string;
  node_list_by_pg : list (option string * list string);
  is_default : bool;
  is_hpc : bool;
  max_vm_count : Z;
  max_scaleset_size : Z;
  memory : Z;
  pcpu_count : Z;
  vcpu_count : Z;
  use_pcpu : bool;
  gpu_count : Z
}.

(** [str(x)] of an optional string. *)
Definition str_opt (o : option string) : string :=
  match o with
  | Some s => s
  | None => "None"
  end.

(** *** [_partitions] *)

(** [str(partition.node_list or [])]. *)
Definition node_list_or_empty (p : Partition) : string :=
  match node_list p with
  | None => "[]"
  | Some s => if String.eqb s "" then "[]" else s
  end.

(** [max(1024, partition.memory)]. *)
Definition floored_memory (p : Partition) : Z := Z.max 1024 (memory p).

Definition partition_line (p : Partition) (def_mem_per_cpu : Z) : string :=
  "PartitionName=" ++ name p ++ " Nodes=" ++ str_opt (node_list p)
    ++ " Default=" ++ (if is_default p then "YES" else "NO")
    ++ " DefMemPerCPU=" ++ str_int def_mem_per_cpu
    ++ " MaxTime=INFINITE State=UP" ++ nl.

Definition nodename_line (p : Partition) (autoscale : bool)
  (cpus threads memory : Z) : string :=
  "Nodename=" ++ node_list_or_empty p ++ " Feature=cloud STATE="
    ++ (if autoscale then "CLOUD" else "FUTURE")
    ++ " CPUs=" ++ str_int cpus
    ++ " ThreadsPerCore=" ++ str_int threads
    ++ " RealMemory=" ++ str_int memory.

(** The body of [for partition in partitions.values()]: the strings
    passed to [writer.write], in order. *)
Definition write_partition (autoscale : bool) (p : Partition)
  : exn + list string :=
  let memory := floored_memory p in
  do def_mem_per_cpu <- floordiv memory (pcpu_count p);
  let header :=
    [ "# Note: CycleCloud reported a RealMemory of "
        ++ str_int (Render.memory p * 1024) ++ " but we reduced it by "
        ++ str_int (-1) ++ " (i.e. max(1gb, " ++ str_int (-1)
        ++ "%)) to account for OS/VM overhead which" ++ nl;
      "# would result in the nodes being rejected by Slurm if they report a number less than defined here." ++ nl;
      "# To pick a different percentage to dampen, set slurm.dampen_memory=X in the nodearray's Configuration where X is percentage (5 = 5%)." ++ nl;
      partition_line p def_mem_per_cpu ] in
  do cpus_threads <-
    (if use_pcpu p
     then do q <- floordiv (vcpu_count p) (pcpu_count p);
          inr (pcpu_count p, Z.max 1 q)
     else inr (vcpu_count p, 1%Z));
  let body := [ nodename_line p autoscale (fst cpus_threads) (snd cpus_threads) memory ] in
  let gres :=
    if (gpu_count p =? 0)%Z then [] else [ " Gres=gpu:" ++ str_int (gpu_count p) ] in
  inr (header ++ body ++ gres ++ [ nl ])%list.

(** [_partitions]: the writes reach the stream until a partition
    raises. *)
Fixpoint _partitions (partitions : list Partition) (autoscale : bool)
  : (exn + unit) * list string :=
  match partitions with
  | [] => (inr tt, [])
  | p :: rest =>
      match write_partition autoscale p with
      | inl e => (inl e, [])
      | inr out =>
          let (r, more) := _partitions rest autoscale in
          (r, (out ++ more)%list)
      end
  end.

(** *** [_generate_gres_conf] *)

Section Gres.

(** [slutil.from_hostlist], [slutil.to_hostlist] and sorting with
    [slutil.get_sort_key_func(flag)] are defined outside this file. *)
Variable from_hostlist : string -> list string.
Variable to_hostlist : string -> string.
Variable sort_nodes : bool -> list string -> list string.

Definition nvidia_devices (gpus : Z) : string :=
  if (1 <? gpus)%Z
  then "/dev/nvidia[0-" ++ str_int (gpus - 1) ++ "]"
  else "/dev/nvidia0".

Definition gres_line (hosts : string) (gpus : Z) : string :=
  "Nodename=" ++ hosts ++ " Name=gpu Count=" ++ str_int gpus
    ++ " File=" ++ nvidia_devices gpus.

(** [all_nodes[start:end]] for the placement group [pg_index]. *)
Definition subset_of_nodes (p : Partition) (all_nodes : list string)
  (pg_index : Z) : list string :=
  let start := (pg_index * max_scaleset_size p)%Z in
  let stop := Z.min (max_vm_count p) ((pg_index + 1) * max_scaleset_size p) in
  slice all_nodes start stop.

(** The body of [for pg_index in range(num_placement_groups)]. *)
Definition write_placement_group (p : Partition) (all_nodes : list string)
  (pg_index : Z) : list string :=
  let hosts := to_hostlist (join "," (subset_of_nodes p all_nodes pg_index)) in
  ((if (gpu_count p =? 0)%Z then [] else [ gres_line hosts (gpu_count p) ])
     ++ [ nl ])%list.

Definition sorted_nodes (p : Partition) (expr : string) : list string :=
  sort_nodes (is_hpc p) (from_hostlist expr).

(** The body of [for partition in partitions.values()]. *)
Definition write_gres (p : Partition) : exn + list string :=
  match node_list p with
  | None =>
      inl (Exn RuntimeError
             ("No nodes found for nodearray " ++ nodearray p
                ++ ". Please run 'cyclecloud_slurm.sh create_nodes' first!"))
  | Some expr =>
      do num_placement_groups <- ceildiv (max_vm_count p) (max_scaleset_size p);
      let all_nodes := sorted_nodes p expr in
      inr (flat_map (write_placement_group p all_nodes)
             (range 0 num_placement_groups))
  end.

Fixpoint _generate_gres_conf (partitions : list Partition)
  : (exn + unit) * list string :=
  match partitions with
  | [] => (inr tt, [])
  | p :: rest =>
      match write_gres p with
      | inl e => (inl e, [])
      | inr out =>
          let (r, more) := _generate_gres_conf rest in
          (r, (out ++ more)%list)
      end
  end.

End Gres.

(** *** [_generate_topology] *)

Section Topology.

(** Sorting with [slutil.get_sort_key_func(flag)], defined outside
    this file. *)
Variable sort_nodes : bool -> list string -> list string.

(** [if pg not in nodes_by_pg: nodes_by_pg[pg] = []] followed by
    [nodes_by_pg[pg].extend(node_list)], on a dictionary kept in
    insertion order. *)
Fixpoint extend_group (pg : option string) (names : list string)
  (nodes_by_pg : list (option string * list string))
  : list (option string * list string) :=
  match nodes_by_pg with
  | [] => [ (pg, names) ]
  | (k, v) :: rest =>
      if decide (k = pg)
      then (k, (v ++ names)%list) :: rest
      else (k, v) :: extend_group pg names rest
  end.

(** The body of [for pg, node_list in partition.node_list_by_pg.items()],
    over all items. *)
Definition add_items (items nodes_by_pg : list (option string * list string))
  : list (option string * list string) :=
  fold_left (fun d item => extend_group (fst item) (snd item) d)
    items nodes_by_pg.

Definition collect_partition
  (nodes_by_pg : list (option string * list string)) (p : Partition)
  : list (option string * list string) :=
  add_items (node_list_by_pg p) nodes_by_pg.

Definition collect (partitions : list Partition)
  : list (option string * list string) :=
  fold_left collect_partition partitions [].

(** [lambda x: x if x is not None else ""]. *)
Definition pg_sort_key (pg : option string) : string :=
  match pg with
  | Some s => s
  | None => ""
  end.

(** The order of the sort keys: Python compares strings by code
    point, which on UTF-8 text is the byte-wise order of [String.leb]. *)
Definition pg_le (a b : option string) : Prop :=
  String.leb (pg_sort_key a) (pg_sort_key b) = true.

(** [bool(nodes)] for a list. *)
Definition is_populated (nodes : list string) : bool :=
  match nodes with
  | [] => false
  | _ :: _ => true
  end.

(** [sorted(keys, key=pg_sort_key)]: a stable sort, here by insertion. *)
Fixpoint insert_pg (pg : option string) (sorted : list (option string))
  : list (option string) :=
  match sorted with
  | [] => [ pg ]
  | y :: rest =>
      if String.leb (pg_sort_key pg) (pg_sort_key y)
      then pg :: y :: rest
      else y :: insert_pg pg rest
  end.

Definition sorted_pgs (keys : list (option string)) : list (option string) :=
  fold_right insert_pg [] keys.

(** [nodes_by_pg[pg]]. *)
Fixpoint lookup_group (pg : option string)
  (nodes_by_pg : list (option string * list string)) : list string :=
  match nodes_by_pg with
  | [] => []
  | (k, v) :: rest => if decide (k = pg) then v else lookup_group pg rest
  end.

(** [bool(pg)]. *)
Definition pg_truthy (pg : option string) : bool :=
  match pg with
  | Some s => negb (String.eqb s "")
  | None => false
  end.

(** [pg or "htc"]. *)
Definition switch_name (pg : option string) : string :=
  match pg with
  | Some s => if String.eqb s "" then "htc" else s
  | None => "htc"
  end.

Definition switch_line (pg : option string) (nodes : list string) : string :=
  "SwitchName=" ++ switch_name pg ++ " Nodes="
    ++ join "," (sort_nodes (pg_truthy pg) nodes) ++ nl.

(** The body of [for pg in sorted(...)]. *)
Definition write_switch (nodes_by_pg : list (option string * list string))
  (pg : option string) : list string :=
  match lookup_group pg nodes_by_pg with
  | [] => []
  | nodes => [ switch_line pg nodes ]
  end.

(** [partitions] is the result of [partitionlib.fetch_partitions],
    its values in order. *)
Definition _generate_topology (partitions : list Partition)
  : exn + list string :=
  let nodes_by_pg := collect partitions in
  match nodes_by_pg with
  | [] =>
      inl (Exn CyclecloudSlurmError
             "No nodes found to create topology! Do you need to run create_nodes first?")
  | _ =>
      inr (flat_map (write_switch nodes_by_pg) (sorted_pgs (map fst nodes_by_pg)))
  end.

(** The nodes of placement group [pg] over all partitions, in
    partition order. *)
Definition members (pg : option string) (partitions : list Partition)
  : list string :=
  flat_map
    (fun p =>
       flat_map (fun item => if decide (fst item = pg) then snd item else [])
         (node_list_by_pg p))
    partitions.

(** The placement group ids that occur in some partition. *)
Definition group_ids (partitions : list Partition) : list (option string) :=
  flat_map (fun p => map fst (node_list_by_pg p)) partitions.

End Topology.

End Render.

(** ** [SlurmCLI.keep_alive] *)

Module KeepAlive.

Section Command.

(** [slutil.check_output]: the scheduler's answer to a command line,
    or the exception it raises. *)
Variable check_output : list string -> exn + string.
(** The order in which [list(names)] lists a set of names: Python
    leaves it to the hashes of the names, so it is an input of the
    run. *)
Variable iteration : gset string -> list string.
(** How a file operation ends.  Writing a file stands for the whole
    [with open(path, "w") as fw: fw.write(text)]: it fails when opening,
    writing or closing does. *)
Variable file_op : event -> exn + unit.
(** [slutil.from_hostlist] and sorting with
    [slutil.get_sort_key_func(False)]. *)
Variable from_hostlist : string -> list string.
Variable sort_nodes : bool -> list string -> list string.
(** The builtins [str.splitlines], [str.strip] and [str.split()]. *)
Variable splitlines : string -> list string.
Variable strip : string -> string.
Variable split_whitespace : string -> list string.

(** [s.split("=")[-1]]: what follows the last equals sign. *)
Fixpoint after_last_equals (s : string) : string :=
  match s with
  | EmptyString => EmptyString
  | String c rest =>
      if existsb (Ascii.eqb "="%char) (list_ascii_of_string rest)
      then after_last_equals rest
      else if Ascii.eqb c "="%char then rest else String c (after_last_equals rest)
  end.

(** [list(set(names))]. *)
Definition dedup_names (names : list string) : list string :=
  iteration (list_to_set names : gset string).

(** Runs a command, recording it. *)
Definition run (argv : list string) (trace : list event)
  : (exn + string) * list event :=
  (check_output argv, (trace ++ [ Cmd argv ])%list).

(** Attempts a file operation, recording it. *)
Definition attempt (op : event) (trace : list event)
  : (exn + unit) * list event :=
  (file_op op, (trace ++ [ op ])%list).

Definition current_susp_nodes (config_text : string) : list string :=
  let lines := splitlines config_text in
  let filtered :=
    List.filter (fun line => String.prefix "suspendexcnodes" (lower line)) lines in
  match filtered with
  | [] => []
  | first :: _ =>
      let expr := strip (after_last_equals first) in
      if String.eqb expr "(null)" then [] else from_hostlist expr
  end.

Definition keep_alive (node_list : list string) (remove set_nodes : bool)
  : (exn + unit) * list event :=
  if remove && set_nodes
  then (inl (Exn CyclecloudSlurmError
               "Please define only --set or --remove, not both."), [])
  else
    match run [ "scontrol"; "show"; "config" ] [] with
    | (inl e, t) => (inl e, t)
    | (inr config_text, t) =>
        let current := current_susp_nodes config_text in
        let hostnames :=
          if set_nodes then dedup_names node_list
          else if remove
               then iteration ((list_to_set current : gset string)
                                 ∖ list_to_set node_list)
               else (current ++ node_list)%list in
        match run [ "scontrol"; "show"; "hostnames"; join "," hostnames ] t with
        | (inl e, t) => (inl e, t)
        | (inr out, t) =>
            let all_susp_hostnames :=
              sort_nodes false (dedup_names (split_whitespace (strip out))) in
            match run [ "scontrol"; "show"; "hostlist";
                        join "," all_susp_hostnames ] t with
            | (inl e, t) => (inl e, t)
            | (inr out, t) =>
                let all_susp_hostlist := strip out in
                match attempt (FileWrite "/sched/keep_alive.conf.tmp"
                                 ("SuspendExcNodes = " ++ all_susp_hostlist)) t with
                | (inl e, t) => (inl e, t)
                | (inr _, t) =>
                    match attempt (FileMove "/sched/keep_alive.conf.tmp"
                                     "/sched/keep_alive.conf") t with
                    | (inl e, t) => (inl e, t)
                    | (inr _, t) =>
                        match run [ "scontrol"; "reconfig" ] t with
                        | (inl e, t) => (inl e, t)
                        | (inr _, t) => (inr tt, t)
                        end
                    end
                end
            end
        end
    end.

End Command.

End KeepAlive.

(** ** [SlurmCLI._wait_for_resume]: the convergence loop *)

Module Converge.

(** The attributes of a fleet manager [Node] that the loop reads.  The
    node's name is the key under which the inventory holds it.  A
    [state] of [None] is Python's [None]: the loop tests for it, and
    uses it as a dictionary key like any other state. *)
Record Node : Type := {
  state : option string;
  target_state : string;
  private_ip : option string;
  hostname : option string
}.

(** [node.state == s]. *)
Definition state_is (n : Node) (s : string) : bool :=
  match state n with
  | Some t => String.eqb t s
  | None => false
  end.

(** A value of the [states] dictionary: a count, or, under the key
    ["UNKNOWN"], a dictionary of counts per lifecycle state.  The keys
    of both dictionaries are strings or [None]. *)
Inductive tally : Type :=
| Count (n : nat)
| PerState (d : gmap (option string) nat).

#[global] Instance tally_eq_dec : EqDecision tally.
Proof. solve_decision. Defined.

(** The variables that one pass over [node_list] updates.  A Python
    dictionary lists its keys in the order in which they were put in:
    [first_key] is the first key of [states] and [first_state] the
    first key of [states["UNKNOWN"]], which is all of that order that
    can be observed. *)
Record Progress : Type := {
  states : gmap (option string) tally;
  first_key : option (option string);
  first_state : option (option string);
  relevant_nodes : list (string * Node);
  ready_nodes : list (string * Node);
  recovered_node_names : gset string;
  newly_failed_node_names : list string;
  deleted_nodes : nat;
  failed_node_names : gset string
}.

Definition start_of_cycle (failed : gset string) : Progress :=
  {| states := ∅; first_key := None; first_state := None;
     relevant_nodes := []; ready_nodes := [];
     recovered_node_names := ∅; newly_failed_node_names := [];
     deleted_nodes := 0; failed_node_names := failed |}.

(** [state and state.lower() == "failed"]. *)
Definition is_failed (n : Node) : bool :=
  match state n with
  | Some s => negb (String.eqb s "") && String.eqb (lower s) "failed"
  | None => false
  end.

(** [bool(node.private_ip)]. *)
Definition has_address (n : Node) : bool :=
  match private_ip n with
  | Some ip => negb (String.eqb ip "")
  | None => false
  end.

(** The first key of a dictionary after [key] is put in. *)
Definition first_after (first : option (option string)) (key : option string)
  : option (option string) :=
  match first with
  | Some k => Some k
  | None => Some key
  end.

(** [states[key] = states.get(key, 0) + 1]. *)
Definition increment (states : gmap (option string) tally) (key : option string)
  : exn + gmap (option string) tally :=
  match states !! key with
  | None => inr (<[key := Count 1]> states)
  | Some (Count n) => inr (<[key := Count (S n)]> states)
  | Some (PerState _) =>
      inl (Exn TypeError "unsupported operand type(s) for +: 'dict' and 'int'")
  end.

(** [states["UNKNOWN"] = states.get("UNKNOWN", {})] followed by
    [states["UNKNOWN"][st] = states["UNKNOWN"].get(st, 0) + 1]. *)
Definition increment_unknown (states : gmap (option string) tally)
  (st : option string) : exn + gmap (option string) tally :=
  match states !! Some "UNKNOWN" with
  | None => inr (<[Some "UNKNOWN" := PerState {[ st := 1 ]}]> states)
  | Some (PerState d) =>
      inr (<[Some "UNKNOWN" := PerState (<[st := S (default 0 (d !! st))]> d)]>
             states)
  | Some (Count _) =>
      inl (Exn AttributeError "'int' object has no attribute 'get'")
  end.

(** The body of [for name in node_list]. *)
Definition visit (by_name : gmap string Node) (name : string) (pr : Progress)
  : exn + Progress :=
  match by_name !! name with
  | None =>
      inr {| states := states pr; first_key := first_key pr;
             first_state := first_state pr;
             relevant_nodes := relevant_nodes pr;
             ready_nodes := ready_nodes pr;
             recovered_node_names := recovered_node_names pr;
             newly_failed_node_names := newly_failed_node_names pr;
             deleted_nodes := S (deleted_nodes pr);
             failed_node_names := failed_node_names pr |}
  | Some node =>
      let relevant := (relevant_nodes pr ++ [ (name, node) ])%list in
      if is_failed node then
        do states' <- increment (states pr) (Some "Failed");
        let fresh := negb (bool_decide (name ∈ failed_node_names pr)) in
        inr {| states := states';
               first_key := first_after (first_key pr) (Some "Failed");
               first_state := first_state pr;
               relevant_nodes := relevant;
               ready_nodes := ready_nodes pr;
               recovered_node_names := recovered_node_names pr;
               newly_failed_node_names :=
                 if fresh then (newly_failed_node_names pr ++ [ name ])%list
                 else newly_failed_node_names pr;
               deleted_nodes := deleted_nodes pr;
               failed_node_names :=
                 if fresh then {[ name ]} ∪ failed_node_names pr
                 else failed_node_names pr |}
      else
        let recovered :=
          if bool_decide (name ∈ failed_node_names pr)
          then {[ name ]} ∪ recovered_node_names pr
          else recovered_node_names pr in
        if negb (String.eqb (target_state node) "Started") then
          do states' <- increment_unknown (states pr) (state node);
          inr {| states := states';
                 first_key := first_after (first_key pr) (Some "UNKNOWN");
                 first_state := first_after (first_state pr) (state node);
                 relevant_nodes := relevant;
                 ready_nodes := ready_nodes pr;
                 recovered_node_names := recovered;
                 newly_failed_node_names := newly_failed_node_names pr;
                 deleted_nodes := deleted_nodes pr;
                 failed_node_names := failed_node_names pr |}
        else
          let waiting := state_is node "Ready" && negb (has_address node) in
          let is_ready := state_is node "Ready" && has_address node in
          let label :=
            if waiting then Some "WaitingOnIPAddress" else state node in
          do states' <- increment (states pr) label;
          inr {| states := states';
                 first_key := first_after (first_key pr) label;
                 first_state := first_state pr;
                 relevant_nodes := relevant;
                 ready_nodes :=
                   if is_ready then (ready_nodes pr ++ [ (name, node) ])%list
                   else ready_nodes pr;
                 recovered_node_names := recovered;
                 newly_failed_node_names := newly_failed_node_names pr;
                 deleted_nodes := deleted_nodes pr;
                 failed_node_names := failed_node_names pr |}
  end.

Fixpoint visit_all (by_name : gmap string Node) (node_list : list string)
  (pr : Progress) : exn + Progress :=
  match node_list with
  | [] => inr pr
  | name :: rest =>
      do pr' <- visit by_name name pr;
      visit_all by_name rest pr'
  end.

(** [states.get(key, 0)] used as a summand. *)
Definition count_of (states : gmap (option string) tally) (key : option string)
  : exn + nat :=
  match states !! key with
  | None => inr 0
  | Some (Count n) => inr n
  | Some (PerState _) =>
      inl (Exn TypeError "unsupported operand type(s) for +: 'dict' and 'int'")
  end.

Definition sum_values (d : gmap (option string) nat) : nat :=
  map_fold (fun _ v acc => v + acc) 0 d.

(** [sum(states.get("UNKNOWN", {}).values())]. *)
Definition sum_unknown (states : gmap (option string) tally) : exn + nat :=
  match states !! Some "UNKNOWN" with
  | None => inr 0
  | Some (PerState d) => inr (sum_values d)
  | Some (Count _) =>
      inl (Exn AttributeError "'int' object has no attribute 'values'")
  end.

(** [states.get("Ready", 0) + sum(...) + states.get("Failed", 0)]: the
    sum over ["UNKNOWN"] is evaluated before the first addition, so its
    [AttributeError] comes before any [TypeError] of an addition. *)
Definition terminal_states (states : gmap (option string) tally) : exn + nat :=
  do unknown <- sum_unknown states;
  do ready <- count_of states (Some "Ready");
  do failed <- count_of states (Some "Failed");
  inr (ready + unknown + failed).

(** [sorted(d.keys())], for a dictionary whose first key is [first]:
    the keys are put in order when they are all strings, or when
    [None] is the only key; ordering [None] and a string raises
    [TypeError].  The sort first compares the second key with the
    first and then every further key with one before it, so the
    message names the string first exactly when [None] is the first
    key.  That holds while the keys make a single run of the sort,
    which is below 64 keys; the exception class holds for any
    number. *)
Definition sort_keys {V : Type} (d : gmap (option string) V)
  (first : option (option string)) : exn + unit :=
  match d !! None with
  | Some _ =>
      if (1 <? size d)%nat
      then inl (Exn TypeError
                  (match first with
                   | Some None =>
                       "'<' not supported between instances of 'str' and 'NoneType'"
                   | _ =>
                       "'<' not supported between instances of 'NoneType' and 'str'"
                   end))
      else inr tt
  | None => inr tt
  end.

(** [if states != previous_states: ...]: the block that builds the log
    message, of which only the exceptions can be observed. *)
Definition log_states (pr : Progress)
  (previous_states : gmap (option string) tally) : exn + unit :=
  if bool_decide (states pr = previous_states) then inr tt
  else
    do _ <- sort_keys (states pr) (first_key pr);
    match states pr !! Some "UNKNOWN" with
    | None => inr tt
    | Some (PerState d) => sort_keys d (first_state pr)
    | Some (Count _) =>
        inl (Exn AttributeError "'int' object has no attribute 'keys'")
    end.

(** The scheduler commands. *)
Definition down_cmd (name : string) : list string :=
  [ "scontrol"; "update"; "NodeName=" ++ name; "State=down";
    "Reason=cyclecloud_node_failure" ].

Definition idle_cmd (name : string) : list string :=
  [ "scontrol"; "update"; "NodeName=" ++ name; "State=idle";
    "Reason=cyclecloud_node_recovery" ].

Definition addr_cmd (name : string) (node : Node) : list string :=
  [ "scontrol"; "update"; "NodeName=" ++ name;
    "NodeAddr=" ++ Render.str_opt (private_ip node);
    "NodeHostName=" ++ Render.str_opt (hostname node) ].

Section Commands.

(** The order in which [for name in names] visits a set of names:
    Python leaves it to the hashes of the names, so it is an input of
    the run. *)
Variable iteration : gset string -> list string.
(** [slutil.check_output] during one stretch of the run: the
    scheduler's answer to a command line, or the exception raised. *)
Variable check_output : list string -> exn + string.

(** [for failed_name in failed_node_names: ... check_output(cmd)],
    the body of the first [try]. *)
Fixpoint mark_down (names : list string) : (exn + unit) * list event :=
  match names with
  | [] => (inr tt, [])
  | failed_name :: rest =>
      let cmd := down_cmd failed_name in
      match check_output cmd with
      | inl e => (inl e, [ Cmd cmd ])
      | inr _ =>
          let (r, t) := mark_down rest in
          (r, Cmd cmd :: t)
      end
  end.

(** [for recovered_name in recovered_node_names: ...], the body of
    the second [try]. *)
Fixpoint mark_idle (names : list string) (failed : gset string)
  : (exn + unit) * gset string * list event :=
  match names with
  | [] => (inr tt, failed, [])
  | recovered_name :: rest =>
      let cmd := idle_cmd recovered_name in
      match check_output cmd with
      | inl e => (inl e, failed, [ Cmd cmd ])
      | inr _ =>
          if bool_decide (recovered_name ∈ failed) then
            match set_pop_with_argument failed recovered_name with
            | inl e => (inl e, failed, [ Cmd cmd ])
            | inr failed' =>
                let '(r, f, t) := mark_idle rest failed' in
                (r, f, Cmd cmd :: t)
            end
          else
            let '(r, f, t) := mark_idle rest failed in
            (r, f, Cmd cmd :: t)
      end
  end.

(** [if newly_failed_node_names: try ... except Exception: log]. *)
Definition report_failures (pr : Progress) : list event :=
  match newly_failed_node_names pr with
  | [] => []
  | _ => snd (mark_down (iteration (failed_node_names pr)))
  end.

(** [if recovered_node_names: try ... except Exception: log]. *)
Definition report_recoveries (pr : Progress) : gset string * list event :=
  if bool_decide (recovered_node_names pr = ∅) then (failed_node_names pr, [])
  else
    let '(_, f, t) :=
      mark_idle (iteration (recovered_node_names pr)) (failed_node_names pr) in
    (f, t).

(** [for node in ready_nodes: ... check_output(cmd)] after the loop. *)
Fixpoint update_addresses (is_valid_hostname : string * Node -> bool)
  (ready : list (string * Node)) : (exn + unit) * list event :=
  match ready with
  | [] => (inr tt, [])
  | (name, node) :: rest =>
      if is_valid_hostname (name, node) then
        let cmd := addr_cmd name node in
        match check_output cmd with
        | inl e => (inl e, [ Cmd cmd ])
        | inr _ =>
            let (r, t) := update_addresses is_valid_hostname rest in
            (r, Cmd cmd :: t)
        end
      else update_addresses is_valid_hostname rest
  end.

End Commands.

(** What one poll cycle meets: the clock reading at the head of the
    loop, the outcome of each successive [node_mgr.get_nodes()] call
    (the inventory indexed by node name, as [hpcutil.partition_single]
    returns it), the scheduler's answers during the cycle and the order
    in which the sets of names are visited. *)
Record Cycle : Type := {
  now : Z;
  get_nodes : nat -> exn + gmap string Node;
  check_output : list string -> exn + string;
  iteration : gset string -> list string
}.


Record Verdict : Type := {
  converged : bool;
  ready : list (string * Node);
  failed : gset string;
  observed : gmap (option string) tally
}.

(** The body of [while time.time() < omega], up to the [break] test;
    [observed] is the value of [states], which the loop keeps as
    [previous_states] when it goes on. *)
Definition poll (node_list : list string) (c : Cycle) (failed : gset string)
  (previous_states : gmap (option string) tally)
  : (exn + Verdict) * list event :=
  match Retry._retry_rest (get_nodes c) 5 with
  | (inl e, slept) => (inl e, slept)
  | (inr by_name, slept) =>
      match visit_all by_name node_list (start_of_cycle failed) with
      | inl e => (inl e, slept)
      | inr pr =>
          let downs := report_failures (iteration c) (check_output c) pr in
          let (failed', idles) :=
            report_recoveries (iteration c) (check_output c) pr in
          let trace := (slept ++ downs ++ idles)%list in
          match terminal_states (states pr) with
          | inl e => (inl e, trace)
          | inr terminal =>
              match log_states pr previous_states with
              | inl e => (inl e, trace)
              | inr _ =>
                  (inr {| converged :=
                            Nat.eqb terminal (length (relevant_nodes pr));
                          ready := ready_nodes pr;
                          failed := failed';
                          observed := states pr |}, trace)
              end
          end
      end
  end.

(** How a run ends.  [OutOfCycles] is not a behaviour of the program:
    it says that the supplied cycles were all used while the loop was
    still polling. *)
Inductive outcome : Type :=
| Raised (e : exn) (trace : list event)
| Exited (ready : list (string * Node)) (failed : gset string)
    (trace : list event)
| OutOfCycles (trace : list event).

(** [while time.time() < omega: ...; time.sleep(5)], with the values of
    [failed_node_names] and [ready_nodes], the effects so far and the
    value of [previous_states]. *)
Fixpoint poll_loop (omega : Z) (node_list : list string) (cycles : list Cycle)
  (failed : gset string) (ready : list (string * Node)) (trace : list event)
  (previous_states : gmap (option string) tally) : outcome :=
  match cycles with
  | [] => OutOfCycles trace
  | c :: rest =>
      if (now c <? omega)%Z then
        match poll node_list c failed previous_states with
        | (inl e, t) => Raised e (trace ++ t)
        | (inr v, t) =>
            if converged v
            then Exited (Converge.ready v) (Converge.failed v) (trace ++ t)
            else poll_loop omega node_list rest (Converge.failed v)
                   (Converge.ready v) (trace ++ t ++ [ Sleep 5 ]) (observed v)
        end
      else Exited ready failed trace
  end.

Section Resume.

(** [hpcutil.is_valid_hostname(config, node)] and the scheduler's
    answers after the loop. *)
Variable is_valid_hostname : string * Node -> bool.
Variable final_check_output : list string -> exn + string.

(** What follows the loop: the address updates for the ready nodes. *)
Definition after_loop (o : outcome) : outcome :=
  match o with
  | Exited ready failed trace =>
      match update_addresses final_check_output is_valid_hostname ready with
      | (inl e, t) => Raised e (trace ++ t)
      | (inr _, t) => Exited ready failed (trace ++ t)
      end
  | other => other
  end.

(** [start] is the clock reading from which [omega] is computed. *)
Definition _wait_for_resume (start : Z) (cycles : list Cycle)
  (node_list : list string) : outcome :=
  let omega := (start + 3600)%Z in
  after_loop (poll_loop omega node_list cycles ∅ [] [] ∅).

End Resume.

(** *** The per-node states of the design *)

Inductive disposition : Type :=
| Missing
| Failed
| Transitioning
| WaitingOnAddress
| Ready
| Provisioning.

#[global] Instance disposition_eq_dec : EqDecision disposition.
Proof. solve_decision. Defined.

(** Failed: the fleet manager reports failure.  Transitioning: the
    target state is not ["Started"].  WaitingOnAddress: declared ready
    without a private address.  Ready: target state ["Started"], state
    ["Ready"] and an address.  Provisioning: anything else. *)
Definition disposition_of_node (n : Node) : disposition :=
  if is_failed n then Failed
  else if negb (String.eqb (target_state n) "Started") then Transitioning
  else if state_is n "Ready"
       then (if has_address n then Ready else WaitingOnAddress)
       else Provisioning.

Definition disposition_of (by_name : gmap string Node) (name : string)
  : disposition :=
  match by_name !! name with
  | None => Missing
  | Some n => disposition_of_node n
  end.

(** The requested names that have a given disposition, with
    multiplicity and in request order. *)
Definition names_with (d : disposition) (by_name : gmap string Node)
  (node_list : list string) : list string :=
  List.filter (fun name => bool_decide (disposition_of by_name name = d)) node_list.

Definition count_with (d : disposition) (by_name : gmap string Node)
  (node_list : list string) : nat :=
  length (names_with d by_name node_list).

(** The requested names still present in the inventory. *)
Definition present (by_name : gmap string Node) (node_list : list string)
  : list string :=
  List.filter (fun name => bool_decide (is_Some (by_name !! name))) node_list.

(** Every requested node found in the inventory reports a state. *)
Definition all_report_state (by_name : gmap string Node)
  (node_list : list string) : Prop :=
  forall name node,
    In name node_list -> by_name !! name = Some node -> state node <> None.

(** No node without state has been counted: [None] is a key neither of
    [states] nor of [states["UNKNOWN"]]. *)
Definition keys_named (states : gmap (option string) tally) : Prop :=
  states !! None = None
  /\ forall d, states !! Some "UNKNOWN" = Some (PerState d) -> d !! None = None.

(** The requested names that are ready, each with its node. *)
Definition ready_pairs (by_name : gmap string Node) (node_list : list string)
  : list (string * Node) :=
  flat_map
    (fun name =>
       match by_name !! name with
       | Some n =>
           if bool_decide (disposition_of_node n = Ready) then [ (name, n) ] else []
       | None => []
       end)
    node_list.

(** The key of [states] under which the loop counts a node directly:
    none for a node whose target state is not ["Started"], which is
    counted inside [states["UNKNOWN"]]. *)
Definition tally_key (n : Node) : option (option string) :=
  if is_failed n then Some (Some "Failed")
  else if negb (String.eqb (target_state n) "Started") then None
  else if state_is n "Ready" && negb (has_address n)
       then Some (Some "WaitingOnIPAddress")
       else Some (state n).

Definition key_of (by_name : gmap string Node) (name : string)
  : option (option string) :=
  match by_name !! name with
  | Some n => tally_key n
  | None => None
  end.

Definition count_key (key : option string) (by_name : gmap string Node)
  (node_list : list string) : nat :=
  length (List.filter (fun name => bool_decide (key_of by_name name = Some key))
            node_list).

(** [states] after the names [seen]: every key other than ["UNKNOWN"]
    holds the number of nodes counted under it; ["UNKNOWN"] holds the
    per-state counts of the transitioning nodes, unless a node whose
    lifecycle state is itself ["UNKNOWN"] was counted under that key. *)
Definition tally_matches (by_name : gmap string Node)
  (states : gmap (option string) tally) (seen : list string) : Prop :=
  (forall key, key <> Some "UNKNOWN" ->
               count_of states key = inr (count_key key by_name seen))
  /\ match states !! Some "UNKNOWN" with
     | None =>
         count_key (Some "UNKNOWN") by_name seen = 0
         /\ count_with Transitioning by_name seen = 0
     | Some (PerState d) =>
         count_key (Some "UNKNOWN") by_name seen = 0
         /\ sum_values d = count_with Transitioning by_name seen
         /\ 0 < count_with Transitioning by_name seen
     | Some (Count n) =>
         n = count_key (Some "UNKNOWN") by_name seen
         /\ 0 < n
         /\ count_with Transitioning by_name seen = 0
     end.

(** The number of requested nodes that a cycle counts as settled. *)
Definition settled (by_name : gmap string Node) (node_list : list string) : nat :=
  count_with Ready by_name node_list + count_with Failed by_name node_list
  + count_with Transitioning by_name node_list.



End Converge.

(** ** [SlurmCLI._resume] and [_as_nodes] *)

Module Fleet.

Section Resume.

(** The nodes that [node_mgr.allocate] returns. *)
Variable N : Type.
(** [partition.all_nodes()] and [partition.bucket_for_node(name).bucket_id],
    defined with [partitionlib.Partition] outside this file. *)
Variable all_nodes : Render.Partition -> list string.
Variable bucket_id_for_node : Render.Partition -> string -> string.
(** [str] of a list of names, as an f-string prints it. *)
Variable repr_names : list string -> string.
(** [node.name_format = name] on an allocated node. *)
Variable set_name_format : string -> N -> N.
(** [node_mgr.allocate({"node.bucket_id": b, "exclusive": True}, node_count=1)]
    with the name hook set to the requested name: the nodes of the
    result, or the exception raised, given the number of earlier calls. *)
Variable allocate : nat -> string -> string -> exn + list N.
(** [node_mgr.bootup(nodes)]: the operation id of the result. *)
Variable bootup : list N -> exn + string.

(** The calls made on the fleet manager. *)
Inductive call : Type :=
| Allocate (bucket_id name : string)
| Bootup (nodes : list N).

(** [name_to_partition[name] = partition] on a dictionary kept in
    insertion order. *)
Fixpoint assign (name : string) (p : Render.Partition)
  (d : list (string * Render.Partition)) : list (string * Render.Partition) :=
  match d with
  | [] => [ (name, p) ]
  | (k, v) :: rest =>
      if String.eqb k name then (k, p) :: rest else (k, v) :: assign name p rest
  end.

(** The two nested loops that fill [name_to_partition]. *)
Definition name_to_partition (partitions : list Render.Partition)
  : list (string * Render.Partition) :=
  fold_left
    (fun d p => fold_left (fun d name => assign name p d) (all_nodes p) d)
    partitions [].

(** [name_to_partition.get(name)]. *)
Fixpoint lookup_partition (name : string) (d : list (string * Render.Partition))
  : option Render.Partition :=
  match d with
  | [] => None
  | (k, v) :: rest => if String.eqb k name then Some v else lookup_partition name rest
  end.

(** [for name in node_list], with the number of [allocate] calls made,
    the list [nodes] and the calls so far.  [existing] holds the names
    of [node_mgr.get_nodes()]. *)
Fixpoint allocate_all (existing : gset string)
  (by_name : list (string * Render.Partition)) (node_list : list string)
  (calls : nat) (nodes : list N) (trace : list call)
  : (exn + list N) * list call :=
  match node_list with
  | [] => (inr nodes, trace)
  | name :: rest =>
      if bool_decide (name ∈ existing)
      then allocate_all existing by_name rest calls nodes trace
      else
        match lookup_partition name by_name with
        | None =>
            (inl (Exn CyclecloudSlurmError
                    ("Unknown node name: " ++ name ++ ": "
                       ++ repr_names (map fst by_name))), trace)
        | Some partition =>
            let bucket_id := bucket_id_for_node partition name in
            let trace := (trace ++ [ Allocate bucket_id name ])%list in
            match allocate calls bucket_id name with
            | inl e => (inl e, trace)
            | inr [ node ] =>
                allocate_all existing by_name rest (S calls)
                  (nodes ++ [ set_name_format name node ])%list trace
            | inr _ => (inl (Exn RuntimeError ""), trace)
            end
        end
  end.

(** [_resume] up to and including [node_mgr.bootup(nodes)]: the
    operation id, or the exception raised. *)
Definition allocate_and_boot (existing : gset string)
  (partitions : list Render.Partition) (node_list : list string)
  : (exn + string) * list call :=
  match allocate_all existing (name_to_partition partitions) node_list 0 [] [] with
  | (inl e, trace) => (inl e, trace)
  | (inr nodes, trace) => (bootup nodes, (trace ++ [ Bootup nodes ])%list)
  end.

(** [_resume]: the calls on the fleet manager and, when [no_wait] is
    not set and the boot succeeded, the outcome of [_wait_for_resume]. *)
Definition _resume (existing : gset string) (partitions : list Render.Partition)
  (node_list : list string) (no_wait : bool)
  (is_valid_hostname : string * Converge.Node -> bool)
  (final_check_output : list string -> exn + string)
  (start : Z) (cycles : list Converge.Cycle)
  : (exn + string) * list call * option Converge.outcome :=
  let booted := allocate_and_boot existing partitions node_list in
  match fst booted with
  | inl _ => (booted, None)
  | inr _ =>
      if no_wait then (booted, None)
      else (booted,
            Some (Converge._wait_for_resume is_valid_hostname final_check_output
                    start cycles node_list))
  end.

(** The requested names that are not in the inventory, with
    multiplicity and in request order. *)
Definition to_allocate (existing : gset string) (node_list : list string)
  : list string :=
  List.filter (fun name => negb (bool_decide (name ∈ existing))) node_list.

(** The call made for a requested name that is not in the inventory:
    the bucket is the one its partition gives for it. *)
Definition allocation_call (by_name : list (string * Render.Partition))
  (name : string) : call :=
  Allocate
    (match lookup_partition name by_name with
     | Some p => bucket_id_for_node p name
     | None => ""
     end) name.

Definition is_bootup (c : call) : bool :=
  match c with
  | Bootup _ => true
  | Allocate _ _ => false
  end.

End Resume.

(** [_as_nodes], on the inventory indexed by name. *)
Fixpoint _as_nodes (by_name : gmap string Converge.Node) (node_list : list string)
  : exn + list Converge.Node :=
  match node_list with
  | [] => inr []
  | node_name :: rest =>
      match by_name !! node_name with
      | None => inl (Exn CyclecloudSlurmError ("Unknown node - " ++ node_name))
      | Some node =>
          do nodes <- _as_nodes by_name rest;
          inr (node :: nodes)
      end
  end.

End Fleet.

(** ** [is_autoscale_enabled] *)

Module Autoscale.

(** The one exception that escapes [is_autoscale_enabled]: indexing the
    pieces of a split line. *)
Inductive index_error : Type :=
| IndexError.

(** [s.split(sep)] for a separator of one character. *)
Fixpoint split_on (sep : ascii) (s : string) : list string :=
  match s with
  | EmptyString => [ EmptyString ]
  | String c rest =>
      let parts := split_on sep rest in
      if Ascii.eqb c sep then EmptyString :: parts
      else
        match parts with
        | part :: others => String c part :: others
        | [] => [ String c EmptyString ]
        end
  end.

Section Enabled.

(** The builtins [str.strip], [str.split()] and [int], the last one
    giving [None] where Python raises. *)
Variable strip : string -> string.
Variable split_whitespace : string -> list string.
Variable parse_int : string -> option Z.

(** [line.startswith("SuspendTime ") or line.startswith("SuspendTime=")]. *)
Definition is_suspend_time_line (line : string) : bool :=
  String.prefix "SuspendTime " line || String.prefix "SuspendTime=" line.

(** [line.split("=")[1].strip().split()[0]]. *)
Definition suspend_time_of (line : string) : index_error + string :=
  match split_on "="%char line with
  | _ :: value :: _ =>
      match split_whitespace (strip value) with
      | word :: _ => inr word
      | [] => inl IndexError
      end
  | _ => inl IndexError
  end.

(** The body of [for line in lines], on the value of
    [_IS_AUTOSCALE_ENABLED]. *)
Definition scan_line (cache : option bool) (raw : string)
  : index_error + option bool :=
  let line := strip raw in
  if is_suspend_time_line line then
    match suspend_time_of line with
    | inl e => inl e
    | inr suspend_time =>
        if String.eqb suspend_time "NONE" then inr (Some false)
        else
          match parse_int suspend_time with
          | Some n => inr (Some (negb (n <? 0)%Z))
          | None => inr cache
          end
    end
  else inr cache.

Fixpoint scan (cache : option bool) (lines : list string)
  : (index_error + unit) * option bool :=
  match lines with
  | [] => (inr tt, cache)
  | raw :: rest =>
      match scan_line cache raw with
      | inl e => (inl e, cache)
      | inr cache' => scan cache' rest
      end
  end.

(** [is_autoscale_enabled], on the value of the module variable
    [_IS_AUTOSCALE_ENABLED]; [scontrol] is the outcome of reading the
    lines of [scontrol show config], [conf] that of reading the lines of
    [/sched/slurm.conf].  The result is paired with the new value of
    the module variable. *)
Definition is_autoscale_enabled (cache : option bool)
  (scontrol conf : exn + list string)
  : (index_error + option bool) * option bool :=
  match cache with
  | Some b => (inr (Some b), cache)
  | None =>
      let from_lines lines :=
        match scan None lines with
        | (inl e, cache') => (inl e, cache')
        | (inr _, cache') => (inr cache', cache')
        end in
      match scontrol with
      | inr lines => from_lines lines
      | inl _ =>
          match conf with
          | inr lines => from_lines lines
          | inl _ => (inr (Some true), Some true)
          end
      end
  end.


End Enabled.

End Autoscale.

(** ** [_update_future_states] *)

Module Future.

(** How [check_output(cmd)] ends: the handler of the loop catches
    [SubprocessError] and nothing else. *)
Inductive outcome : Type :=
| Completed
| SubprocessError
| OtherError (e : exn).

(** What [_update_future_states] may raise: the [IndexError] of
    [is_autoscale_enabled], or an exception of a collaborator. *)
Inductive failure : Type :=
| Index (e : Autoscale.index_error)
| Raised (e : exn).

Definition future_cmd (name : string) : list string :=
  [ "scontrol"; "update"; "NodeName=" ++ name; "NodeAddr=" ++ name;
    "NodeHostName=" ++ name; "state=FUTURE" ].

Section Update.

Variable strip : string -> string.
Variable split_whitespace : string -> list string.
Variable parse_int : string -> option Z.
(** [check_output], and the outcome of the [logging.warning] line of
    the handler for the node of a given name, whose argument calls
    [node.get]. *)
Variable check_output : list string -> outcome.
Variable warn : string -> exn + unit.

(** [for node in nodes], over the nodes with their names; the result is
    paired with the commands run. *)
Fixpoint mark_future (nodes : list (string * Converge.Node))
  : (exn + unit) * list (list string) :=
  match nodes with
  | [] => (inr tt, [])
  | (name, node) :: rest =>
      if String.eqb (Converge.target_state node) "Started" then mark_future rest
      else
        let cmd := future_cmd name in
        match check_output cmd with
        | Completed =>
            let (r, cmds) := mark_future rest in (r, cmd :: cmds)
        | SubprocessError =>
            match warn name with
            | inl e => (inl e, [ cmd ])
            | inr _ => let (r, cmds) := mark_future rest in (r, cmd :: cmds)
            end
        | OtherError e => (inl e, [ cmd ])
        end
  end.

(** [_update_future_states], on the value of [_IS_AUTOSCALE_ENABLED]
    and the two sources of [is_autoscale_enabled]; [get_nodes] is the
    outcome of [node_mgr.get_nodes()].  The result is paired with the
    commands run and the new value of the module variable. *)
Definition _update_future_states (cache : option bool)
  (scontrol conf : exn + list string)
  (get_nodes : exn + list (string * Converge.Node))
  : (failure + unit) * list (list string) * option bool :=
  match Autoscale.is_autoscale_enabled strip split_whitespace parse_int cache
          scontrol conf with
  | (inl e, cache') => (inl (Index e), [], cache')
  | (inr (Some true), cache') => (inr tt, [], cache')
  | (inr _, cache') =>
      match get_nodes with
      | inl e => (inl (Raised e), [], cache')
      | inr nodes =>
          match mark_future nodes with
          | (inl e, cmds) => (inl (Raised e), cmds, cache')
          | (inr _, cmds) => (inr tt, cmds, cache')
          end
      end
  end.

(** The names of the nodes whose target state is not [Started]. *)
Definition not_started (nodes : list (string * Converge.Node)) : list string :=
  map fst
    (List.filter (fun n => negb (String.eqb (Converge.target_state (snd n)) "Started"))
       nodes).

End Update.

End Future.

(** ** [SlurmCLI.scale] *)

Module Scale.

(** [os.path.join(a, b)] on POSIX paths. *)
Definition path_join (a b : string) : string :=
  if String.prefix "/" b then b
  else if String.eqb a "" then b
  else if String.eqb (String.substring (String.length a - 1) 1 a) "/" then a ++ b
  else a ++ "/" ++ b.

(** What [scale] does to the outside world. *)
Inductive op : Type :=
| MakeDirs (path : string)
| CopyFile (src dst : string)
| OpenForWriting (path : string)
| WriteText (path text : string)
| MoveFile (src dst : string)
| UpdateFutureStates
| Run (argv : list string).

(** The operations of the backup phase: [os.makedirs] and
    [shutil.copyfile]. *)
Definition is_backup_op (o : op) : Prop :=
  match o with
  | MakeDirs _ | CopyFile _ _ => True
  | _ => False
  end.

Section Command.

(** The helpers defined outside this file, as for the renderers. *)
Variable from_hostlist : string -> list string.
Variable to_hostlist : string -> string.
Variable sort_nodes : bool -> list string -> list string.
(** [self._get_node_manager(config)] and
    [partitionlib.fetch_partitions(node_mgr)]. *)
Variable node_manager : exn + unit.
Variable fetch_partitions : exn + list Render.Partition.
(** [os.path.exists], and the outcome of each operation that may
    fail. *)
Variable path_exists : string -> bool.
Variable perform : op -> exn + unit.

(** Attempts an operation, recording it. *)
Definition attempt (o : op) (trace : list op) : (exn + unit) * list op :=
  (perform o, (trace ++ [ o ])%list).

(** [if os.path.exists(path): shutil.copyfile(path, backup)]. *)
Definition backup (path copy : string) (trace : list op) : (exn + unit) * list op :=
  if path_exists path then attempt (CopyFile path copy) trace else (inr tt, trace).

(** [with open(tmp, "w") as fw: render(fw)] followed by
    [shutil.move(tmp, target)]. *)
Definition write_then_move (tmp target : string)
  (rendered : (exn + unit) * list string) (trace : list op)
  : (exn + unit) * list op :=
  match attempt (OpenForWriting tmp) trace with
  | (inl e, trace) => (inl e, trace)
  | (inr _, trace) =>
      let trace := (trace ++ map (WriteText tmp) (snd rendered))%list in
      match fst rendered with
      | inl e => (inl e, trace)
      | inr _ => attempt (MoveFile tmp target) trace
      end
  end.

(** [scale]; [now] is [str(time.time())] and [autoscale] is
    [config.get("autoscale", True)]. *)
Definition scale (now : string) (autoscale : bool)
  (backup_dir slurm_conf_dir sched_dir : string) (config_only : bool)
  : (exn + unit) * list op :=
  match node_manager with
  | inl e => (inl e, [])
  | inr _ =>
      let backup_dir := path_join backup_dir now in
      match attempt (MakeDirs backup_dir) [] with
      | (inl e, trace) => (inl e, trace)
      | (inr _, trace) =>
          let azure_conf := path_join sched_dir "azure.conf" in
          let gres_conf := path_join slurm_conf_dir "gres.conf" in
          match backup azure_conf (path_join backup_dir "azure.conf") trace with
          | (inl e, trace) => (inl e, trace)
          | (inr _, trace) =>
              match backup gres_conf (path_join backup_dir "gres.conf") trace with
              | (inl e, trace) => (inl e, trace)
              | (inr _, trace) =>
                  match fetch_partitions with
                  | inl e => (inl e, trace)
                  | inr partition_dict =>
                      match write_then_move (azure_conf ++ ".tmp") azure_conf
                              (Render._partitions partition_dict autoscale) trace with
                      | (inl e, trace) => (inl e, trace)
                      | (inr _, trace) =>
                          match attempt UpdateFutureStates trace with
                          | (inl e, trace) => (inl e, trace)
                          | (inr _, trace) =>
                              match write_then_move (gres_conf ++ ".tmp") gres_conf
                                      (Render._generate_gres_conf from_hostlist
                                         to_hostlist sort_nodes partition_dict)
                                      trace with
                              | (inl e, trace) => (inl e, trace)
                              | (inr _, trace) =>
                                  attempt (Run [ "systemctl"; "restart"; "slurmctld" ])
                                    trace
                              end
                          end
                      end
                  end
              end
          end
      end
  end.

End Command.

End Scale.

(** ** Observations on traces and configurations *)

Module Observe.

(** The seconds spent in [time.sleep] over a trace. *)
Fixpoint total_sleep (trace : list event) : Z :=
  match trace with
  | [] => 0
  | Sleep seconds :: rest => seconds + total_sleep rest
  | _ :: rest => total_sleep rest
  end.

(** The scheduler commands of a trace, in order. *)
Fixpoint commands (trace : list event) : list (list string) :=
  match trace with
  | [] => []
  | Cmd argv :: rest => argv :: commands rest
  | _ :: rest => commands rest
  end.


(** [config["nodearrays"][array][key]], when all three exist. *)
Definition setting_of (config : Preprocess.Config) (array key : string) : option Z :=
  arrays ← Preprocess.nodearrays config; settings ← arrays !! array; settings !! key.

End Observe.

(** * Properties *)

(** ** Shared lemmas *)

Lemma append_assoc (a b c : string) : ((a ++ b) ++ c = a ++ (b ++ c))%string.
Proof.
  induction a as [|ch a IH]; [reflexivity|].
  change (String ch ((a ++ b) ++ c) = String ch (a ++ (b ++ c)))%string.
  now rewrite IH.
Qed.

Lemma range_from_zero (n : Z) :
  range 0 n = map Z.of_nat (seq 0 (Z.to_nat n)).
Proof. unfold range. rewrite Z.sub_0_r. apply map_ext. intros i. lia. Qed.

Lemma range_from_one (n : nat) :
  range 1 (Z.of_nat n + 1) = map (fun i => Z.of_nat (S i)) (seq 0 n).
Proof.
  unfold range. replace (Z.to_nat (Z.of_nat n + 1 - 1)) with n by lia.
  apply map_ext. intros i. lia.
Qed.

(** ** The retry helpers *)

Section RetryFacts.
Context {A : Type}.
Variable func : nat -> exn + A.

(** Every attempt of the loop fails: the loop sleeps after each of
    them and raises the aggregated error built from the last one. *)
Lemma attempt_loop_exhausted :
  forall numbers calls last slept,
    (forall i, (i < length numbers)%nat -> raised (func (calls + i))) ->
    exists last',
      Retry.attempt_loop func numbers calls last slept
      = (inl (Exn CyclecloudSlurmError (str_opt_exn last')),
         (slept ++ Retry.squares numbers)%list)
      /\ (numbers = [] -> last' = last)
      /\ (numbers <> [] ->
          func (calls + (length numbers - 1)) = inl (default (Exn ExternalError "") last')
          /\ is_Some last').
Proof.
  induction numbers as [|a rest IH]; intros calls last slept Hfail; simpl.
  - exists last. rewrite app_nil_r. repeat split; congruence.
  - pose proof (Hfail 0%nat ltac:(simpl; lia)) as H0.
    rewrite Nat.add_0_r in H0.
    destruct (func calls) as [e|v] eqn:Hc; [|contradiction].
    destruct (IH (S calls) (Some e) (slept ++ [Sleep (a * a)])%list) as (last' & Hrun & Hnil & Hcons).
    { intros i Hi. replace (S calls + i)%nat with (calls + S i)%nat by lia.
      apply Hfail. simpl. lia. }
    exists last'. rewrite Hrun, <- app_assoc. simpl. split; [reflexivity|].
    split; [congruence|]. intros _.
    destruct rest as [|b rest'].
    + rewrite (Hnil eq_refl). simpl. rewrite Nat.add_0_r. split; [exact Hc | eauto].
    + destruct (Hcons ltac:(congruence)) as [Hl Hs]. split; [|exact Hs].
      simpl in *. replace (calls + (length rest' - 0))%nat with (S (calls + (length rest' - 0)) - 1)%nat by lia.
      replace (calls + S (length rest' - 0))%nat with (S (calls + (length rest' - 0)))%nat by lia.
      rewrite <- Hl. f_equal. lia.
Qed.

(** The first [k] attempts fail and the next one returns [v]. *)
Lemma attempt_loop_succeeds :
  forall before numbers calls last slept v,
    (forall i, (i < length before)%nat -> raised (func (calls + i))) ->
    numbers <> [] ->
    func (calls + length before) = inr v ->
    Retry.attempt_loop func (before ++ numbers) calls last slept
    = (inr v, (slept ++ Retry.squares before)%list).
Proof.
  induction before as [|a rest IH]; intros numbers calls last slept v Hfail Hne Hok; simpl.
  - destruct numbers as [|b numbers]; [congruence|]. simpl.
    simpl in Hok. rewrite Nat.add_0_r in Hok. rewrite Hok, app_nil_r. reflexivity.
  - pose proof (Hfail 0%nat ltac:(simpl; lia)) as H0.
    rewrite Nat.add_0_r in H0.
    destruct (func calls) as [e|w] eqn:Hc; [|contradiction].
    rewrite (IH numbers (S calls) (Some e) _ v); [now rewrite <- app_assoc | | exact Hne |].
    + intros i Hi. replace (S calls + i)%nat with (calls + S i)%nat by lia.
      apply Hfail. simpl. lia.
    + simpl in Hok. replace (S calls + length rest)%nat with (calls + S (length rest))%nat by lia.
      exact Hok.
Qed.

Lemma squares_backoff (n : nat) :
  Retry.squares (map (fun i => Z.of_nat (S i)) (seq 0 n)) = Retry.backoff n.
Proof. unfold Retry.squares, Retry.backoff. now rewrite map_map. Qed.

Lemma retry_rest_exhausted (attempts : Z) (e : exn) :
  let n := Z.to_nat (Z.max 1 attempts) in
  (forall i, (i < n)%nat -> raised (func i)) ->
  func (n - 1)%nat = inl e ->
  Retry._retry_rest func attempts
  = (inl (Exn CyclecloudSlurmError (str_exn e)), Retry.backoff n).
Proof.
  intros n Hfail Hlast. unfold Retry._retry_rest.
  replace (Z.max 1 attempts) with (Z.of_nat n) by (unfold n; lia).
  rewrite range_from_one.
  destruct (attempt_loop_exhausted (map (fun i => Z.of_nat (S i)) (seq 0 n)) 0 None [])
    as (last' & Hrun & _ & Hcons).
  { rewrite length_map, length_seq. exact Hfail. }
  rewrite Hrun, squares_backoff. simpl.
  destruct Hcons as [Hl [x Hx]].
  { assert (n <> 0)%nat by (unfold n; lia). destruct n; simpl; congruence. }
  rewrite length_map, length_seq in Hl. simpl in Hl. rewrite Hlast in Hl.
  subst last'. simpl in Hl. inversion Hl; subst. reflexivity.
Qed.

Lemma retry_rest_succeeds (attempts : Z) (k : nat) (v : A) :
  let n := Z.to_nat (Z.max 1 attempts) in
  (k < n)%nat ->
  (forall i, (i < k)%nat -> raised (func i)) ->
  func k = inr v ->
  Retry._retry_rest func attempts = (inr v, Retry.backoff k).
Proof.
  intros n Hk Hfail Hok. unfold Retry._retry_rest.
  replace (Z.max 1 attempts) with (Z.of_nat n) by (unfold n; lia).
  rewrite range_from_one.
  replace n with (k + (n - k))%nat by lia.
  rewrite seq_app, map_app.
  rewrite (attempt_loop_succeeds _ _ 0 None [] v).
  - now rewrite squares_backoff.
  - rewrite length_map, length_seq. exact Hfail.
  - destruct (n - k)%nat eqn:E; [lia|]. simpl. congruence.
  - rewrite length_map, length_seq. exact Hok.
Qed.

End RetryFacts.

(** C5, as amended.  With [n = max(1, attempts)] attempts allowed, both
    retry helpers return the operation's result at its first successful
    attempt, having slept 1, 4, ..., k*k seconds after the k failed
    attempts before it; when all n attempts fail they raise one
    [CyclecloudSlurmError] carrying the text of the last failure.  A sleep
    of i*i seconds follows every failed attempt i, the last one
    included. *)
Theorem retry_backoff_after_every_failure
  (A : Type) (func : nat -> exn + A) (attempts : Z) :
  let n := Z.to_nat (Z.max 1 attempts) in
  (forall (k : nat) (v : A),
      (k < n)%nat ->
      (forall i, (i < k)%nat -> raised (func i)) ->
      func k = inr v ->
      Retry._retry_rest func attempts = (inr v, Retry.backoff k)
      /\ Retry._retry_subprocess func attempts = (inr v, Retry.backoff k))
  /\ (forall e : exn,
      (forall i, (i < n)%nat -> raised (func i)) ->
      func (n - 1)%nat = inl e ->
      Retry._retry_rest func attempts
      = (inl (Exn CyclecloudSlurmError (str_exn e)), Retry.backoff n)
      /\ Retry._retry_subprocess func attempts
         = (inl (Exn CyclecloudSlurmError (str_exn e)), Retry.backoff n)).
Proof.
  intros n. split.
  - intros k v Hk Hfail Hok.
    pose proof (retry_rest_succeeds func attempts k v Hk Hfail Hok) as H.
    split; exact H.
  - intros e Hfail Hlast.
    pose proof (retry_rest_exhausted func attempts e Hfail Hlast) as H.
    split; exact H.
Qed.

(** An operation that fails twice and then returns 7, retried with the
    default five attempts. *)
Lemma retry_backoff_after_every_failure_witness :
  Retry._retry_rest
    (fun i => if (i <? 2)%nat then inl (Exn ExternalError "boom") else inr 7%nat) 5
  = (inr 7%nat, Retry.backoff 2).
Proof.
  refine (proj1 (proj1 (retry_backoff_after_every_failure nat _ 5) 2%nat 7%nat _ _ _)).
  - vm_compute. lia.
  - intros i Hi. destruct i as [|[|i]]; simpl; trivial. lia.
  - reflexivity.
Defined.

(** C5, as stated, fails: with a single attempt allowed, that attempt is
    the final one, and the helper still sleeps one second after it
    fails, where the claim has no sleep at all. *)
Lemma retry_sleeps_after_final_attempt :
  snd (Retry._retry_rest (fun _ => inl (Exn ExternalError "boom") : exn + nat) 1)
  = [ Sleep 1 ]
  /\ snd (Retry._retry_rest (fun _ => inl (Exn ExternalError "boom") : exn + nat) 1)
     <> Retry.backoff (1 - 1).
Proof. split; [reflexivity | discriminate]. Qed.

(** ** Bucket preprocessing *)

Lemma buffer_of_visit_bucket (config : Preprocess.Config) (b : Preprocess.Bucket) :
  exists config',
    Preprocess.visit_bucket config b = inr config'
    /\ forall name,
        Preprocess.buffer_of config' name
        = if decide (name = Preprocess.nodearray b) then Some 0%Z
          else Preprocess.buffer_of config name.
Proof.
  unfold Preprocess.visit_bucket.
  rewrite lookup_insert_eq.
  eexists. split; [reflexivity|].
  intros name. unfold Preprocess.buffer_of. simpl.
  destruct (decide (name = Preprocess.nodearray b)) as [->|Hne].
  - rewrite lookup_insert_eq. simpl. now rewrite lookup_insert_eq.
  - rewrite lookup_insert_ne by congruence.
    destruct (Preprocess.nodearrays config) as [arrays|]; simpl; [reflexivity|].
    now rewrite lookup_empty.
Qed.

Lemma preprocess_keeps_zero (buckets : list Preprocess.Bucket) :
  forall config config' name,
    Preprocess.buffer_of config name = Some 0%Z ->
    Preprocess.preprocess_node_mgr config buckets = inr config' ->
    Preprocess.buffer_of config' name = Some 0%Z.
Proof.
  induction buckets as [|b rest IH]; intros config config' name Hzero Hrun;
    simpl in Hrun.
  - inversion Hrun; subst. exact Hzero.
  - destruct (buffer_of_visit_bucket config b) as (c1 & Hv & Hb1).
    rewrite Hv in Hrun. simpl in Hrun.
    apply (IH c1 config' name); [|exact Hrun].
    rewrite Hb1. destruct (decide (name = Preprocess.nodearray b)); auto.
Qed.

(** Whatever the buckets and the incoming configuration are, the pass
    never raises and leaves the buffer of every visited node array at
    zero. *)
Lemma preprocess_stores_zero (buckets : list Preprocess.Bucket) :
  forall config,
  exists config',
    Preprocess.preprocess_node_mgr config buckets = inr config'
    /\ forall b, In b buckets ->
        Preprocess.buffer_of config' (Preprocess.nodearray b) = Some 0%Z.
Proof.
  induction buckets as [|b rest IH]; intros config; simpl.
  - exists config. split; [reflexivity | intros b []].
  - destruct (buffer_of_visit_bucket config b) as (c1 & Hv & Hb1).
    rewrite Hv. simpl.
    destruct (IH c1) as (c2 & Hrun & Hall).
    exists c2. split; [exact Hrun|].
    intros b' [<-|Hin]; [|now apply Hall].
    apply (preprocess_keeps_zero rest c1 c2); [|exact Hrun].
    rewrite Hb1. now rewrite decide_True.
Qed.

(** C7, at the failing input.  An HPC bucket with [max_count = 10] and
    [max_placement_group_size = 4]: the computation written in the method
    gives [ceil(10 / 4) = 3], and gives back a value of 7 cached by a
    prior cycle; the method stores 0 in both cases. *)
Theorem preprocess_overrides_buffer :
  let b := {| Preprocess.nodearray := "hpc";
              Preprocess.slurm_hpc := Some (Preprocess.CBool true);
              Preprocess.max_count := 10;
              Preprocess.max_placement_group_size := 4 |} in
  let fresh := {| Preprocess.nodearrays := None |} in
  let cached :=
    {| Preprocess.nodearrays :=
         Some {[ "hpc" := {[ Preprocess.buffer_key := 7%Z ]} ]} |} in
  Preprocess.intended_buffer fresh b = inr 3%Z
  /\ Preprocess.intended_buffer cached b = inr 7%Z
  /\ (do c <- Preprocess.preprocess_node_mgr fresh [ b ];
      inr (Preprocess.buffer_of c "hpc")) = inr (Some 0%Z)
  /\ (do c <- Preprocess.preprocess_node_mgr cached [ b ];
      inr (Preprocess.buffer_of c "hpc")) = inr (Some 0%Z).
Proof. vm_compute. repeat split; reflexivity. Qed.

(** ** [keep_alive] *)

(** C10.  Called with both [remove] and [set_nodes], [keep_alive] raises
    [CyclecloudSlurmError] with an empty trace: no scheduler command was
    run, so the excluded set was not read, and no file was written or
    moved. *)
Theorem keep_alive_rejects_remove_and_set
  (check_output : list string -> exn + string)
  (iteration : gset string -> list string)
  (file_op : event -> exn + unit)
  (from_hostlist : string -> list string)
  (sort_nodes : bool -> list string -> list string)
  (splitlines : string -> list string)
  (strip : string -> string)
  (split_whitespace : string -> list string)
  (node_list : list string) :
  KeepAlive.keep_alive check_output iteration file_op from_hostlist sort_nodes
    splitlines strip split_whitespace node_list true true
  = (inl (Exn CyclecloudSlurmError
            "Please define only --set or --remove, not both."), []).
Proof. reflexivity. Qed.

(** With any other combination of the two flags the first effect is the
    command that reads the scheduler's configuration. *)
Lemma keep_alive_reads_config_otherwise
  (check_output : list string -> exn + string)
  (iteration : gset string -> list string)
  (file_op : event -> exn + unit)
  (from_hostlist : string -> list string)
  (sort_nodes : bool -> list string -> list string)
  (splitlines : string -> list string)
  (strip : string -> string)
  (split_whitespace : string -> list string)
  (node_list : list string) (remove set_nodes : bool) :
  remove && set_nodes = false ->
  exists rest,
    snd (KeepAlive.keep_alive check_output iteration file_op from_hostlist
           sort_nodes splitlines strip split_whitespace node_list remove set_nodes)
    = Cmd [ "scontrol"; "show"; "config" ] :: rest.
Proof.
  intros Hflags.
  unfold KeepAlive.keep_alive, KeepAlive.run, KeepAlive.attempt. rewrite Hflags.
  simpl.
  repeat (match goal with
          | |- context [ match ?x with inl _ => _ | inr _ => _ end ] => destruct x
          end; simpl);
    eexists; reflexivity.
Qed.

(** ** The partition renderer *)

Lemma write_partition_rendered (autoscale : bool) (p : Render.Partition) :
  Render.pcpu_count p <> 0%Z ->
  exists h1 h2 h3 cpus threads tail,
    Render.write_partition autoscale p
    = inr (h1 :: h2 :: h3
             :: Render.partition_line p
                  (Z.max 1024 (Render.memory p) / Render.pcpu_count p)
             :: Render.nodename_line p autoscale cpus threads
                  (Z.max 1024 (Render.memory p))
             :: tail).
Proof.
  intros Hp. unfold Render.write_partition, floordiv, Render.floored_memory.
  apply Z.eqb_neq in Hp. rewrite Hp. simpl.
  destruct (Render.use_pcpu p); simpl; do 6 eexists; reflexivity.
Qed.

Lemma write_partition_raises (autoscale : bool) (p : Render.Partition) :
  Render.pcpu_count p = 0%Z -> raised (Render.write_partition autoscale p).
Proof.
  intros Hp. unfold Render.write_partition, floordiv. rewrite Hp. exact I.
Qed.

(** C8.  When every partition has a non-zero physical CPU count,
    [_partitions] renders all of them; in the lines of each, the fourth
    write carries [DefMemPerCPU] equal to [max(1024, memory)] divided by
    the physical CPU count with integer division, and the fifth write
    ends with [RealMemory] equal to [max(1024, memory)]. *)
Theorem partitions_memory_floor (partitions : list Render.Partition)
  (autoscale : bool) :
  Forall (fun p => Render.pcpu_count p <> 0%Z) partitions ->
  exists outs : list (list string),
    Render._partitions partitions autoscale = (inr tt, concat outs)
    /\ Forall2
         (fun p out =>
            exists before_mem before_real : string,
              nth_error out 3
              = Some (before_mem ++ " DefMemPerCPU="
                        ++ str_int (Z.max 1024 (Render.memory p) / Render.pcpu_count p)
                        ++ " MaxTime=INFINITE State=UP" ++ nl)
              /\ nth_error out 4
                 = Some (before_real ++ " RealMemory="
                           ++ str_int (Z.max 1024 (Render.memory p))))
         partitions outs.
Proof.
  induction 1 as [|p rest Hp Hrest IH].
  - exists []. split; [reflexivity | constructor].
  - destruct IH as (outs & Hrun & Hall).
    destruct (write_partition_rendered autoscale p Hp)
      as (h1 & h2 & h3 & cpus & threads & tail & Hw).
    eexists (_ :: outs). split.
    + simpl. rewrite Hw, Hrun. reflexivity.
    + constructor; [|exact Hall].
      exists ("PartitionName=" ++ Render.name p ++ " Nodes="
                ++ Render.str_opt (Render.node_list p)
                ++ " Default=" ++ (if Render.is_default p then "YES" else "NO")).
      exists ("Nodename=" ++ Render.node_list_or_empty p ++ " Feature=cloud STATE="
                ++ (if autoscale then "CLOUD" else "FUTURE")
                ++ " CPUs=" ++ str_int cpus
                ++ " ThreadsPerCore=" ++ str_int threads).
      split; simpl; f_equal.
      * unfold Render.partition_line. now rewrite !append_assoc.
      * unfold Render.nodename_line. now rewrite !append_assoc.
Qed.

(** A bucket reporting 100 MB with four physical CPUs. *)
Lemma partitions_memory_floor_witness :
  let p := {| Render.name := "hpc"; Render.nodearray := "hpc";
              Render.node_list := Some "hpc-[1-4]";
              Render.node_list_by_pg := [];
              Render.is_default := true; Render.is_hpc := true;
              Render.max_vm_count := 4; Render.max_scaleset_size := 4;
              Render.memory := 100; Render.pcpu_count := 4;
              Render.vcpu_count := 8; Render.use_pcpu := true;
              Render.gpu_count := 0 |} in
  exists outs : list (list string),
    Render._partitions [ p ] true = (inr tt, concat outs)
    /\ Forall2
         (fun p out =>
            exists before_mem before_real : string,
              nth_error out 3
              = Some (before_mem ++ " DefMemPerCPU="
                        ++ str_int (Z.max 1024 (Render.memory p) / Render.pcpu_count p)
                        ++ " MaxTime=INFINITE State=UP" ++ nl)
              /\ nth_error out 4
                 = Some (before_real ++ " RealMemory="
                           ++ str_int (Z.max 1024 (Render.memory p))))
         [ p ] outs.
Proof.
  intros p. apply (partitions_memory_floor [ p ] true).
  repeat constructor. simpl. lia.
Defined.

(** The same bucket, rendered: the floor of 1024 MB is what reaches both
    fields. *)
Example partitions_hundred_megabytes :
  let p := {| Render.name := "hpc"; Render.nodearray := "hpc";
              Render.node_list := Some "hpc-[1-4]";
              Render.node_list_by_pg := [];
              Render.is_default := true; Render.is_hpc := true;
              Render.max_vm_count := 4; Render.max_scaleset_size := 4;
              Render.memory := 100; Render.pcpu_count := 4;
              Render.vcpu_count := 8; Render.use_pcpu := true;
              Render.gpu_count := 0 |} in
  skipn 3 (snd (Render._partitions [ p ] true))
  = [ "PartitionName=hpc Nodes=hpc-[1-4] Default=YES DefMemPerCPU=256 MaxTime=INFINITE State=UP" ++ nl;
      "Nodename=hpc-[1-4] Feature=cloud STATE=CLOUD CPUs=4 ThreadsPerCore=2 RealMemory=1024";
      nl ].
Proof. vm_compute. reflexivity. Qed.

(** ** The GRES renderer *)

Lemma firstn_split {A : Type} (l : list A) (a b : nat) :
  (a <= b)%nat ->
  firstn b l = (firstn a l ++ firstn (b - a) (skipn a l))%list.
Proof.
  intros Hab.
  rewrite <- (firstn_skipn a (firstn b l)) at 1.
  rewrite firstn_firstn, Nat.min_l by exact Hab.
  now rewrite skipn_firstn_comm.
Qed.

Lemma slice_nonneg {A : Type} (l : list A) (a b : Z) :
  (0 <= a)%Z -> (0 <= b)%Z ->
  slice l a b = firstn (Z.to_nat b - Z.to_nat a) (skipn (Z.to_nat a) l).
Proof.
  intros Ha Hb. unfold slice, clamp_index.
  destruct (Z.ltb_spec a 0) as [?|_]; [lia|].
  destruct (Z.ltb_spec b 0) as [?|_]; [lia|].
  set (len := length l).
  destruct (Z.le_gt_cases (Z.of_nat len) a) as [Hge|Hlt].
  - rewrite !skipn_all2 by (fold len; lia). now rewrite !firstn_nil.
  - rewrite (Z.min_l a) by lia.
    destruct (Z.le_gt_cases b (Z.of_nat len)) as [Hb'|Hb'].
    + rewrite (Z.min_l b) by lia. f_equal. lia.
    + rewrite (Z.min_r b) by lia.
      rewrite !firstn_all2; [reflexivity | |]; rewrite length_skipn; fold len; lia.
Qed.

Lemma ceildiv_bounds (m s : Z) :
  (0 < s)%Z ->
  exists n, ceildiv m s = inr n /\ ((n - 1) * s < m <= n * s)%Z.
Proof.
  intros Hs. unfold ceildiv.
  destruct (Z.eqb_spec s 0) as [?|_]; [lia|].
  eexists. split; [reflexivity|].
  pose proof (Z.mul_div_le (- m) s Hs).
  pose proof (Z.mul_succ_div_gt (- m) s Hs).
  nia.
Qed.

Section GresFacts.
Variable from_hostlist : string -> list string.
Variable to_hostlist : string -> string.
Variable sort_nodes : bool -> list string -> list string.

(** The chunks cut for the first [j] placement groups. *)
Lemma chunks_concat (p : Render.Partition) (all_nodes : list string) (j : nat) :
  (0 < Render.max_scaleset_size p)%Z ->
  (0 <= Render.max_vm_count p)%Z ->
  concat (map (Render.subset_of_nodes p all_nodes) (map Z.of_nat (seq 0 j)))
  = firstn (Z.to_nat (Z.min (Render.max_vm_count p)
                        (Z.of_nat j * Render.max_scaleset_size p)))
      all_nodes.
Proof.
  intros Hs Hm. induction j as [|j IH].
  - simpl. rewrite Z.min_r by lia. reflexivity.
  - rewrite seq_S, !map_app, concat_app, IH. simpl. rewrite app_nil_r.
    unfold Render.subset_of_nodes.
    rewrite slice_nonneg by nia.
    set (s := Render.max_scaleset_size p) in *.
    set (m := Render.max_vm_count p) in *.
    replace (Z.of_nat j + 1)%Z with (Z.of_nat (S j)) by lia.
    destruct (Z.le_gt_cases m (Z.of_nat j * s)) as [Hle|Hgt].
    + rewrite !Z.min_l by nia.
      replace (Z.to_nat m - Z.to_nat (Z.of_nat j * s))%nat with 0%nat by lia.
      simpl. now rewrite app_nil_r.
    + rewrite (Z.min_r m (Z.of_nat j * s)) by lia.
      symmetry. apply firstn_split. nia.
Qed.

Lemma chunk_length (p : Render.Partition) (all_nodes : list string) (i : Z) :
  (0 < Render.max_scaleset_size p)%Z ->
  (0 <= Render.max_vm_count p)%Z ->
  (0 <= i)%Z ->
  (Z.of_nat (length (Render.subset_of_nodes p all_nodes i))
   <= Render.max_scaleset_size p)%Z.
Proof.
  intros Hs Hm Hi. unfold Render.subset_of_nodes.
  rewrite slice_nonneg by nia.
  pose proof (firstn_le_length
                (Z.to_nat (Z.min (Render.max_vm_count p)
                             ((i + 1) * Render.max_scaleset_size p))
                 - Z.to_nat (i * Render.max_scaleset_size p))
                (skipn (Z.to_nat (i * Render.max_scaleset_size p)) all_nodes)).
  nia.
Qed.

Lemma write_gres_chunks (p : Render.Partition) (expr : string) :
  Render.node_list p = Some expr ->
  (0 < Render.max_scaleset_size p)%Z ->
  (0 <= Render.max_vm_count p)%Z ->
  exists n : nat,
    ((Z.of_nat n - 1) * Render.max_scaleset_size p
     < Render.max_vm_count p <= Z.of_nat n * Render.max_scaleset_size p)%Z
    /\ Render.write_gres from_hostlist to_hostlist sort_nodes p
       = inr (flat_map
                (fun chunk =>
                   if (Render.gpu_count p =? 0)%Z then [ nl ]
                   else [ Render.gres_line (to_hostlist (join "," chunk))
                            (Render.gpu_count p); nl ])
                (map (Render.subset_of_nodes p
                        (Render.sorted_nodes from_hostlist sort_nodes p expr))
                   (map Z.of_nat (seq 0 n)))).
Proof.
  intros Hexpr Hs Hm.
  destruct (ceildiv_bounds (Render.max_vm_count p) (Render.max_scaleset_size p) Hs)
    as (n & Hn & Hbounds).
  assert (0 <= n)%Z by nia.
  exists (Z.to_nat n). split; [rewrite Z2Nat.id by lia; exact Hbounds|].
  unfold Render.write_gres. rewrite Hexpr, Hn. simpl.
  rewrite range_from_zero. f_equal.
  rewrite !flat_map_concat_map, !map_map. f_equal. apply map_ext.
  intros i. unfold Render.write_placement_group.
  destruct (Render.gpu_count p =? 0)%Z; reflexivity.
Qed.

End GresFacts.

Lemma nvidia_devices_cases (k : Z) :
  (1 <= k)%Z ->
  Render.nvidia_devices k
  = if (k =? 1)%Z then "/dev/nvidia0"
    else "/dev/nvidia[0-" ++ str_int (k - 1) ++ "]".
Proof.
  intros Hk. unfold Render.nvidia_devices.
  destruct (Z.ltb_spec 1 k), (Z.eqb_spec k 1); try lia; reflexivity.
Qed.

(** C6.  For partitions with a populated node list, a positive scale set
    size and non-negative VM and GPU counts, the GRES renderer succeeds
    and cuts the sorted node list of each partition into n chunks, where
    n is the ceiling of [max_vm_count / max_scaleset_size] (the integer
    with (n-1)*size < count <= n*size); the chunks follow one another in
    the first [max_vm_count] nodes and each holds at most
    [max_scaleset_size] names.  With k >= 1 GPUs it writes, for each
    chunk, one [Nodename] line reading [Name=gpu Count=k] with device
    [/dev/nvidia0] for k = 1 and [/dev/nvidia[0-(k-1)]] otherwise,
    followed by a line feed; without GPUs it writes the line feed
    only. *)
Theorem gres_chunks_and_devices
  (from_hostlist : string -> list string)
  (to_hostlist : string -> string)
  (sort_nodes : bool -> list string -> list string)
  (partitions : list Render.Partition) :
  Forall (fun p => Render.node_list p <> None
                   /\ (0 < Render.max_scaleset_size p)%Z
                   /\ (0 <= Render.max_vm_count p)%Z
                   /\ (0 <= Render.gpu_count p)%Z) partitions ->
  exists outs : list (list string),
    Render._generate_gres_conf from_hostlist to_hostlist sort_nodes partitions
    = (inr tt, concat outs)
    /\ Forall2
         (fun p out =>
            exists (expr : string) (chunks : list (list string)),
              Render.node_list p = Some expr
              /\ ((Z.of_nat (length chunks) - 1) * Render.max_scaleset_size p
                  < Render.max_vm_count p
                  <= Z.of_nat (length chunks) * Render.max_scaleset_size p)%Z
              /\ concat chunks
                 = firstn (Z.to_nat (Render.max_vm_count p))
                     (sort_nodes (Render.is_hpc p) (from_hostlist expr))
              /\ Forall (fun chunk =>
                           (Z.of_nat (length chunk) <= Render.max_scaleset_size p)%Z)
                   chunks
              /\ out
                 = flat_map
                     (fun chunk =>
                        if (Render.gpu_count p =? 0)%Z then [ nl ]
                        else
                          [ "Nodename=" ++ to_hostlist (join "," chunk)
                              ++ " Name=gpu Count=" ++ str_int (Render.gpu_count p)
                              ++ " File="
                              ++ (if (Render.gpu_count p =? 1)%Z then "/dev/nvidia0"
                                  else "/dev/nvidia[0-"
                                         ++ str_int (Render.gpu_count p - 1) ++ "]");
                            nl ])
                     chunks)
         partitions outs.
Proof.
  induction 1 as [|p rest Hp Hrest IH].
  - exists []. split; [reflexivity | constructor].
  - destruct IH as (outs & Hrun & Hall).
    destruct Hp as (Hlist & Hs & Hm & Hk).
    destruct (Render.node_list p) as [expr|] eqn:Hexpr; [|congruence].
    destruct (write_gres_chunks from_hostlist to_hostlist sort_nodes p expr
                Hexpr Hs Hm) as (n & Hbounds & Hw).
    eexists (_ :: outs). split.
    + simpl. rewrite Hw, Hrun. reflexivity.
    + constructor; [|exact Hall].
      exists expr.
      exists (map (Render.subset_of_nodes p
                     (Render.sorted_nodes from_hostlist sort_nodes p expr))
                (map Z.of_nat (seq 0 n))).
      rewrite !length_map, length_seq.
      split; [exact Hexpr|]. split; [exact Hbounds|]. split; [|split].
      * rewrite chunks_concat by assumption.
        rewrite Z.min_l by lia. reflexivity.
      * apply List.Forall_forall. intros chunk Hin.
        apply in_map_iff in Hin. destruct Hin as (i & <- & Hi).
        apply in_map_iff in Hi. destruct Hi as (j & <- & _).
        apply chunk_length; lia.
      * apply flat_map_ext. intros chunk.
        destruct (Z.eqb_spec (Render.gpu_count p) 0) as [|Hgpu]; [reflexivity|].
        unfold Render.gres_line. now rewrite nvidia_devices_cases by lia.
Qed.

(** A partition of three nodes with two GPUs each and scale sets of two:
    two chunks. *)
Lemma gres_chunks_and_devices_witness :
  let p := {| Render.name := "gpu"; Render.nodearray := "gpu";
              Render.node_list := Some "gpu-[1-3]";
              Render.node_list_by_pg := [];
              Render.is_default := false; Render.is_hpc := true;
              Render.max_vm_count := 3; Render.max_scaleset_size := 2;
              Render.memory := 4096; Render.pcpu_count := 4;
              Render.vcpu_count := 8; Render.use_pcpu := true;
              Render.gpu_count := 2 |} in
  let from_hostlist := fun _ : string => [ "gpu-1"; "gpu-2"; "gpu-3" ] in
  let to_hostlist := fun s : string => s in
  let sort_nodes := fun (_ : bool) (l : list string) => l in
  exists outs : list (list string),
    Render._generate_gres_conf from_hostlist to_hostlist sort_nodes [ p ]
    = (inr tt, concat outs)
    /\ Forall2
         (fun p out =>
            exists (expr : string) (chunks : list (list string)),
              Render.node_list p = Some expr
              /\ ((Z.of_nat (length chunks) - 1) * Render.max_scaleset_size p
                  < Render.max_vm_count p
                  <= Z.of_nat (length chunks) * Render.max_scaleset_size p)%Z
              /\ concat chunks
                 = firstn (Z.to_nat (Render.max_vm_count p))
                     (sort_nodes (Render.is_hpc p) (from_hostlist expr))
              /\ Forall (fun chunk =>
                           (Z.of_nat (length chunk) <= Render.max_scaleset_size p)%Z)
                   chunks
              /\ out
                 = flat_map
                     (fun chunk =>
                        if (Render.gpu_count p =? 0)%Z then [ nl ]
                        else
                          [ "Nodename=" ++ to_hostlist (join "," chunk)
                              ++ " Name=gpu Count=" ++ str_int (Render.gpu_count p)
                              ++ " File="
                              ++ (if (Render.gpu_count p =? 1)%Z then "/dev/nvidia0"
                                  else "/dev/nvidia[0-"
                                         ++ str_int (Render.gpu_count p - 1) ++ "]");
                            nl ])
                     chunks)
         [ p ] outs.
Proof.
  intros p from_hostlist to_hostlist sort_nodes.
  apply (gres_chunks_and_devices from_hostlist to_hostlist sort_nodes [ p ]).
  repeat constructor; simpl; try lia. discriminate.
Defined.

(** The same partition, rendered. *)
Example gres_three_nodes_two_gpus :
  let p := {| Render.name := "gpu"; Render.nodearray := "gpu";
              Render.node_list := Some "gpu-[1-3]";
              Render.node_list_by_pg := [];
              Render.is_default := false; Render.is_hpc := true;
              Render.max_vm_count := 3; Render.max_scaleset_size := 2;
              Render.memory := 4096; Render.pcpu_count := 4;
              Render.vcpu_count := 8; Render.use_pcpu := true;
              Render.gpu_count := 2 |} in
  Render._generate_gres_conf (fun _ => [ "gpu-1"; "gpu-2"; "gpu-3" ])
    (fun s => s) (fun _ l => l) [ p ]
  = (inr tt,
     [ "Nodename=gpu-1,gpu-2 Name=gpu Count=2 File=/dev/nvidia[0-1]"; nl;
       "Nodename=gpu-3 Name=gpu Count=2 File=/dev/nvidia[0-1]"; nl ]).
Proof. vm_compute. reflexivity. Qed.

(** ** The topology renderer *)

Section TopologyFacts.

Lemma lookup_extend_group (q pg : option string) (names : list string) (d : list (option string * list string)) :
  Render.lookup_group q (Render.extend_group pg names d)
  = if decide (q = pg) then (Render.lookup_group pg d ++ names)%list
    else Render.lookup_group q d.
Proof.
  induction d as [|[k v] rest IH]; simpl.
  - destruct (decide (pg = q)), (decide (q = pg)); congruence.
  - destruct (decide (k = pg)) as [->|Hk]; simpl.
    + destruct (decide (pg = q)), (decide (q = pg)); congruence.
    + rewrite IH.
      destruct (decide (k = q)), (decide (q = pg)), (decide (k = pg));
        congruence.
Qed.

Lemma keys_extend_group (q pg : option string) (names : list string) (d : list (option string * list string)) :
  In q (map fst (Render.extend_group pg names d))
  <-> q = pg \/ In q (map fst d).
Proof.
  induction d as [|[k v] rest IH]; simpl.
  - intuition congruence.
  - destruct (decide (k = pg)) as [->|Hk]; simpl; [|rewrite IH];
      intuition congruence.
Qed.

Lemma nodup_extend_group (pg : option string) (names : list string) (d : list (option string * list string)) :
  List.NoDup (map fst d) ->
  List.NoDup (map fst (Render.extend_group pg names d)).
Proof.
  induction d as [|[k v] rest IH]; simpl; intros Hnd.
  - constructor; [intros [] | constructor].
  - destruct (decide (k = pg)) as [->|Hk]; simpl; [exact Hnd|].
    inversion Hnd as [|? ? Hnotin Hrest]; subst.
    constructor; [|now apply IH].
    rewrite keys_extend_group. intuition congruence.
Qed.

Lemma lookup_add_items (q : option string) (items : list (option string * list string)) :
  forall d,
    Render.lookup_group q (Render.add_items items d)
    = (Render.lookup_group q d
         ++ flat_map (fun item => if decide (fst item = q) then snd item else [])
              items)%list.
Proof.
  induction items as [|[k v] items IH]; intros d; simpl.
  - now rewrite app_nil_r.
  - unfold Render.add_items in *. simpl. rewrite IH, lookup_extend_group.
    destruct (decide (q = k)) as [Hq|Hq], (decide (k = q)) as [Hk|Hk];
      try congruence.
    + subst. now rewrite <- List.app_assoc.
    + reflexivity.
Qed.

Lemma keys_add_items (q : option string) (items : list (option string * list string)) :
  forall d,
    In q (map fst (Render.add_items items d))
    <-> In q (map fst d) \/ In q (map fst items).
Proof.
  induction items as [|[k v] items IH]; intros d; simpl.
  - intuition.
  - unfold Render.add_items in *. simpl. rewrite IH, keys_extend_group. simpl.
    intuition congruence.
Qed.

Lemma nodup_add_items (items : list (option string * list string)) :
  forall d, List.NoDup (map fst d) -> List.NoDup (map fst (Render.add_items items d)).
Proof.
  induction items as [|[k v] items IH]; intros d Hnd; simpl; [exact Hnd|].
  apply IH. now apply nodup_extend_group.
Qed.

Lemma lookup_collect (q : option string) (partitions : list Render.Partition) :
  forall d,
    Render.lookup_group q (fold_left Render.collect_partition partitions d)
    = (Render.lookup_group q d ++ Render.members q partitions)%list.
Proof.
  induction partitions as [|p rest IH]; intros d; simpl.
  - now rewrite app_nil_r.
  - rewrite IH. unfold Render.collect_partition.
    rewrite lookup_add_items. now rewrite <- List.app_assoc.
Qed.

Lemma keys_collect (q : option string) (partitions : list Render.Partition) :
  forall d,
    In q (map fst (fold_left Render.collect_partition partitions d))
    <-> In q (map fst d) \/ In q (Render.group_ids partitions).
Proof.
  induction partitions as [|p rest IH]; intros d; simpl.
  - intuition.
  - rewrite IH. unfold Render.collect_partition.
    rewrite keys_add_items, in_app_iff. intuition.
Qed.

Lemma nodup_collect (partitions : list Render.Partition) :
  forall d,
    List.NoDup (map fst d) ->
    List.NoDup (map fst (fold_left Render.collect_partition partitions d)).
Proof.
  induction partitions as [|p rest IH]; intros d Hnd; simpl; [exact Hnd|].
  apply IH. unfold Render.collect_partition. now apply nodup_add_items.
Qed.

Lemma group_ids_nil (partitions : list Render.Partition) :
  Render.group_ids partitions = []
  <-> Forall (fun p => Render.node_list_by_pg p = []) partitions.
Proof.
  induction partitions as [|p rest IH]; simpl.
  - split; [constructor | reflexivity].
  - split.
    + intros H. apply app_eq_nil in H. destruct H as [Hp Hrest].
      constructor; [now apply map_eq_nil in Hp | now apply IH].
    + intros H. inversion H as [|? ? Hp Hrest]; subst.
      rewrite Hp. simpl. now apply IH.
Qed.

Lemma collect_nil (partitions : list Render.Partition) :
  Render.collect partitions = []
  <-> Forall (fun p => Render.node_list_by_pg p = []) partitions.
Proof.
  rewrite <- group_ids_nil. unfold Render.collect. split; intros H.
  - destruct (Render.group_ids partitions) as [|q ids] eqn:E; [reflexivity|].
    assert (Hin : In q (map fst (fold_left Render.collect_partition partitions [])))
      by (apply keys_collect; right; rewrite E; now left).
    rewrite H in Hin. destruct Hin.
  - destruct (fold_left Render.collect_partition partitions []) as [|[k v] d] eqn:E;
      [reflexivity|].
    assert (Hin : In k (Render.group_ids partitions)).
    { destruct (proj1 (keys_collect k partitions [])) as [[]|Hin];
        [rewrite E; now left | exact Hin]. }
    rewrite H in Hin. destruct Hin.
Qed.

Lemma members_in_group_ids (q : option string) (partitions : list Render.Partition) :
  Render.members q partitions <> [] -> In q (Render.group_ids partitions).
Proof.
  induction partitions as [|p rest IH]; simpl; [congruence|].
  intros H. apply in_app_iff.
  destruct (flat_map (fun item => if decide (fst item = q) then snd item else [])
              (Render.node_list_by_pg p)) as [|x l] eqn:E.
  - right. now apply IH.
  - left. clear H IH.
    induction (Render.node_list_by_pg p) as [|[k v] items IHi]; simpl in *;
      [discriminate|].
    destruct (decide (k = q)) as [->|Hk]; [now left|].
    right. apply IHi. exact E.
Qed.

Lemma leb_trans (a b c : string) :
  String.leb a b = true -> String.leb b c = true -> String.leb a c = true.
Proof.
  intros Hab Hbc. apply Is_true_true.
  apply (@transitivity _ String.le _ a b c); apply Is_true_true; assumption.
Qed.

Lemma leb_false_flip (a b : string) :
  String.leb a b = false -> String.leb b a = true.
Proof. intros H. destruct (String.leb_total a b); congruence. Qed.

Lemma leb_empty (a : string) : String.leb a "" = true -> a = "".
Proof.
  intros H. apply String.leb_antisym; [exact H|]. now destruct a.
Qed.

Lemma insert_pg_perm (x : option string) (l : list (option string)) :
  Permutation (Render.insert_pg x l) (x :: l).
Proof.
  induction l as [|y rest IH]; simpl; [reflexivity|].
  destruct (String.leb _ _); [reflexivity|].
  rewrite IH. apply perm_swap.
Qed.

Lemma insert_pg_sorted (x : option string) (l : list (option string)) :
  StronglySorted Render.pg_le l ->
  StronglySorted Render.pg_le (Render.insert_pg x l).
Proof.
  induction l as [|y rest IH]; simpl; intros Hs.
  - repeat constructor.
  - inversion Hs as [|? ? Hrest Hall]; subst.
    destruct (String.leb (Render.pg_sort_key x) (Render.pg_sort_key y)) eqn:E.
    + constructor; [exact Hs|]. constructor; [exact E|].
      apply List.Forall_forall. intros z Hz.
      rewrite List.Forall_forall in Hall.
      exact (leb_trans _ _ _ E (Hall z Hz)).
    + constructor; [now apply IH|].
      apply List.Forall_forall. intros z Hz.
      apply (Permutation_in _ (insert_pg_perm x rest)) in Hz.
      destruct Hz as [<-|Hz].
      * now apply leb_false_flip.
      * rewrite List.Forall_forall in Hall. now apply Hall.
Qed.

Lemma sorted_pgs_perm (l : list (option string)) :
  Permutation (Render.sorted_pgs l) l.
Proof.
  induction l as [|x rest IH]; simpl; [reflexivity|].
  rewrite insert_pg_perm. now constructor.
Qed.

Lemma sorted_pgs_sorted (l : list (option string)) :
  StronglySorted Render.pg_le (Render.sorted_pgs l).
Proof.
  induction l as [|x rest IH]; simpl; [constructor | now apply insert_pg_sorted].
Qed.

Lemma filter_sorted (f : option string -> bool) (l : list (option string)) :
  StronglySorted Render.pg_le l ->
  StronglySorted Render.pg_le (List.filter f l).
Proof.
  induction 1 as [|x rest Hrest IH Hall]; simpl; [constructor|].
  destruct (f x); [|exact IH].
  constructor; [exact IH|].
  apply List.Forall_forall. intros z Hz. apply filter_In in Hz.
  rewrite List.Forall_forall in Hall. now apply Hall.
Qed.

Lemma sorted_prefix (before after : list (option string)) (x : option string) :
  StronglySorted Render.pg_le (before ++ x :: after) ->
  Forall (fun q => Render.pg_le q x) before.
Proof.
  induction before as [|y rest IH]; simpl; intros Hs; [constructor|].
  inversion Hs as [|? ? Hrest Hall]; subst.
  constructor; [|now apply IH].
  rewrite List.Forall_forall in Hall. apply Hall.
  apply in_app_iff. right. now left.
Qed.

Lemma write_switch_lines (sort_nodes : bool -> list string -> list string)
  (d : list (option string * list string)) (l : list (option string)) :
  flat_map (Render.write_switch sort_nodes d) l
  = map (fun pg => Render.switch_line sort_nodes pg (Render.lookup_group pg d))
      (List.filter (fun pg => Render.is_populated (Render.lookup_group pg d)) l).
Proof.
  induction l as [|pg rest IH]; simpl; [reflexivity|].
  unfold Render.write_switch at 1.
  destruct (Render.lookup_group pg d) eqn:E; simpl; rewrite IH, ?E; reflexivity.
Qed.

End TopologyFacts.

(** C9.  [_generate_topology] raises exactly when no partition has any
    placement group entry.  Otherwise it writes one [SwitchName] line for
    each placement group id that has at least one node across the
    partitions, each id once, in the order of the sort key: ids are in
    ascending string order, and a null or empty id, written with switch
    name [htc], is preceded only by null or empty ids. *)
Theorem topology_switch_lines
  (sort_nodes : bool -> list string -> list string)
  (partitions : list Render.Partition) :
  (raised (Render._generate_topology sort_nodes partitions)
   <-> Forall (fun p => Render.node_list_by_pg p = []) partitions)
  /\ (forall out : list string,
         Render._generate_topology sort_nodes partitions = inr out ->
         exists ids : list (option string),
           out
           = map (fun pg =>
                    "SwitchName="
                      ++ match pg with
                         | Some s => if String.eqb s "" then "htc" else s
                         | None => "htc"
                         end
                      ++ " Nodes="
                      ++ join "," (sort_nodes (Render.pg_truthy pg)
                                     (Render.members pg partitions))
                      ++ nl)
               ids
           /\ List.NoDup ids
           /\ (forall pg, In pg ids <-> Render.members pg partitions <> [])
           /\ StronglySorted
                (fun a b =>
                   String.leb (Render.pg_sort_key a) (Render.pg_sort_key b) = true)
                ids
           /\ (forall before pg after,
                  ids = (before ++ pg :: after)%list ->
                  Render.pg_truthy pg = false ->
                  Forall (fun q => Render.pg_truthy q = false) before)).
Proof.
  split.
  - rewrite <- collect_nil. unfold Render._generate_topology.
    destruct (Render.collect partitions); simpl; split; intros H;
      (exact I || reflexivity || contradiction || discriminate).
  - intros out Hout. unfold Render._generate_topology in Hout.
    destruct (Render.collect partitions) as [|g d] eqn:Hc; [discriminate|].
    rewrite <- Hc in Hout. injection Hout as <-.
    assert (Hlookup : forall pg,
               Render.lookup_group pg (Render.collect partitions)
               = Render.members pg partitions)
      by (intros pg; unfold Render.collect; now rewrite lookup_collect).
    set (keys := map fst (Render.collect partitions)).
    exists (List.filter (fun pg => Render.is_populated (Render.members pg partitions))
              (Render.sorted_pgs keys)).
    assert (Hsorted : StronglySorted Render.pg_le
                        (List.filter
                           (fun pg => Render.is_populated (Render.members pg partitions))
                           (Render.sorted_pgs keys)))
      by (apply filter_sorted, sorted_pgs_sorted).
    split; [|split; [|split; [|split]]].
    + rewrite write_switch_lines. fold keys.
      rewrite (filter_ext _ (fun pg => Render.is_populated (Render.members pg partitions)))
        by (intros pg; now rewrite Hlookup).
      apply map_ext. intros pg. rewrite Hlookup. reflexivity.
    + apply List.NoDup_filter.
      apply (Permutation_NoDup (Permutation_sym (sorted_pgs_perm keys))).
      unfold keys, Render.collect. apply nodup_collect. constructor.
    + intros pg. rewrite filter_In. split.
      * intros [_ Hpop] Hnil. rewrite Hnil in Hpop. discriminate.
      * intros Hne. split.
        -- apply (Permutation_in _ (Permutation_sym (sorted_pgs_perm keys))).
           unfold keys, Render.collect. apply keys_collect. right.
           now apply members_in_group_ids.
        -- destruct (Render.members pg partitions); [congruence | reflexivity].
    + exact Hsorted.
    + intros before pg after Hids Hfalsy.
      rewrite Hids in Hsorted. apply sorted_prefix in Hsorted.
      assert (Hkey : Render.pg_sort_key pg = "").
      { destruct pg as [s|]; simpl in *; [|reflexivity].
        destruct (String.eqb_spec s ""); [assumption | discriminate]. }
      eapply List.Forall_impl; [|exact Hsorted].
      intros q Hq. unfold Render.pg_le in Hq. rewrite Hkey in Hq.
      apply leb_empty in Hq. destruct q as [s|]; simpl in *; [|reflexivity].
      subst s. reflexivity.
Qed.

(** Two partitions: an HTC array without placement group and an HPC
    array spread over the groups [pg1] and [pg0]. *)
Lemma topology_switch_lines_witness :
  let htc := {| Render.name := "htc"; Render.nodearray := "htc";
                Render.node_list := Some "htc-[1-2]";
                Render.node_list_by_pg := [ (None, [ "htc-1"; "htc-2" ]) ];
                Render.is_default := false; Render.is_hpc := false;
                Render.max_vm_count := 2; Render.max_scaleset_size := 2;
                Render.memory := 4096; Render.pcpu_count := 2;
                Render.vcpu_count := 4; Render.use_pcpu := true;
                Render.gpu_count := 0 |} in
  let hpc := {| Render.name := "hpc"; Render.nodearray := "hpc";
                Render.node_list := Some "hpc-[1-3]";
                Render.node_list_by_pg :=
                  [ (Some "pg1", [ "hpc-3" ]); (Some "pg0", [ "hpc-1"; "hpc-2" ]) ];
                Render.is_default := true; Render.is_hpc := true;
                Render.max_vm_count := 3; Render.max_scaleset_size := 2;
                Render.memory := 4096; Render.pcpu_count := 2;
                Render.vcpu_count := 4; Render.use_pcpu := true;
                Render.gpu_count := 0 |} in
  let out := [ "SwitchName=htc Nodes=htc-1,htc-2" ++ nl;
               "SwitchName=pg0 Nodes=hpc-1,hpc-2" ++ nl;
               "SwitchName=pg1 Nodes=hpc-3" ++ nl ] in
  Render._generate_topology (fun _ l => l) [ hpc; htc ] = inr out
  /\ exists ids : list (option string),
      List.NoDup ids
      /\ (forall pg, In pg ids <-> Render.members pg [ hpc; htc ] <> [])
      /\ StronglySorted
           (fun a b =>
              String.leb (Render.pg_sort_key a) (Render.pg_sort_key b) = true)
           ids.
Proof.
  intros htc hpc out.
  assert (Hrun : Render._generate_topology (fun _ l => l) [ hpc; htc ] = inr out)
    by (vm_compute; reflexivity).
  split; [exact Hrun|].
  destruct (proj2 (topology_switch_lines (fun _ l => l) [ hpc; htc ]) out Hrun)
    as (ids & _ & Hnd & Hmem & Hsorted & _).
  exists ids. repeat split; try assumption; apply Hmem.
Defined.

(** ** The convergence loop *)

Import Converge.

Lemma state_is_spec (n : Node) (s : string) :
  reflect (state n = Some s) (state_is n s).
Proof.
  unfold state_is. destruct (state n) as [t|]; [|constructor; discriminate].
  destruct (String.eqb_spec t s) as [->|Hne]; constructor; congruence.
Qed.

Lemma sum_values_empty : sum_values ∅ = 0.
Proof. unfold sum_values. now rewrite map_fold_empty. Qed.

Lemma sum_values_insert_fresh (d : gmap (option string) nat) (k : option string) (v : nat) :
  d !! k = None -> sum_values (<[k := v]> d) = v + sum_values d.
Proof.
  intros Hk. unfold sum_values.
  rewrite map_fold_insert_L; [reflexivity | | exact Hk].
  intros. lia.
Qed.

Lemma sum_values_bump (d : gmap (option string) nat) (k : option string) :
  sum_values (<[k := S (default 0 (d !! k))]> d) = S (sum_values d).
Proof.
  destruct (d !! k) as [old|] eqn:Hk; simpl.
  - rewrite <- (insert_delete_eq d).
    rewrite sum_values_insert_fresh by apply lookup_delete_eq.
    unfold sum_values at 2.
    rewrite (map_fold_delete_L _ _ k old d); [fold (sum_values (delete k d)); lia | | exact Hk].
    intros. lia.
  - now rewrite sum_values_insert_fresh.
Qed.

Lemma count_key_app (key : option string) (by_name : gmap string Node) (l1 l2 : list string) :
  count_key key by_name (l1 ++ l2)
  = count_key key by_name l1 + count_key key by_name l2.
Proof. unfold count_key. now rewrite List.filter_app, length_app. Qed.

Lemma count_with_app (d : disposition) (by_name : gmap string Node) (l1 l2 : list string) :
  count_with d by_name (l1 ++ l2)
  = count_with d by_name l1 + count_with d by_name l2.
Proof. unfold count_with, names_with. now rewrite List.filter_app, length_app. Qed.

Lemma count_key_one (key : option string) (by_name : gmap string Node) (name : string) :
  count_key key by_name [ name ]
  = if bool_decide (key_of by_name name = Some key) then 1 else 0.
Proof. unfold count_key. simpl. now destruct (bool_decide _). Qed.

Lemma count_with_one (d : disposition) (by_name : gmap string Node) (name : string) :
  count_with d by_name [ name ]
  = if bool_decide (disposition_of by_name name = d) then 1 else 0.
Proof. unfold count_with, names_with. simpl. now destruct (bool_decide _). Qed.

(** Incrementing a count that is not a dictionary. *)
Lemma increment_counts (states : gmap (option string) tally) (key : option string) (c : nat) :
  count_of states key = inr c ->
  exists states',
    increment states key = inr states'
    /\ count_of states' key = inr (S c)
    /\ forall other, other <> key -> states' !! other = states !! other.
Proof.
  unfold count_of, increment. intros H.
  destruct (states !! key) as [[n|d]|] eqn:E; try discriminate;
    injection H as <-; eexists; (split; [reflexivity|]); split;
    try (now rewrite lookup_insert_eq);
    intros other Hne; now rewrite lookup_insert_ne.
Qed.

Lemma count_key_snoc (by_name : gmap string Node) (seen : list string)
  (name : string) (o : option (option string)) (key : option string) :
  key_of by_name name = o ->
  count_key key by_name (seen ++ [ name ])
  = count_key key by_name seen + (if bool_decide (o = Some key) then 1 else 0).
Proof. intros <-. now rewrite count_key_app, count_key_one. Qed.

Lemma count_with_snoc (by_name : gmap string Node) (seen : list string)
  (name : string) (d0 d : disposition) :
  disposition_of by_name name = d0 ->
  count_with d by_name (seen ++ [ name ])
  = count_with d by_name seen + (if bool_decide (d0 = d) then 1 else 0).
Proof. intros <-. now rewrite count_with_app, count_with_one. Qed.

(** A key other than the one incremented keeps its count. *)
Lemma tally_keys_step (by_name : gmap string Node) (seen : list string)
  (name : string) (o : option (option string)) (st st' : gmap (option string) tally) :
  key_of by_name name = o ->
  (forall key, key <> Some "UNKNOWN" -> count_of st key = inr (count_key key by_name seen)) ->
  (forall key, key <> Some "UNKNOWN" -> o <> Some key -> st' !! key = st !! key) ->
  (forall key, key <> Some "UNKNOWN" -> o = Some key ->
               count_of st' key = inr (S (count_key key by_name seen))) ->
  forall key, key <> Some "UNKNOWN" ->
    count_of st' key = inr (count_key key by_name (seen ++ [ name ])).
Proof.
  intros Ho Hkeys Hsame Hnew key Hkey.
  rewrite (count_key_snoc _ _ _ _ _ Ho).
  destruct (decide (o = Some key)) as [He|Hne].
  - rewrite bool_decide_eq_true_2 by exact He. rewrite (Hnew key Hkey He). f_equal. lia.
  - rewrite bool_decide_eq_false_2 by exact Hne. rewrite Nat.add_0_r.
    unfold count_of. rewrite (Hsame key Hkey Hne). now apply Hkeys.
Qed.

Lemma visit_tally (by_name : gmap string Node) (seen : list string) (name : string) (pr : Progress) :
  tally_matches by_name (states pr) seen ->
  match visit by_name name pr with
  | inr pr' => tally_matches by_name (states pr') (seen ++ [ name ])
  | inl _ =>
      0 < count_key (Some "UNKNOWN") by_name (seen ++ [ name ])
      /\ 0 < count_with Transitioning by_name (seen ++ [ name ])
  end.
Proof.
  intros [Hkeys Hunk].
  unfold tally_matches, visit.
  destruct (by_name !! name) as [node|] eqn:Hn.
  2:{ assert (Hko : key_of by_name name = None) by (unfold key_of; now rewrite Hn).
      assert (Hdo : disposition_of by_name name = Missing)
        by (unfold disposition_of; now rewrite Hn).
      simpl. split.
      - apply (tally_keys_step _ _ _ _ _ _ Hko Hkeys); [reflexivity | discriminate].
      - rewrite (count_key_snoc _ _ _ _ _ Hko), (count_with_snoc _ _ _ _ _ Hdo).
        simpl. rewrite !Nat.add_0_r. exact Hunk. }
  destruct (is_failed node) eqn:Hf.
  - assert (Hko : key_of by_name name = Some (Some "Failed"))
      by (unfold key_of, tally_key; now rewrite Hn, Hf).
    assert (Hdo : disposition_of by_name name = Failed)
      by (unfold disposition_of, disposition_of_node; now rewrite Hn, Hf).
    destruct (increment_counts (states pr) (Some "Failed") _ (Hkeys (Some "Failed") ltac:(discriminate)))
      as (st' & Hinc & Hnew & Hsame).
    rewrite Hinc. simpl. split.
    + apply (tally_keys_step _ _ _ _ _ _ Hko Hkeys).
      * intros key _ Hne. apply Hsame. congruence.
      * intros key _ [= <-]. exact Hnew.
    + rewrite Hsame by discriminate.
      rewrite (count_key_snoc _ _ _ _ _ Hko), (count_with_snoc _ _ _ _ _ Hdo).
      simpl. rewrite !Nat.add_0_r. exact Hunk.
  - destruct (negb (String.eqb (target_state node) "Started")) eqn:Ht.
    + assert (Hko : key_of by_name name = None)
        by (unfold key_of, tally_key; now rewrite Hn, Hf, Ht).
      assert (Hdo : disposition_of by_name name = Transitioning)
        by (unfold disposition_of, disposition_of_node; now rewrite Hn, Hf, Ht).
      rewrite (count_key_snoc _ _ _ _ _ Hko), (count_with_snoc _ _ _ _ _ Hdo).
      simpl. unfold increment_unknown.
      destruct (states pr !! Some "UNKNOWN") as [[n|d]|] eqn:Hu; simpl.
      * destruct Hunk as (Hn1 & Hn2 & Hn3). lia.
      * rewrite lookup_insert_eq. destruct Hunk as (Hu1 & Hu2 & Hu3). split.
        -- apply (tally_keys_step _ _ _ _ _ _ Hko Hkeys); [|discriminate].
           intros key Hkey _. now rewrite lookup_insert_ne by congruence.
        -- rewrite sum_values_bump. lia.
      * rewrite lookup_insert_eq. destruct Hunk as (Hu1 & Hu2). split.
        -- apply (tally_keys_step _ _ _ _ _ _ Hko Hkeys); [|discriminate].
           intros key Hkey _. now rewrite lookup_insert_ne by congruence.
        -- rewrite <- insert_empty, sum_values_insert_fresh, sum_values_empty
             by apply lookup_empty. lia.
    + set (label := if state_is node "Ready" && negb (has_address node)
                    then Some "WaitingOnIPAddress" else state node).
      assert (Hko : key_of by_name name = Some label).
      { unfold key_of, tally_key, label. rewrite Hn, Hf, Ht.
        now destruct (state_is node "Ready" && negb (has_address node)). }
      assert (Hdo : disposition_of by_name name <> Transitioning).
      { unfold disposition_of, disposition_of_node. rewrite Hn, Hf, Ht.
        destruct (state_is node "Ready"), (has_address node);
          intros HH; inversion HH. }
      rewrite (count_key_snoc _ _ _ _ _ Hko), (count_with_snoc _ _ _ _ _ eq_refl).
      rewrite (bool_decide_eq_false_2 _ Hdo).
      simpl.
      destruct (decide (label = Some "UNKNOWN")) as [Hl|Hl].
      * rewrite Hl in *.
        rewrite (bool_decide_eq_true_2
                   (Some (Some "UNKNOWN") = Some (Some "UNKNOWN")) eq_refl).
        unfold increment.
        destruct (states pr !! Some "UNKNOWN") as [[n|d]|] eqn:Hu; simpl.
        -- rewrite lookup_insert_eq. destruct Hunk as (Hn1 & Hn2 & Hn3). split; [|lia].
           apply (tally_keys_step _ _ _ _ _ _ Hko Hkeys); [|congruence].
           intros key Hkey _. now rewrite lookup_insert_ne by congruence.
        -- destruct Hunk as (Hu1 & Hu2 & Hu3). lia.
        -- rewrite lookup_insert_eq. destruct Hunk as (Hu1 & Hu2). split; [|lia].
           apply (tally_keys_step _ _ _ _ _ _ Hko Hkeys); [|congruence].
           intros key Hkey _. now rewrite lookup_insert_ne by congruence.
      * destruct (increment_counts (states pr) label _ (Hkeys label Hl))
          as (st' & Hinc & Hnew & Hsame).
        rewrite Hinc. simpl. split.
        -- apply (tally_keys_step _ _ _ _ _ _ Hko Hkeys).
           ++ intros key _ Hne. apply Hsame. congruence.
           ++ intros key _ [= <-]. exact Hnew.
        -- rewrite Hsame by congruence.
           rewrite (bool_decide_eq_false_2 (Some label = Some (Some "UNKNOWN")))
             by congruence.
           rewrite !Nat.add_0_r. exact Hunk.
Qed.

Lemma visit_all_tally (by_name : gmap string Node) (node_list : list string) :
  forall (seen : list string) (pr : Progress),
    tally_matches by_name (states pr) seen ->
    match visit_all by_name node_list pr with
    | inr pr' => tally_matches by_name (states pr') (seen ++ node_list)
    | inl _ =>
        0 < count_key (Some "UNKNOWN") by_name (seen ++ node_list)
        /\ 0 < count_with Transitioning by_name (seen ++ node_list)
    end.
Proof.
  induction node_list as [|name rest IH]; intros seen pr Hinv; simpl.
  - now rewrite app_nil_r.
  - pose proof (visit_tally by_name seen name pr Hinv) as Hstep.
    replace (seen ++ name :: rest)%list with ((seen ++ [ name ]) ++ rest)%list
      by now rewrite <- List.app_assoc.
    destruct (visit by_name name pr) as [e|pr1]; simpl.
    + rewrite count_key_app, count_with_app. lia.
    + now apply IH.
Qed.

Lemma tally_matches_start (by_name : gmap string Node) (failed : gset string) :
  tally_matches by_name (states (start_of_cycle failed)) [].
Proof. split; [intros key _; reflexivity | simpl; rewrite lookup_empty; split; reflexivity]. Qed.

Lemma visit_fields (by_name : gmap string Node) (name : string) (pr pr' : Progress) :
  visit by_name name pr = inr pr' ->
  map fst (relevant_nodes pr')
  = (map fst (relevant_nodes pr) ++ present by_name [ name ])%list
  /\ ready_nodes pr' = (ready_nodes pr ++ ready_pairs by_name [ name ])%list
  /\ failed_node_names pr'
     = failed_node_names pr ∪ list_to_set (names_with Failed by_name [ name ])
  /\ (forall x, In x (newly_failed_node_names pr')
                <-> In x (newly_failed_node_names pr)
                    \/ (In x (names_with Failed by_name [ name ])
                        /\ x ∉ failed_node_names pr)).
Proof.
  unfold visit, present, ready_pairs, names_with, disposition_of. simpl.
  destruct (by_name !! name) as [node|] eqn:Hn; simpl.
  2:{ intros [= <-]. simpl. rewrite !app_nil_r.
      repeat split; try reflexivity; try set_solver; try (intros; simpl in *; tauto). }
  unfold disposition_of_node.
  destruct (is_failed node) eqn:Hf.
  - destruct (increment (states pr) (Some "Failed")); simpl; [discriminate|].
    intros [= <-]. simpl. rewrite map_app, app_nil_r. simpl.
    split; [reflexivity|]. split; [reflexivity|].
    destruct (decide (name ∈ failed_node_names pr)) as [Hin|Hnotin].
    + rewrite (bool_decide_eq_true_2 _ Hin). simpl. split; [set_solver|].
      intros x. split; [now left|]. intros [H|[[<-|[]] H]]; [exact H | contradiction].
    + rewrite (bool_decide_eq_false_2 _ Hnotin). simpl. split; [set_solver|].
      intros x. rewrite in_app_iff. simpl. split.
      * intros [H|[<-|[]]]; [now left | right; split; [now left | exact Hnotin]].
      * intros [H|[[<-|[]] H]]; [now left | right; now left].
  - destruct (negb (String.eqb (target_state node) "Started")) eqn:Ht; simpl.
    + destruct (increment_unknown (states pr) (state node)); simpl; [discriminate|].
      intros [= <-]. simpl. rewrite map_app, !app_nil_r. simpl.
      repeat split; try reflexivity; try set_solver; try (intros; simpl in *; tauto).
    + destruct (increment (states pr) _); simpl; [discriminate|].
      intros [= <-]. simpl. rewrite map_app. simpl.
      destruct (state_is node "Ready"), (has_address node); simpl;
        rewrite ?app_nil_r;
        repeat split; try reflexivity; try set_solver; try (intros; simpl in *; tauto).
Qed.

Lemma visit_all_fields (by_name : gmap string Node) (node_list : list string) :
  forall pr pr' : Progress,
    visit_all by_name node_list pr = inr pr' ->
    map fst (relevant_nodes pr')
    = (map fst (relevant_nodes pr) ++ present by_name node_list)%list
    /\ ready_nodes pr' = (ready_nodes pr ++ ready_pairs by_name node_list)%list
    /\ failed_node_names pr'
       = failed_node_names pr ∪ list_to_set (names_with Failed by_name node_list)
    /\ (forall x, In x (newly_failed_node_names pr')
                  <-> In x (newly_failed_node_names pr)
                      \/ (In x (names_with Failed by_name node_list)
                          /\ x ∉ failed_node_names pr)).
Proof.
  induction node_list as [|name rest IH]; intros pr pr' Hrun; simpl in Hrun.
  - injection Hrun as <-. unfold present, ready_pairs, names_with. simpl.
    rewrite !app_nil_r. repeat split; try reflexivity; try set_solver;
      try (intros; simpl in *; tauto).
  - destruct (visit by_name name pr) as [e|pr1] eqn:Hv; simpl in Hrun; [discriminate|].
    destruct (visit_fields _ _ _ _ Hv) as (Hr1 & Hy1 & Hf1 & Hn1).
    destruct (IH _ _ Hrun) as (Hr2 & Hy2 & Hf2 & Hn2).
    change (name :: rest) with ([ name ] ++ rest)%list.
    unfold present, ready_pairs, names_with in *.
    rewrite !List.filter_app, flat_map_app.
    split; [rewrite Hr2, Hr1; now rewrite <- List.app_assoc|].
    split; [rewrite Hy2, Hy1; now rewrite <- List.app_assoc|].
    split; [rewrite Hf2, Hf1, list_to_set_app_L; set_solver|].
    intros x. rewrite Hn2, Hn1, Hf1, in_app_iff.
    rewrite elem_of_union, elem_of_list_to_set, list_elem_of_In.
    destruct (in_dec string_dec x
                (List.filter
                   (fun name0 => bool_decide (disposition_of by_name name0 = Failed))
                   [ name ])); tauto.
Qed.

(** How the keys of [states] relate to the dispositions. *)
Lemma key_ready (by_name : gmap string Node) (name : string) :
  bool_decide (key_of by_name name = Some (Some "Ready"))
  = bool_decide (disposition_of by_name name = Ready).
Proof.
  apply bool_decide_ext. unfold key_of, disposition_of, tally_key, disposition_of_node.
  destruct (by_name !! name) as [node|]; [|split; discriminate].
  destruct (is_failed node); [split; discriminate|].
  destruct (negb _); [split; discriminate|].
  destruct (state_is_spec node "Ready") as [He|Hne];
    destruct (has_address node); simpl; split; try discriminate; try congruence.
Qed.

Lemma key_failed (by_name : gmap string Node) (name : string) :
  bool_decide (key_of by_name name = Some (Some "Failed"))
  = bool_decide (disposition_of by_name name = Failed).
Proof.
  apply bool_decide_ext. unfold key_of, disposition_of, tally_key, disposition_of_node.
  destruct (by_name !! name) as [node|]; [|split; discriminate].
  destruct (is_failed node) eqn:Hf; [split; reflexivity|].
  assert (Hstate : state node <> Some "Failed").
  { intros He. unfold is_failed in Hf. rewrite He in Hf. discriminate. }
  destruct (negb _); [split; discriminate|].
  destruct (state_is node "Ready"), (has_address node); simpl;
    split; try discriminate; congruence.
Qed.


Lemma count_key_ready (by_name : gmap string Node) (l : list string) :
  count_key (Some "Ready") by_name l = count_with Ready by_name l.
Proof.
  unfold count_key, count_with, names_with. f_equal.
  apply filter_ext. intros name. apply key_ready.
Qed.

Lemma count_key_failed (by_name : gmap string Node) (l : list string) :
  count_key (Some "Failed") by_name l = count_with Failed by_name l.
Proof.
  unfold count_key, count_with, names_with. f_equal.
  apply filter_ext. intros name. apply key_failed.
Qed.




(** *** The two command blocks *)



(** The second block never changes the failed set: a recovered name is
    in the set, and removing it raises. *)
Lemma mark_idle_keeps_failed (check_output : list string -> exn + string)
  (names : list string) (failed : gset string) :
  snd (fst (mark_idle check_output names failed)) = failed.
Proof.
  induction names as [|n rest IH]; simpl; [reflexivity|].
  destruct (check_output (idle_cmd n)); [reflexivity|].
  destruct (bool_decide (n ∈ failed)); simpl; [reflexivity|].
  destruct (mark_idle check_output rest failed) as [[r f] t]. exact IH.
Qed.

Lemma report_recoveries_keeps_failed (iteration : gset string -> list string)
  (check_output : list string -> exn + string) (pr : Progress) :
  fst (report_recoveries iteration check_output pr) = failed_node_names pr.
Proof.
  unfold report_recoveries.
  destruct (bool_decide (recovered_node_names pr = ∅)); [reflexivity|].
  pose proof (mark_idle_keeps_failed check_output
                (iteration (recovered_node_names pr)) (failed_node_names pr)) as H.
  destruct (mark_idle check_output (iteration (recovered_node_names pr))
              (failed_node_names pr)) as [[r f] t].
  exact H.
Qed.

(** *** The log message *)

Lemma keys_named_start (failed : gset string) :
  keys_named (states (start_of_cycle failed)).
Proof. split; [reflexivity | intros d H; simpl in H; discriminate]. Qed.

Lemma visit_keys_named (by_name : gmap string Node) (name : string)
  (pr pr' : Progress) :
  (forall node, by_name !! name = Some node -> state node <> None) ->
  visit by_name name pr = inr pr' ->
  keys_named (states pr) -> keys_named (states pr').
Proof.
  intros Hstate. unfold visit.
  destruct (by_name !! name) as [node|]; [|intros [= <-]; auto].
  specialize (Hstate node eq_refl).
  destruct (is_failed node).
  - unfold increment.
    destruct (states pr !! Some "Failed") as [[n|d]|]; simpl; try discriminate;
      intros [= <-] [Hnone Hsub]; simpl;
      (split; [now rewrite lookup_insert_ne by discriminate|]);
      intros d'; rewrite lookup_insert_ne by discriminate; apply Hsub.
  - destruct (negb _).
    + unfold increment_unknown.
      destruct (states pr !! Some "UNKNOWN") as [[n|d]|] eqn:Hu; simpl;
        try discriminate; intros [= <-] [Hnone Hsub]; simpl;
        (split; [now rewrite lookup_insert_ne by discriminate|]);
        intros d'; rewrite lookup_insert_eq; intros [= <-].
      * rewrite lookup_insert_ne by congruence. now apply Hsub.
      * rewrite lookup_singleton_ne by congruence. reflexivity.
    + set (label := if state_is node "Ready" && negb (has_address node)
                    then Some "WaitingOnIPAddress" else state node).
      assert (Hlabel : label <> None).
      { unfold label. destruct (state_is node "Ready" && negb (has_address node));
          [discriminate | exact Hstate]. }
      unfold increment.
      destruct (states pr !! label) as [[n|d]|]; simpl; try discriminate;
        intros [= <-] [Hnone Hsub]; simpl;
        (split; [now rewrite lookup_insert_ne by congruence|]);
        intros d';
        (destruct (decide (label = Some "UNKNOWN")) as [->|Hne];
         [rewrite lookup_insert_eq; discriminate
         |rewrite lookup_insert_ne by exact Hne; apply Hsub]).
Qed.

Lemma visit_all_keys_named (by_name : gmap string Node) (node_list : list string) :
  forall pr pr' : Progress,
    all_report_state by_name node_list ->
    visit_all by_name node_list pr = inr pr' ->
    keys_named (states pr) -> keys_named (states pr').
Proof.
  induction node_list as [|name rest IH]; intros pr pr' Hall Hrun Hnamed;
    simpl in Hrun.
  - now injection Hrun as <-.
  - destruct (visit by_name name pr) as [e|pr1] eqn:Hv; simpl in Hrun; [discriminate|].
    apply (IH pr1 pr'); [|exact Hrun|].
    + intros n node Hin. apply Hall. now right.
    + apply (visit_keys_named by_name name pr pr1); [|exact Hv|exact Hnamed].
      intros node. apply Hall. now left.
Qed.

(** With every key a string, and the counts added up, the log block is
    silent. *)
Lemma log_states_named (pr : Progress) (previous : gmap (option string) tally)
  (n : nat) :
  keys_named (states pr) -> terminal_states (states pr) = inr n ->
  log_states pr previous = inr tt.
Proof.
  intros [Hnone Hsub] Hsum. unfold log_states.
  destruct (bool_decide (states pr = previous)); [reflexivity|].
  unfold sort_keys at 1. rewrite Hnone. simpl.
  unfold terminal_states, sum_unknown in Hsum.
  destruct (states pr !! Some "UNKNOWN") as [[m|d]|]; [discriminate| |reflexivity].
  unfold sort_keys. now rewrite (Hsub d eq_refl).
Qed.

(** *** One poll cycle *)

Lemma relevant_length (by_name : gmap string Node) (node_list : list string)
  (failed : gset string) (pr : Progress) :
  visit_all by_name node_list (start_of_cycle failed) = inr pr ->
  length (relevant_nodes pr) = length (present by_name node_list).
Proof.
  intros Hrun. destruct (visit_all_fields _ _ _ _ Hrun) as (Hrel & _).
  simpl in Hrel. rewrite <- Hrel. now rewrite length_map.
Qed.

Lemma visit_all_returns (by_name : gmap string Node) (node_list : list string)
  (failed : gset string) :
  count_key (Some "UNKNOWN") by_name node_list = 0
  \/ count_with Transitioning by_name node_list = 0 ->
  exists pr, visit_all by_name node_list (start_of_cycle failed) = inr pr.
Proof.
  intros Hfree.
  pose proof (visit_all_tally by_name node_list [] _ (tally_matches_start by_name failed)) as H.
  simpl in H.
  destruct (visit_all by_name node_list (start_of_cycle failed)) as [e|pr];
    [lia | now exists pr].
Qed.

Lemma terminal_states_counted (by_name : gmap string Node) (node_list : list string)
  (states : gmap (option string) tally) :
  tally_matches by_name states node_list ->
  (count_key (Some "UNKNOWN") by_name node_list = 0 ->
   terminal_states states
   = inr (count_with Ready by_name node_list
          + count_with Transitioning by_name node_list
          + count_with Failed by_name node_list))
  /\ (0 < count_key (Some "UNKNOWN") by_name node_list -> raised (terminal_states states)).
Proof.
  intros [Hkeys Hunk]. unfold terminal_states, sum_unknown.
  pose proof (Hkeys (Some "Ready") ltac:(discriminate)) as Hr.
  pose proof (Hkeys (Some "Failed") ltac:(discriminate)) as Hf.
  rewrite count_key_ready in Hr. rewrite count_key_failed in Hf.
  destruct (states !! Some "UNKNOWN") as [[n|d]|]; simpl.
  - split; [lia | intros _; exact I].
  - rewrite Hr, Hf. simpl. split; [intros _; f_equal; lia | lia].
  - rewrite Hr, Hf. simpl. split; [intros _; f_equal; lia | lia].
Qed.

(** A cycle whose inventory fetch succeeds: unless a requested node with
    target state ["Started"] reports the lifecycle state ["UNKNOWN"], the
    pass and the two command blocks complete; the cycle then raises what
    the log block raises, which is nothing when every requested node
    reports a state; when the log block is silent the cycle asks to
    leave the loop exactly when the settled nodes make up all requested
    nodes present in the inventory. *)
Lemma poll_fetched (node_list : list string) (c : Cycle) (failed : gset string)
  (previous : gmap (option string) tally)
  (by_name : gmap string Node) (slept : list event) :
  Retry._retry_rest (get_nodes c) 5 = (inr by_name, slept) ->
  (count_key (Some "UNKNOWN") by_name node_list = 0 ->
   exists pr : Progress,
     visit_all by_name node_list (start_of_cycle failed) = inr pr
     /\ poll node_list c failed previous
        = (match log_states pr previous with
           | inl e => inl e
           | inr _ =>
               inr {| converged :=
                        Nat.eqb (settled by_name node_list)
                          (length (present by_name node_list));
                      ready := ready_pairs by_name node_list;
                      Converge.failed := failed_node_names pr;
                      observed := states pr |}
           end,
           (slept ++ report_failures (iteration c) (check_output c) pr
              ++ snd (report_recoveries (iteration c) (check_output c) pr))%list)
     /\ (all_report_state by_name node_list -> log_states pr previous = inr tt))
  /\ (0 < count_key (Some "UNKNOWN") by_name node_list ->
      exists e t, poll node_list c failed previous = (inl e, t)).
Proof.
  intros Hfetch. unfold poll. rewrite Hfetch.
  pose proof (visit_all_tally by_name node_list [] _ (tally_matches_start by_name failed)) as H.
  simpl in H.
  destruct (visit_all by_name node_list (start_of_cycle failed)) as [e|pr] eqn:Hrun.
  - split; [lia | intros _; now exists e, slept].
  - destruct (terminal_states_counted by_name node_list (states pr) H) as [Hok Hbad].
    pose proof (report_recoveries_keeps_failed (iteration c) (check_output c) pr) as Hkeep.
    destruct (report_recoveries (iteration c) (check_output c) pr)
      as [failed' idles] eqn:Hrec.
    simpl in Hkeep. subst failed'.
    destruct (visit_all_fields _ _ _ _ Hrun) as (_ & Hready & _).
    simpl in Hready.
    split.
    + intros Hfree. exists pr. split; [reflexivity|].
      rewrite ?Hrec, (Hok Hfree), (relevant_length _ _ _ _ Hrun), Hready.
      cbn [snd].
      replace (count_with Ready by_name node_list
               + count_with Transitioning by_name node_list
               + count_with Failed by_name node_list)
        with (settled by_name node_list) by (unfold settled; lia).
      split; [now destruct (log_states pr previous)|].
      intros Hall. eapply log_states_named; [|exact (Hok Hfree)].
      exact (visit_all_keys_named by_name node_list _ pr Hall Hrun
               (keys_named_start failed)).
    + intros Hclash. specialize (Hbad Hclash).
      destruct (terminal_states (states pr)) as [e|n]; [|contradiction].
      now eexists _, _.
Qed.

(** *** Ready nodes *)

Lemma disposition_ready_iff (n : Node) :
  disposition_of_node n = Ready
  <-> target_state n = "Started" /\ state n = Some "Ready" /\ has_address n = true.
Proof.
  unfold disposition_of_node. split.
  - destruct (is_failed n); [discriminate|].
    destruct (String.eqb_spec (target_state n) "Started"); simpl; [|discriminate].
    destruct (state_is_spec n "Ready"); [|discriminate].
    destruct (has_address n); [auto | discriminate].
  - intros (Ht & Hs & Ha). unfold is_failed, state_is.
    rewrite Hs, Ht, Ha. reflexivity.
Qed.

Lemma disposition_waiting_iff (n : Node) :
  disposition_of_node n = WaitingOnAddress
  <-> target_state n = "Started" /\ state n = Some "Ready" /\ has_address n = false.
Proof.
  unfold disposition_of_node. split.
  - destruct (is_failed n); [discriminate|].
    destruct (String.eqb_spec (target_state n) "Started"); simpl; [|discriminate].
    destruct (state_is_spec n "Ready"); [|discriminate].
    destruct (has_address n); [discriminate | auto].
  - intros (Ht & Hs & Ha). unfold is_failed, state_is.
    rewrite Hs, Ht, Ha. reflexivity.
Qed.

Lemma in_ready_pairs (by_name : gmap string Node) (node_list : list string)
  (name : string) (node : Node) :
  In (name, node) (ready_pairs by_name node_list)
  <-> In name node_list /\ by_name !! name = Some node
      /\ disposition_of_node node = Ready.
Proof.
  unfold ready_pairs. rewrite in_flat_map. split.
  - intros (x & Hx & Hin).
    destruct (by_name !! x) as [n|] eqn:Hn; [|destruct Hin].
    destruct (decide (disposition_of_node n = Ready)) as [Hd|Hd].
    + rewrite (bool_decide_eq_true_2 _ Hd) in Hin.
      destruct Hin as [[= <- <-]|[]]. auto.
    + rewrite (bool_decide_eq_false_2 _ Hd) in Hin. destruct Hin.
  - intros (Hin & Hn & Hd). exists name. split; [exact Hin|].
    rewrite Hn, (bool_decide_eq_true_2 _ Hd). now left.
Qed.

Lemma ready_pairs_names (by_name : gmap string Node) (node_list : list string) :
  map fst (ready_pairs by_name node_list) = names_with Ready by_name node_list.
Proof.
  unfold ready_pairs, names_with, disposition_of.
  induction node_list as [|name rest IH]; simpl; [reflexivity|].
  rewrite map_app, IH.
  destruct (by_name !! name) as [n|]; [|reflexivity].
  destruct (bool_decide (disposition_of_node n = Ready)); reflexivity.
Qed.

Lemma count_key_positive (key : option string) (by_name : gmap string Node)
  (node_list : list string) (name : string) :
  In name node_list -> key_of by_name name = Some key ->
  0 < count_key key by_name node_list.
Proof.
  intros Hin Hkey. unfold count_key.
  assert (Hf : In name (List.filter
                          (fun name => bool_decide (key_of by_name name = Some key))
                          node_list))
    by (apply filter_In; split; [exact Hin | now apply bool_decide_eq_true_2]).
  destruct (List.filter _ node_list); [destruct Hf | simpl; lia].
Qed.

(** C4.  Whenever the pass over the requested names completes, the ready
    list holds exactly the requested names found in the inventory with
    target state [Started], state [Ready] and a private address, in
    request order, and the [Ready] count is its length; a node declared
    ready without an address is counted under [WaitingOnIPAddress]
    instead; so with no address at all the ready list is empty.  The
    pass completes unless the inventory holds both a transitioning node
    and a started node whose state is the text [UNKNOWN]. *)
Theorem ready_needs_started_ready_address
  (by_name : gmap string Node) (node_list : list string) (failed : gset string) :
  (forall pr : Progress,
      visit_all by_name node_list (start_of_cycle failed) = inr pr ->
      map fst (ready_nodes pr) = names_with Ready by_name node_list
      /\ (forall name node,
             In (name, node) (ready_nodes pr)
             <-> In name node_list /\ by_name !! name = Some node
                 /\ target_state node = "Started" /\ state node = Some "Ready"
                 /\ has_address node = true)
      /\ count_of (states pr) (Some "Ready") = inr (length (ready_nodes pr))
      /\ (forall name node,
             In name node_list -> by_name !! name = Some node ->
             target_state node = "Started" -> state node = Some "Ready" ->
             has_address node = false ->
             ~ In (name, node) (ready_nodes pr)
             /\ exists n, count_of (states pr) (Some "WaitingOnIPAddress") = inr (S n))
      /\ ((forall name node,
              In name node_list -> by_name !! name = Some node ->
              has_address node = false) ->
          ready_nodes pr = []))
  /\ (count_key (Some "UNKNOWN") by_name node_list = 0
      \/ count_with Transitioning by_name node_list = 0 ->
      exists pr, visit_all by_name node_list (start_of_cycle failed) = inr pr).
Proof.
  split; [|apply visit_all_returns].
  intros pr Hrun.
  destruct (visit_all_fields _ _ _ _ Hrun) as (_ & Hready & _). simpl in Hready.
  pose proof (visit_all_tally by_name node_list [] _ (tally_matches_start by_name failed)) as Hinv.
  rewrite Hrun in Hinv. simpl in Hinv. destruct Hinv as [Hkeys _].
  rewrite Hready.
  assert (Hiff : forall name node,
             In (name, node) (ready_pairs by_name node_list)
             <-> In name node_list /\ by_name !! name = Some node
                 /\ target_state node = "Started" /\ state node = Some "Ready"
                 /\ has_address node = true)
    by (intros; now rewrite in_ready_pairs, disposition_ready_iff).
  split; [apply ready_pairs_names|]. split; [exact Hiff|]. split; [|split].
  - rewrite (Hkeys (Some "Ready")) by discriminate.
    rewrite count_key_ready. unfold count_with.
    now rewrite <- ready_pairs_names, length_map.
  - intros name node Hin Hn Ht Hs Ha. split.
    + rewrite Hiff. intros (_ & Hn' & _ & _ & Ha'). congruence.
    + rewrite (Hkeys (Some "WaitingOnIPAddress")) by discriminate.
      assert (Hpos : 0 < count_key (Some "WaitingOnIPAddress") by_name node_list).
      { apply (count_key_positive _ _ _ name Hin).
        unfold key_of, tally_key, is_failed, state_is.
        rewrite Hn, Hs, Ht, Ha. reflexivity. }
      exists (count_key (Some "WaitingOnIPAddress") by_name node_list - 1). f_equal. lia.
  - intros Hnone.
    destruct (ready_pairs by_name node_list) as [|[name node] l] eqn:E; [reflexivity|].
    destruct (proj1 (Hiff name node) (or_introl eq_refl)) as (Hin & Hn & _ & _ & Ha).
    rewrite (Hnone name node Hin Hn) in Ha. discriminate.
Qed.

(** The nodes [hpc-1], [hpc-2] and [htc-1], all started and declared
    ready, of which only [hpc-2] has an address. *)
Lemma ready_needs_started_ready_address_witness :
  let waiting := {| state := Some "Ready"; target_state := "Started";
                    private_ip := None; hostname := None |} in
  let usable := {| state := Some "Ready"; target_state := "Started";
                   private_ip := Some "10.1.0.3"; hostname := Some "hpc-2" |} in
  let by_name : gmap string Node :=
    <["hpc-1" := waiting]> (<["hpc-2" := usable]> (<["htc-1" := waiting]> ∅)) in
  exists pr,
    visit_all by_name [ "hpc-1"; "hpc-2"; "htc-1" ] (start_of_cycle ∅) = inr pr
    /\ map fst (ready_nodes pr) = [ "hpc-2" ].
Proof.
  intros waiting usable by_name.
  destruct (proj2 (ready_needs_started_ready_address by_name
                     [ "hpc-1"; "hpc-2"; "htc-1" ] ∅)) as [pr Hrun].
  { left. vm_compute. reflexivity. }
  exists pr. split; [exact Hrun|].
  rewrite (proj1 (proj1 (ready_needs_started_ready_address by_name
                           [ "hpc-1"; "hpc-2"; "htc-1" ] ∅) pr Hrun)).
  vm_compute. reflexivity.
Defined.

(** *** Leaving the loop *)








(** *** The failed set across cycles *)

(** C1, at the failing input.  Two requested nodes; [n2] keeps
    provisioning, [n1] fails in the first cycle and is back to
    provisioning in the second and third; the fourth clock reading is
    past the deadline.  The idle command for [n1] is issued in the
    second cycle and again in the third, and [n1] is still in the failed
    set when the loop is left. *)
Theorem recovered_node_is_marked_idle_again :
  let node st := {| state := Some st; target_state := "Started";
                    private_ip := None; hostname := None |} in
  let cycle t st1 :=
    {| now := t;
       get_nodes := fun _ =>
         inr (<["n1" := node st1]> (<["n2" := node "Acquiring"]> ∅));
       check_output := fun _ => inr "";
       iteration := elements |} in
  _wait_for_resume (fun _ => true) (fun _ => inr "") 0
    [ cycle 1%Z "Failed"; cycle 6%Z "Acquiring"; cycle 11%Z "Acquiring";
      cycle 4000%Z "Acquiring" ]
    [ "n1"; "n2" ]
  = Exited [] {[ "n1" ]}
      [ Cmd (down_cmd "n1"); Sleep 5;
        Cmd (idle_cmd "n1"); Sleep 5;
        Cmd (idle_cmd "n1"); Sleep 5 ].
Proof. vm_compute. reflexivity. Qed.





(** * Further properties *)

(** ** The retry helpers, continued *)

Lemma first_success {A : Type} (func : nat -> exn + A) (n : nat) :
  (forall i, (i < n)%nat -> raised (func i))
  \/ exists (k : nat) (v : A),
      (k < n)%nat /\ func k = inr v /\ forall i, (i < k)%nat -> raised (func i).
Proof.
  induction n as [|n IH].
  - left. intros i Hi. lia.
  - destruct IH as [Hall|(k & v & Hk & Hv & Hbefore)].
    + destruct (func n) as [e|v] eqn:Hn.
      * left. intros i Hi. destruct (Nat.eq_dec i n) as [->|Hne].
        -- now rewrite Hn.
        -- apply Hall. lia.
      * right. exists n, v. repeat split; [lia | exact Hn | exact Hall].
    + right. exists k, v. repeat split; [lia | exact Hv | exact Hbefore].
Qed.

Lemma total_sleep_app (t1 t2 : list event) :
  Observe.total_sleep (t1 ++ t2) = (Observe.total_sleep t1 + Observe.total_sleep t2)%Z.
Proof.
  induction t1 as [|e t1 IH]; simpl; [reflexivity|].
  destruct e; rewrite IH; lia.
Qed.

Lemma total_sleep_backoff (k : nat) :
  (6 * Observe.total_sleep (Retry.backoff k)
   = Z.of_nat k * (Z.of_nat k + 1) * (2 * Z.of_nat k + 1))%Z.
Proof.
  unfold Retry.backoff. induction k as [|k IH]; [reflexivity|].
  rewrite seq_S, map_app, total_sleep_app. simpl. nia.
Qed.

(** X1.  The sleeps of a retried call add up to at most
    n(n+1)(2n+1)/6 seconds, where n = max(1, attempts), and to exactly
    that much when the helper raises: 55 seconds for the default five
    attempts. *)
Theorem retry_total_sleep (A : Type) (func : nat -> exn + A) (attempts : Z) :
  let n := Z.max 1 attempts in
  (6 * Observe.total_sleep (snd (Retry._retry_rest func attempts))
   <= n * (n + 1) * (2 * n + 1))%Z
  /\ (raised (fst (Retry._retry_rest func attempts)) ->
      (6 * Observe.total_sleep (snd (Retry._retry_rest func attempts))
       = n * (n + 1) * (2 * n + 1))%Z).
Proof.
  intros n.
  destruct (first_success func (Z.to_nat n)) as [Hall|(k & v & Hk & Hv & Hbefore)].
  - assert (Hlast : exists e, func (Z.to_nat n - 1)%nat = inl e).
    { pose proof (Hall (Z.to_nat n - 1)%nat ltac:(unfold n; lia)) as H.
      destruct (func (Z.to_nat n - 1)%nat) as [e|v]; [now exists e | destruct H]. }
    destruct Hlast as [e He].
    rewrite (retry_rest_exhausted func attempts e Hall He). simpl.
    rewrite total_sleep_backoff. fold n.
    rewrite Z2Nat.id by (unfold n; lia). split; [lia | reflexivity].
  - rewrite (retry_rest_succeeds func attempts k v Hk Hbefore Hv). simpl.
    rewrite total_sleep_backoff. split; [|intros []].
    assert (Hkn : (0 <= Z.of_nat k < n)%Z) by (subst n; lia).
    apply Z.mul_le_mono_nonneg; [nia | nia | lia | lia].
Qed.

(** An operation that never succeeds, retried five times. *)
Lemma retry_total_sleep_witness :
  Observe.total_sleep
    (snd (Retry._retry_rest (fun _ => inl (Exn ExternalError "down") : exn + nat) 5))
  = 55%Z.
Proof.
  pose proof (proj2 (retry_total_sleep nat (fun _ => inl (Exn ExternalError "down")) 5) I)
    as H.
  vm_compute in H |- *. reflexivity.
Defined.

Lemma attempt_loop_ext {A : Type} (f g : nat -> exn + A) (numbers : list Z) :
  forall calls last slept,
    (forall i, (i < length numbers)%nat -> f (calls + i)%nat = g (calls + i)%nat) ->
    Retry.attempt_loop f numbers calls last slept
    = Retry.attempt_loop g numbers calls last slept.
Proof.
  induction numbers as [|a rest IH]; intros calls last slept Hsame; simpl;
    [reflexivity|].
  pose proof (Hsame 0%nat ltac:(simpl; lia)) as H0. rewrite Nat.add_0_r in H0.
  rewrite <- H0. destruct (f calls) as [e|v]; [|reflexivity].
  apply IH. intros i Hi.
  replace (S calls + i)%nat with (calls + S i)%nat by lia.
  apply Hsame. simpl. lia.
Qed.

(** X2.  The helpers call the operation at most max(1, attempts) times:
    what two operations do from their (n+1)-th call on makes no
    difference to the result or to the sleeps. *)
Theorem retry_calls_bounded (A : Type) (f g : nat -> exn + A) (attempts : Z) :
  (forall i, (i < Z.to_nat (Z.max 1 attempts))%nat -> f i = g i) ->
  Retry._retry_rest f attempts = Retry._retry_rest g attempts
  /\ Retry._retry_subprocess f attempts = Retry._retry_subprocess g attempts.
Proof.
  intros Hsame.
  assert (H : Retry._retry_rest f attempts = Retry._retry_rest g attempts).
  { unfold Retry._retry_rest. apply attempt_loop_ext.
    intros i Hi. simpl. apply Hsame.
    unfold range in Hi. rewrite length_map, length_seq in Hi. lia. }
  split; exact H.
Qed.

(** Two operations that agree on their first two calls, retried twice. *)
Lemma retry_calls_bounded_witness :
  Retry._retry_rest
    (fun i => if (i <? 2)%nat then inl (Exn ExternalError "busy") else inr 1%nat) 2
  = Retry._retry_rest
      (fun i => if (i <? 2)%nat then inl (Exn ExternalError "busy") else inr 2%nat) 2.
Proof.
  refine (proj1 (retry_calls_bounded nat _ _ 2 _)).
  intros i Hi. destruct i as [|[|i]]; [reflexivity | reflexivity|].
  simpl in Hi. lia.
Defined.

(** ** Bucket preprocessing, continued *)

Lemma visit_bucket_frame (config : Preprocess.Config) (b : Preprocess.Bucket) :
  exists config',
    Preprocess.visit_bucket config b = inr config'
    /\ (forall array key,
           key <> Preprocess.buffer_key ->
           Observe.setting_of config' array key = Observe.setting_of config array key)
    /\ (forall array,
           array <> Preprocess.nodearray b ->
           Observe.setting_of config' array Preprocess.buffer_key
           = Observe.setting_of config array Preprocess.buffer_key).
Proof.
  unfold Preprocess.visit_bucket. rewrite lookup_insert_eq.
  eexists. split; [reflexivity|].
  unfold Observe.setting_of. simpl. split.
  - intros array key Hkey.
    destruct (decide (array = Preprocess.nodearray b)) as [->|Hne].
    + rewrite lookup_insert_eq. simpl. rewrite lookup_insert_ne by congruence.
      destruct (Preprocess.nodearrays config) as [arrays|]; simpl.
      * destruct (arrays !! Preprocess.nodearray b); simpl; [reflexivity|].
        apply lookup_empty.
      * rewrite lookup_empty. simpl. apply lookup_empty.
    + rewrite lookup_insert_ne by congruence.
      destruct (Preprocess.nodearrays config) as [arrays|]; simpl; [reflexivity|].
      now rewrite lookup_empty.
  - intros array Hne. rewrite lookup_insert_ne by congruence.
    destruct (Preprocess.nodearrays config) as [arrays|]; simpl; [reflexivity|].
    now rewrite lookup_empty.
Qed.

(** X3.  Preprocessing never raises, whatever the buckets hold (a
    placement group size of zero included), and changes nothing but the
    [generated_placement_group_buffer] entries of the node arrays of the
    buckets it visits: every other setting of every node array reads as
    before, and so does the buffer of a node array without bucket. *)
Theorem preprocess_touches_only_the_buffer
  (buckets : list Preprocess.Bucket) (config : Preprocess.Config) :
  exists config',
    Preprocess.preprocess_node_mgr config buckets = inr config'
    /\ (forall array key,
           key <> Preprocess.buffer_key ->
           Observe.setting_of config' array key = Observe.setting_of config array key)
    /\ (forall array,
           (forall b, In b buckets -> Preprocess.nodearray b <> array) ->
           Observe.setting_of config' array Preprocess.buffer_key
           = Observe.setting_of config array Preprocess.buffer_key).
Proof.
  revert config. induction buckets as [|b rest IH]; intros config; simpl.
  - exists config. repeat split; reflexivity.
  - destruct (visit_bucket_frame config b) as (c1 & Hv & Hkeys1 & Hbuf1).
    rewrite Hv. simpl.
    destruct (IH c1) as (c2 & Hrun & Hkeys2 & Hbuf2).
    exists c2. split; [exact Hrun|]. split.
    + intros array key Hkey. now rewrite Hkeys2, Hkeys1.
    + intros array Hfree. rewrite Hbuf2 by (intros b' Hin; apply Hfree; now right).
      apply Hbuf1. intros ->. now apply (Hfree b); [left|].
Qed.

(** An HPC bucket with a placement group size of zero, and a
    configuration holding a setting of it and the buffer of another
    array. *)
Lemma preprocess_touches_only_the_buffer_witness :
  let b := {| Preprocess.nodearray := "hpc";
              Preprocess.slurm_hpc := Some (Preprocess.CStr "true");
              Preprocess.max_count := 10;
              Preprocess.max_placement_group_size := 0 |} in
  let config :=
    {| Preprocess.nodearrays :=
         Some (<["hpc" := {[ "max_nodes" := 10%Z ]}]>
                 {[ "htc" := {[ Preprocess.buffer_key := 2%Z ]} ]}) |} in
  exists config',
    Preprocess.preprocess_node_mgr config [ b ] = inr config'
    /\ Observe.setting_of config' "hpc" "max_nodes" = Some 10%Z
    /\ Observe.setting_of config' "htc" Preprocess.buffer_key = Some 2%Z.
Proof.
  intros b config.
  destruct (preprocess_touches_only_the_buffer [ b ] config)
    as (config' & Hrun & Hkeys & Hbuf).
  exists config'. split; [exact Hrun|]. split.
  - rewrite Hkeys by discriminate. reflexivity.
  - rewrite Hbuf; [reflexivity|].
    intros b' [<-|[]]. discriminate.
Defined.

(** ** The partition renderer, continued *)

(** X4.  [_partitions] stops at the first partition whose physical CPU
    count is zero: it raises [ZeroDivisionError], the stream holds the
    complete lines of the partitions before it, and nothing of that
    partition or of the ones after it is written. *)
Theorem partitions_stop_at_zero_cpu
  (before after : list Render.Partition) (p : Render.Partition) (autoscale : bool) :
  Forall (fun q => Render.pcpu_count q <> 0%Z) before ->
  Render.pcpu_count p = 0%Z ->
  exists (e : exn) (outs : list (list string)),
    Render._partitions (before ++ p :: after) autoscale = (inl e, concat outs)
    /\ exn_class_of e = ZeroDivisionError
    /\ Forall2 (fun q out => Render.write_partition autoscale q = inr out) before outs.
Proof.
  intros Hbefore Hp. induction Hbefore as [|q rest Hq Hrest IH]; simpl.
  - unfold Render.write_partition, floordiv. rewrite Hp. simpl.
    eexists _, []. split; [reflexivity|]. split; [reflexivity | constructor].
  - destruct IH as (e & outs & Hrun & He & Hall).
    destruct (write_partition_rendered autoscale q Hq)
      as (h1 & h2 & h3 & cpus & threads & tail & Hw).
    remember (h1 :: h2 :: h3
                :: Render.partition_line q
                     (Z.max 1024 (Render.memory q) / Render.pcpu_count q)
                :: Render.nodename_line q autoscale cpus threads
                     (Z.max 1024 (Render.memory q))
                :: tail) as out.
    rewrite Hw, Hrun. exists e, (out :: outs).
    split; [reflexivity|]. split; [exact He|].
    constructor; [exact Hw | exact Hall].
Qed.

(** A rendered partition followed by one without physical CPUs and a
    third one. *)
Lemma partitions_stop_at_zero_cpu_witness :
  let p cpus := {| Render.name := "hpc"; Render.nodearray := "hpc";
                   Render.node_list := Some "hpc-[1-4]";
                   Render.node_list_by_pg := [];
                   Render.is_default := true; Render.is_hpc := true;
                   Render.max_vm_count := 4; Render.max_scaleset_size := 4;
                   Render.memory := 2048; Render.pcpu_count := cpus;
                   Render.vcpu_count := 8; Render.use_pcpu := true;
                   Render.gpu_count := 0 |} in
  exists (e : exn) (outs : list (list string)),
    Render._partitions ([ p 4%Z ] ++ p 0%Z :: [ p 2%Z ]) true = (inl e, concat outs)
    /\ exn_class_of e = ZeroDivisionError
    /\ Forall2 (fun q out => Render.write_partition true q = inr out) [ p 4%Z ] outs.
Proof.
  intros p.
  apply (partitions_stop_at_zero_cpu [ p 4%Z ] [ p 2%Z ] (p 0%Z) true).
  - repeat constructor. simpl. lia.
  - reflexivity.
Defined.

(** X5.  In the [Nodename] line of a rendered partition the thread count
    is at least one, and the CPU count times the thread count never
    exceeds the virtual CPU count when the physical count is positive
    and not above it: with [use_pcpu] the line carries the physical
    count and the whole ratio, without it the virtual count and one
    thread. *)
Theorem nodename_cpus_within_vcpus (autoscale : bool) (p : Render.Partition) :
  (0 < Render.pcpu_count p <= Render.vcpu_count p)%Z ->
  exists (out : list string) (cpus threads : Z),
    Render.write_partition autoscale p = inr out
    /\ nth_error out 4
       = Some (Render.nodename_line p autoscale cpus threads
                 (Z.max 1024 (Render.memory p)))
    /\ (1 <= threads)%Z
    /\ (cpus * threads <= Render.vcpu_count p)%Z
    /\ cpus = (if Render.use_pcpu p then Render.pcpu_count p else Render.vcpu_count p)
    /\ threads = (if Render.use_pcpu p
                  then Render.vcpu_count p / Render.pcpu_count p else 1)%Z.
Proof.
  intros [Hpos Hle]. unfold Render.write_partition, floordiv, Render.floored_memory.
  destruct (Z.eqb_spec (Render.pcpu_count p) 0) as [?|_]; [lia|]. simpl.
  assert (Hq : (1 <= Render.vcpu_count p / Render.pcpu_count p)%Z)
    by (apply Z.div_le_lower_bound; lia).
  pose proof (Z.mul_div_le (Render.vcpu_count p) (Render.pcpu_count p) Hpos) as Hmul.
  destruct (Render.use_pcpu p); simpl; eexists _, _, _;
    (split; [reflexivity|]); (split; [reflexivity|]); repeat split; lia.
Qed.

(** Four physical cores with hyper-threading. *)
Lemma nodename_cpus_within_vcpus_witness :
  let p := {| Render.name := "hpc"; Render.nodearray := "hpc";
              Render.node_list := Some "hpc-[1-4]";
              Render.node_list_by_pg := [];
              Render.is_default := true; Render.is_hpc := true;
              Render.max_vm_count := 4; Render.max_scaleset_size := 4;
              Render.memory := 2048; Render.pcpu_count := 4;
              Render.vcpu_count := 8; Render.use_pcpu := true;
              Render.gpu_count := 0 |} in
  exists (out : list string) (cpus threads : Z),
    Render.write_partition true p = inr out
    /\ nth_error out 4
       = Some (Render.nodename_line p true cpus threads
                 (Z.max 1024 (Render.memory p)))
    /\ (1 <= threads)%Z
    /\ (cpus * threads <= Render.vcpu_count p)%Z
    /\ cpus = (if Render.use_pcpu p then Render.pcpu_count p else Render.vcpu_count p)
    /\ threads = (if Render.use_pcpu p
                  then Render.vcpu_count p / Render.pcpu_count p else 1)%Z.
Proof.
  intros p. apply (nodename_cpus_within_vcpus true p). simpl. lia.
Defined.

(** ** The GRES renderer, continued *)

Lemma nth_error_pairs {A B : Type} (f : A -> B) (sep : B) (l : list A) (i : nat) :
  nth_error (flat_map (fun x => [ f x; sep ]) l) (2 * i) = option_map f (nth_error l i).
Proof.
  revert i. induction l as [|x l IH]; intros i.
  - simpl. now destruct (2 * i)%nat, i.
  - destruct i as [|i]; [reflexivity|].
    replace (2 * S i)%nat with (S (S (2 * i))) by lia.
    change (flat_map (fun x => [ f x; sep ]) (x :: l))
      with (f x :: sep :: flat_map (fun x => [ f x; sep ]) l).
    cbn [nth_error]. apply IH.
Qed.

Section GresErrors.
Variable from_hostlist : string -> list string.
Variable to_hostlist : string -> string.
Variable sort_nodes : bool -> list string -> list string.

Lemma write_gres_returns (p : Render.Partition) :
  Render.node_list p <> None -> Render.max_scaleset_size p <> 0%Z ->
  exists out, Render.write_gres from_hostlist to_hostlist sort_nodes p = inr out.
Proof.
  intros Hlist Hsize. unfold Render.write_gres, ceildiv.
  destruct (Render.node_list p); [|congruence].
  apply Z.eqb_neq in Hsize. rewrite Hsize. simpl. now eexists.
Qed.

Lemma gres_conf_prefix (before rest : list Render.Partition) :
  Forall (fun q => Render.node_list q <> None /\ Render.max_scaleset_size q <> 0%Z)
    before ->
  exists outs : list (list string),
    Forall2 (fun q out =>
               Render.write_gres from_hostlist to_hostlist sort_nodes q = inr out)
      before outs
    /\ Render._generate_gres_conf from_hostlist to_hostlist sort_nodes (before ++ rest)
       = (fst (Render._generate_gres_conf from_hostlist to_hostlist sort_nodes rest),
          (concat outs
             ++ snd (Render._generate_gres_conf from_hostlist to_hostlist sort_nodes rest))%list).
Proof.
  induction 1 as [|q before' [Hlist Hsize] Hbefore IH]; simpl.
  - exists []. split; [constructor|]. now destruct (Render._generate_gres_conf _ _ _ rest).
  - destruct IH as (outs & Hall & Hrun).
    destruct (write_gres_returns q Hlist Hsize) as [out Hw].
    exists (out :: outs). split; [now constructor|].
    rewrite Hw, Hrun. simpl. now rewrite <- List.app_assoc.
Qed.

End GresErrors.

(** X6.  The GRES renderer stops at the first partition it cannot
    render, having written the lines of the partitions before it and
    nothing after: a partition whose node list was never populated
    raises [RuntimeError] naming its node array, whatever its other
    attributes; a populated one whose scale set size is zero raises
    [ZeroDivisionError]. *)
Theorem gres_stops_at_unrenderable_partition
  (from_hostlist : string -> list string)
  (to_hostlist : string -> string)
  (sort_nodes : bool -> list string -> list string)
  (before after : list Render.Partition) (p : Render.Partition) :
  Forall (fun q => Render.node_list q <> None /\ Render.max_scaleset_size q <> 0%Z)
    before ->
  exists outs : list (list string),
    Forall2 (fun q out =>
               Render.write_gres from_hostlist to_hostlist sort_nodes q = inr out)
      before outs
    /\ (Render.node_list p = None ->
        Render._generate_gres_conf from_hostlist to_hostlist sort_nodes
          (before ++ p :: after)
        = (inl (Exn RuntimeError
                  ("No nodes found for nodearray " ++ Render.nodearray p
                     ++ ". Please run 'cyclecloud_slurm.sh create_nodes' first!")),
           concat outs))
    /\ (Render.node_list p <> None -> Render.max_scaleset_size p = 0%Z ->
        exists e,
          exn_class_of e = ZeroDivisionError
          /\ Render._generate_gres_conf from_hostlist to_hostlist sort_nodes
               (before ++ p :: after)
             = (inl e, concat outs)).
Proof.
  intros Hbefore.
  destruct (gres_conf_prefix from_hostlist to_hostlist sort_nodes before (p :: after)
              Hbefore) as (outs & Hall & Hrun).
  exists outs. split; [exact Hall|]. rewrite Hrun. simpl. split.
  - intros Hnone. unfold Render.write_gres. rewrite Hnone. simpl.
    now rewrite app_nil_r.
  - intros Hsome Hzero. unfold Render.write_gres, ceildiv.
    destruct (Render.node_list p); [|congruence].
    rewrite Hzero. simpl. rewrite app_nil_r. eexists. split; [|reflexivity]. reflexivity.
Qed.

(** A GPU partition followed by one whose nodes were never created. *)
Lemma gres_stops_at_unrenderable_partition_witness :
  let p nodes := {| Render.name := "gpu"; Render.nodearray := "gpu";
                    Render.node_list := nodes;
                    Render.node_list_by_pg := [];
                    Render.is_default := false; Render.is_hpc := true;
                    Render.max_vm_count := 2; Render.max_scaleset_size := 2;
                    Render.memory := 4096; Render.pcpu_count := 4;
                    Render.vcpu_count := 8; Render.use_pcpu := true;
                    Render.gpu_count := 1 |} in
  Render._generate_gres_conf (fun _ => [ "gpu-1"; "gpu-2" ]) (fun s => s) (fun _ l => l)
    ([ p (Some "gpu-[1-2]") ] ++ p None :: [])
  = (inl (Exn RuntimeError
            "No nodes found for nodearray gpu. Please run 'cyclecloud_slurm.sh create_nodes' first!"),
     [ "Nodename=gpu-1,gpu-2 Name=gpu Count=1 File=/dev/nvidia0"; nl ]).
Proof.
  intros p.
  destruct (gres_stops_at_unrenderable_partition
              (fun _ => [ "gpu-1"; "gpu-2" ]) (fun s => s) (fun _ l => l)
              [ p (Some "gpu-[1-2]") ] [] (p None))
    as (outs & Hall & Hnone & _).
  { repeat constructor; simpl; discriminate. }
  rewrite (Hnone eq_refl).
  inversion Hall as [|? out ? outs' Hw Hrest]; subst. inversion Hrest; subst.
  vm_compute in Hw. injection Hw as <-. reflexivity.
Defined.

(** X7.  The renderer writes a line for every placement group index
    below the chunk count, also when the node list is too short to reach
    it: such a chunk is empty and its line names the host list of the
    empty string. *)
Theorem gres_writes_lines_for_empty_chunks
  (from_hostlist : string -> list string)
  (to_hostlist : string -> string)
  (sort_nodes : bool -> list string -> list string)
  (p : Render.Partition) (expr : string) (i : nat) :
  Render.node_list p = Some expr ->
  (0 < Render.max_scaleset_size p)%Z ->
  (1 <= Render.gpu_count p)%Z ->
  (Z.of_nat i * Render.max_scaleset_size p < Render.max_vm_count p)%Z ->
  (Z.of_nat (length (sort_nodes (Render.is_hpc p) (from_hostlist expr)))
   <= Z.of_nat i * Render.max_scaleset_size p)%Z ->
  exists out,
    Render.write_gres from_hostlist to_hostlist sort_nodes p = inr out
    /\ nth_error out (2 * i)
       = Some ("Nodename=" ++ to_hostlist "" ++ " Name=gpu Count="
                 ++ str_int (Render.gpu_count p) ++ " File="
                 ++ Render.nvidia_devices (Render.gpu_count p)).
Proof.
  intros Hexpr Hs Hk Hindex Hshort.
  destruct (write_gres_chunks from_hostlist to_hostlist sort_nodes p expr Hexpr Hs
              ltac:(nia)) as (n & Hbounds & Hw).
  eexists. split; [exact Hw|].
  destruct (Z.eqb_spec (Render.gpu_count p) 0) as [?|_]; [lia|].
  rewrite nth_error_pairs, !nth_error_map.
  assert (Hi : (i < n)%nat) by nia.
  rewrite nth_error_seq. destruct (Nat.ltb_spec i n) as [_|?]; [|lia]. simpl.
  f_equal. unfold Render.gres_line. do 2 f_equal.
  unfold Render.subset_of_nodes, Render.sorted_nodes.
  rewrite slice_nonneg by nia.
  rewrite skipn_all2 by lia. now rewrite firstn_nil.
Qed.

(** Ten possible nodes in scale sets of four, of which two exist: the
    third line is for an empty chunk. *)
Lemma gres_writes_lines_for_empty_chunks_witness :
  let p := {| Render.name := "gpu"; Render.nodearray := "gpu";
              Render.node_list := Some "gpu-[1-2]";
              Render.node_list_by_pg := [];
              Render.is_default := false; Render.is_hpc := true;
              Render.max_vm_count := 10; Render.max_scaleset_size := 4;
              Render.memory := 4096; Render.pcpu_count := 4;
              Render.vcpu_count := 8; Render.use_pcpu := true;
              Render.gpu_count := 1 |} in
  exists out,
    Render.write_gres (fun _ => [ "gpu-1"; "gpu-2" ]) (fun s => s) (fun _ l => l) p
    = inr out
    /\ nth_error out (2 * 2)
       = Some ("Nodename=" ++ "" ++ " Name=gpu Count="
                 ++ str_int (Render.gpu_count p) ++ " File="
                 ++ Render.nvidia_devices (Render.gpu_count p)).
Proof.
  intros p.
  apply (gres_writes_lines_for_empty_chunks
           (fun _ => [ "gpu-1"; "gpu-2" ]) (fun s => s) (fun _ l => l) p "gpu-[1-2]" 2);
    simpl; (reflexivity || lia).
Defined.

(** ** [keep_alive], continued *)



(** ** The convergence loop, continued *)

Lemma count_key_positive_iff (key : option string) (by_name : gmap string Node)
  (node_list : list string) :
  0 < count_key key by_name node_list
  <-> exists name, In name node_list /\ key_of by_name name = Some key.
Proof.
  split.
  - unfold count_key. intros Hpos.
    destruct (List.filter (fun name => bool_decide (key_of by_name name = Some key))
                node_list) as [|name l] eqn:E; [simpl in Hpos; lia|].
    assert (Hin : In name (List.filter
                             (fun name => bool_decide (key_of by_name name = Some key))
                             node_list)) by (rewrite E; now left).
    apply filter_In in Hin. destruct Hin as [Hin Hkey].
    exists name. split; [exact Hin | now apply bool_decide_eq_true_1 in Hkey].
  - intros (name & Hin & Hkey). now apply (count_key_positive _ _ _ name).
Qed.

Lemma key_unknown_iff (by_name : gmap string Node) (name : string) :
  key_of by_name name = Some (Some "UNKNOWN")
  <-> exists node, by_name !! name = Some node
                   /\ target_state node = "Started" /\ state node = Some "UNKNOWN".
Proof.
  unfold key_of, tally_key. split.
  - destruct (by_name !! name) as [node|]; [|discriminate].
    destruct (is_failed node); [discriminate|].
    destruct (String.eqb_spec (target_state node) "Started") as [Ht|Ht]; simpl;
      [|discriminate].
    destruct (state_is node "Ready" && negb (has_address node));
      [discriminate|].
    intros [= Hs]. now exists node.
  - intros (node & -> & Ht & Hs). unfold is_failed, state_is.
    rewrite Hs, Ht. reflexivity.
Qed.

(** X9.  In a poll cycle whose inventory fetch succeeds, a requested
    node with target state [Started] that reports the lifecycle state
    [UNKNOWN] makes the cycle raise: the loop counts such a node under
    the key that it reserves for the dictionary of transitioning nodes.
    When every requested node of the inventory reports a state, the
    cycle raises in no other case. *)
Theorem poll_raises_on_unknown_state
  (node_list : list string) (c : Cycle) (failed : gset string)
  (previous : gmap (option string) tally)
  (by_name : gmap string Node) (slept : list event) :
  Retry._retry_rest (get_nodes c) 5 = (inr by_name, slept) ->
  ((exists name node,
       In name node_list /\ by_name !! name = Some node
       /\ target_state node = "Started" /\ state node = Some "UNKNOWN") ->
   raised (fst (poll node_list c failed previous)))
  /\ (all_report_state by_name node_list ->
      raised (fst (poll node_list c failed previous)) ->
      exists name node,
        In name node_list /\ by_name !! name = Some node
        /\ target_state node = "Started" /\ state node = Some "UNKNOWN").
Proof.
  intros Hfetch.
  destruct (poll_fetched node_list c failed previous by_name slept Hfetch)
    as [Hok Hbad].
  assert (Hiff : 0 < count_key (Some "UNKNOWN") by_name node_list
                 <-> exists name node,
                      In name node_list /\ by_name !! name = Some node
                      /\ target_state node = "Started"
                      /\ state node = Some "UNKNOWN").
  { rewrite count_key_positive_iff. split.
    - intros (name & Hin & Hkey). apply key_unknown_iff in Hkey.
      destruct Hkey as (node & Hn & Ht & Hs). now exists name, node.
    - intros (name & node & Hin & Hn & Ht & Hs). exists name. split; [exact Hin|].
      apply key_unknown_iff. now exists node. }
  rewrite <- Hiff. split.
  - intros Hclash. destruct (Hbad Hclash) as (e & t & Hpoll).
    now rewrite Hpoll.
  - intros Hall Hraised.
    destruct (Nat.eq_dec (count_key (Some "UNKNOWN") by_name node_list) 0)
      as [Hfree|?]; [|lia].
    destruct (Hok Hfree) as (pr & _ & Hpoll & Hlog).
    rewrite Hpoll, (Hlog Hall) in Hraised. destruct Hraised.
Qed.

(** A started node whose state is the text [UNKNOWN]. *)
Lemma poll_raises_on_unknown_state_witness :
  let node := {| state := Some "UNKNOWN"; target_state := "Started";
                 private_ip := None; hostname := None |} in
  let c := {| now := 1; get_nodes := fun _ => inr {[ "n1" := node ]};
              check_output := fun _ => inr ""; iteration := elements |} in
  raised (fst (poll [ "n1" ] c ∅ ∅)).
Proof.
  intros node c.
  apply (proj1 (poll_raises_on_unknown_state [ "n1" ] c ∅ ∅ {[ "n1" := node ]} []
                  eq_refl)).
  exists "n1", node. split; [now left|]. repeat split.
Defined.

(** X10.  When all five attempts to fetch the inventory fail in a cycle
    that starts before the deadline, [_wait_for_resume] does not go on
    polling: the loop raises the aggregated error of the last failure
    after the five backoff sleeps (55 seconds), and no scheduler command
    is run in that cycle. *)
Theorem inventory_fetch_failure_is_fatal
  (omega : Z) (node_list : list string) (c : Cycle) (rest : list Cycle)
  (failed : gset string) (ready : list (string * Node)) (trace : list event)
  (previous : gmap (option string) tally) (e : exn) :
  (now c < omega)%Z ->
  (forall i, (i < 5)%nat -> raised (get_nodes c i)) ->
  get_nodes c 4 = inl e ->
  poll_loop omega node_list (c :: rest) failed ready trace previous
  = Raised (Exn CyclecloudSlurmError (str_exn e)) (trace ++ Retry.backoff 5).
Proof.
  intros Hearly Hfail Hlast. simpl.
  destruct (Z.ltb_spec (now c) omega) as [_|?]; [|lia].
  unfold poll.
  rewrite (retry_rest_exhausted (get_nodes c) 5 e Hfail Hlast). reflexivity.
Qed.

(** A fleet manager that cannot be reached. *)
Lemma inventory_fetch_failure_is_fatal_witness :
  let c := {| now := 1;
              get_nodes := fun _ => inl (Exn ExternalError "connection refused");
              check_output := fun _ => inr ""; iteration := elements |} in
  poll_loop 3600 [ "n1" ] [ c ] ∅ [] [] ∅
  = Raised (Exn CyclecloudSlurmError "connection refused")
      ([] ++ Retry.backoff 5).
Proof.
  intros c.
  apply (inventory_fetch_failure_is_fatal 3600 [ "n1" ] c [] ∅ [] [] ∅
           (Exn ExternalError "connection refused")).
  - simpl. lia.
  - intros i _. exact I.
  - reflexivity.
Defined.

(** X11.  Failing scheduler commands never change what a cycle decides:
    two cycles that see the same inventory fetches return the same
    verdict (or raise the same error), whatever the scheduler answers to
    the down and idle commands and in whatever order the names are
    visited. *)
Theorem command_failures_do_not_change_the_verdict
  (node_list : list string) (c c' : Cycle) (failed : gset string)
  (previous : gmap (option string) tally) :
  (forall i, (i < 5)%nat -> get_nodes c i = get_nodes c' i) ->
  fst (poll node_list c failed previous) = fst (poll node_list c' failed previous).
Proof.
  intros Hsame. unfold poll.
  assert (Hfetch : Retry._retry_rest (get_nodes c) 5 = Retry._retry_rest (get_nodes c') 5).
  { unfold Retry._retry_rest. apply attempt_loop_ext. intros i Hi. simpl.
    apply Hsame. unfold range in Hi. rewrite length_map, length_seq in Hi. simpl in Hi.
    lia. }
  rewrite Hfetch.
  destruct (Retry._retry_rest (get_nodes c') 5) as [[e|by_name] slept]; [reflexivity|].
  destruct (visit_all by_name node_list (start_of_cycle failed)) as [e|pr];
    [reflexivity|].
  pose proof (report_recoveries_keeps_failed (iteration c) (check_output c) pr) as H1.
  pose proof (report_recoveries_keeps_failed (iteration c') (check_output c') pr)
    as H2.
  destruct (report_recoveries (iteration c) (check_output c) pr) as [f1 t1].
  destruct (report_recoveries (iteration c') (check_output c') pr) as [f2 t2].
  simpl in H1, H2. subst f1 f2.
  destruct (terminal_states (states pr)); [reflexivity|].
  destruct (log_states pr previous); reflexivity.
Qed.

(** The same inventory with a scheduler that accepts every command and
    one that rejects them all. *)
Lemma command_failures_do_not_change_the_verdict_witness :
  let node := {| state := Some "Failed"; target_state := "Started";
                 private_ip := None; hostname := None |} in
  let cycle answer :=
    {| now := 1; get_nodes := fun _ => inr {[ "n1" := node ]};
       check_output := fun _ => answer; iteration := elements |} in
  fst (poll [ "n1" ] (cycle (inr "")) ∅ ∅)
  = fst (poll [ "n1" ] (cycle (inl (Exn ExternalError "scontrol failed"))) ∅ ∅).
Proof.
  intros node cycle.
  apply (command_failures_do_not_change_the_verdict [ "n1" ]
           (cycle (inr "")) (cycle (inl (Exn ExternalError "scontrol failed"))) ∅ ∅).
  intros i _. reflexivity.
Defined.

Lemma visit_recovered (by_name : gmap string Node) (name : string) (pr pr' : Progress) :
  visit by_name name pr = inr pr' ->
  recovered_node_names pr' ⊆ recovered_node_names pr ∪ failed_node_names pr
  /\ failed_node_names pr ⊆ failed_node_names pr'.
Proof.
  unfold visit.
  destruct (by_name !! name) as [node|]; [|intros [= <-]; simpl; split; set_solver].
  destruct (is_failed node).
  - destruct (increment (states pr) (Some "Failed")); simpl; [discriminate|].
    intros [= <-]. simpl.
    destruct (negb (bool_decide (name ∈ failed_node_names pr))); split; set_solver.
  - destruct (decide (name ∈ failed_node_names pr)) as [Hin|Hnotin].
    + rewrite (bool_decide_eq_true_2 _ Hin).
      destruct (negb (String.eqb (target_state node) "Started")).
      * destruct (increment_unknown (states pr) (state node)); simpl; [discriminate|].
        intros [= <-]. simpl. split; set_solver.
      * destruct (increment (states pr) _); simpl; [discriminate|].
        intros [= <-]. simpl. split; set_solver.
    + rewrite (bool_decide_eq_false_2 _ Hnotin).
      destruct (negb (String.eqb (target_state node) "Started")).
      * destruct (increment_unknown (states pr) (state node)); simpl; [discriminate|].
        intros [= <-]. simpl. split; set_solver.
      * destruct (increment (states pr) _); simpl; [discriminate|].
        intros [= <-]. simpl. split; set_solver.
Qed.

Lemma visit_all_recovered (by_name : gmap string Node) (node_list : list string) :
  forall pr pr' : Progress,
    visit_all by_name node_list pr = inr pr' ->
    recovered_node_names pr' ⊆ recovered_node_names pr ∪ failed_node_names pr'
    /\ failed_node_names pr ⊆ failed_node_names pr'.
Proof.
  induction node_list as [|name rest IH]; intros pr pr' Hrun; simpl in Hrun.
  - injection Hrun as <-. split; set_solver.
  - destruct (visit by_name name pr) as [e|pr1] eqn:Hv; simpl in Hrun; [discriminate|].
    destruct (visit_recovered _ _ _ _ Hv) as [Hr1 Hf1].
    destruct (IH _ _ Hrun) as [Hr2 Hf2]. split; set_solver.
Qed.

(** X12.  A cycle that finds no requested node failed, entered with an
    empty failed set, runs no scheduler command: all it leaves in the
    trace are the sleeps of the inventory fetch. *)
Theorem quiet_cycle_runs_no_command
  (node_list : list string) (c : Cycle) (previous : gmap (option string) tally)
  (by_name : gmap string Node) (slept : list event) :
  Retry._retry_rest (get_nodes c) 5 = (inr by_name, slept) ->
  names_with Failed by_name node_list = [] ->
  snd (poll node_list c ∅ previous) = slept.
Proof.
  intros Hfetch Hnone. unfold poll. rewrite Hfetch.
  destruct (visit_all by_name node_list (start_of_cycle ∅)) as [e|pr] eqn:Hrun;
    [reflexivity|].
  destruct (visit_all_fields _ _ _ _ Hrun) as (_ & _ & Hfailed & Hnewly).
  destruct (visit_all_recovered _ _ _ _ Hrun) as [Hrec _].
  simpl in Hfailed, Hnewly, Hrec. rewrite Hnone in Hfailed, Hnewly.
  assert (Hdown : report_failures (iteration c) (check_output c) pr = []).
  { unfold report_failures.
    destruct (newly_failed_node_names pr) as [|x l]; [reflexivity|].
    destruct (proj1 (Hnewly x) (or_introl eq_refl)) as [[]|[[] _]]. }
  assert (Hidle : report_recoveries (iteration c) (check_output c) pr
                  = (failed_node_names pr, [])).
  { unfold report_recoveries.
    assert (Hempty : recovered_node_names pr = ∅) by set_solver.
    now rewrite (bool_decide_eq_true_2 _ Hempty). }
  rewrite Hdown, Hidle. simpl.
  destruct (terminal_states (states pr)); simpl; [now rewrite app_nil_r|].
  destruct (log_states pr previous); simpl; now rewrite app_nil_r.
Qed.

(** Two nodes that are still being provisioned. *)
Lemma quiet_cycle_runs_no_command_witness :
  let node := {| state := Some "Acquiring"; target_state := "Started";
                 private_ip := None; hostname := None |} in
  let by_name : gmap string Node := <["n1" := node]> {[ "n2" := node ]} in
  let c := {| now := 1; get_nodes := fun _ => inr by_name;
              check_output := fun _ => inl (Exn ExternalError "not reached");
              iteration := elements |} in
  snd (poll [ "n1"; "n2" ] c ∅ ∅) = [].
Proof.
  intros node by_name c.
  apply (quiet_cycle_runs_no_command [ "n1"; "n2" ] c ∅ by_name []).
  - reflexivity.
  - vm_compute. reflexivity.
Defined.

Lemma poll_loop_out_of_cycles (omega : Z) (node_list : list string)
  (cycles : list Cycle) :
  forall failed ready trace previous trace',
    poll_loop omega node_list cycles failed ready trace previous
    = OutOfCycles trace' ->
    Forall (fun c => (now c < omega)%Z) cycles.
Proof.
  induction cycles as [|c rest IH]; intros failed ready trace previous trace' Hrun;
    [constructor|].
  simpl in Hrun. destruct (Z.ltb_spec (now c) omega) as [Hearly|?]; [|discriminate].
  constructor; [exact Hearly|].
  destruct (poll node_list c failed previous) as [[e|v] t]; [discriminate|].
  destruct (converged v); [discriminate|].
  exact (IH _ _ _ _ _ Hrun).
Qed.

(** X13.  [_wait_for_resume] polls at most 720 times: if the clock
    reading at the head of each cycle is at least five seconds (the
    sleep that ends a cycle) later than the one before, counted from the
    start, then 721 supplied cycles are enough for the run to end, by
    leaving the loop or by raising. *)
Theorem wait_for_resume_polls_at_most_720_times
  (is_valid_hostname : string * Node -> bool)
  (final_check_output : list string -> exn + string)
  (start : Z) (cycles : list Cycle) (node_list : list string) :
  (forall i c, nth_error cycles i = Some c -> (start + 5 * Z.of_nat i <= now c)%Z) ->
  (720 < length cycles)%nat ->
  forall trace,
    _wait_for_resume is_valid_hostname final_check_output start cycles node_list
    <> OutOfCycles trace.
Proof.
  intros Hclock Hlen trace Hrun. unfold _wait_for_resume, after_loop in Hrun.
  destruct (poll_loop (start + 3600) node_list cycles ∅ [] [] ∅)
    as [e t|r f t|t] eqn:Hloop.
  - discriminate.
  - destruct (update_addresses final_check_output is_valid_hostname r) as [[e|u] t'];
      discriminate.
  - apply poll_loop_out_of_cycles in Hloop.
    destruct (nth_error cycles 720) as [c|] eqn:Hc.
    + pose proof (Hclock 720%nat c Hc) as Hlate.
      rewrite List.Forall_forall in Hloop.
      pose proof (Hloop c (nth_error_In _ _ Hc)). lia.
    + apply nth_error_None in Hc. lia.
Qed.

(** A single requested node that never leaves [Acquiring], polled every
    five seconds. *)
Lemma wait_for_resume_polls_at_most_720_times_witness :
  let node := {| state := Some "Acquiring"; target_state := "Started";
                 private_ip := None; hostname := None |} in
  let cycles :=
    map (fun i => {| now := 5 * Z.of_nat i;
                     get_nodes := fun _ => inr {[ "n1" := node ]};
                     check_output := fun _ => inr ""; iteration := elements |})
      (seq 0 721) in
  match _wait_for_resume (fun _ => true) (fun _ => inr "") 0 cycles [ "n1" ] with
  | OutOfCycles _ => False
  | _ => True
  end.
Proof.
  intros node cycles.
  destruct (_wait_for_resume (fun _ => true) (fun _ => inr "") 0 cycles [ "n1" ])
    as [e t|r f t|trace] eqn:Hrun; try exact I.
  revert Hrun.
  apply (wait_for_resume_polls_at_most_720_times (fun _ => true) (fun _ => inr "")
           0 cycles [ "n1" ]).
  - intros i c Hc. unfold cycles in Hc. rewrite nth_error_map in Hc.
    destruct (nth_error (seq 0 721) i) as [j|] eqn:Hj; [|discriminate].
    injection Hc as <-. simpl.
    apply nth_error_In in Hj as Hin. apply in_seq in Hin.
    rewrite nth_error_seq in Hj.
    destruct (Nat.ltb_spec i 721) as [_|?]; [|discriminate].
    injection Hj as <-. lia.
  - unfold cycles. rewrite length_map, length_seq. lia.
Defined.

Lemma poll_failed_grows (node_list : list string) (c : Cycle) (failed : gset string)
  (previous : gmap (option string) tally) (v : Verdict) (t : list event) :
  poll node_list c failed previous = (inr v, t) -> failed ⊆ Converge.failed v.
Proof.
  unfold poll.
  destruct (Retry._retry_rest (get_nodes c) 5) as [[e|by_name] slept]; [discriminate|].
  destruct (visit_all by_name node_list (start_of_cycle failed)) as [e|pr] eqn:Hrun;
    [discriminate|].
  pose proof (report_recoveries_keeps_failed (iteration c) (check_output c) pr)
    as Hkeep.
  destruct (report_recoveries (iteration c) (check_output c) pr) as [failed' idles].
  simpl in Hkeep. subst failed'.
  destruct (terminal_states (states pr)); [discriminate|].
  destruct (log_states pr previous); [discriminate|].
  intros [= <- _]. simpl.
  destruct (visit_all_recovered _ _ _ _ Hrun) as [_ Hgrow]. exact Hgrow.
Qed.

(** X14.  The failed set only grows while the loop runs: every name in
    it at the head of a cycle is still in it when the loop is left,
    whatever the nodes do in between. *)
Theorem failed_set_only_grows (omega : Z) (node_list : list string)
  (cycles : list Cycle) :
  forall (failed : gset string) (ready : list (string * Node)) (trace : list event)
         (previous : gmap (option string) tally)
         (failed' : gset string) (ready' : list (string * Node)) (trace' : list event),
    poll_loop omega node_list cycles failed ready trace previous
    = Exited ready' failed' trace' ->
    failed ⊆ failed'.
Proof.
  induction cycles as [|c rest IH];
    intros failed ready trace previous failed' ready' trace' Hrun;
    simpl in Hrun; [discriminate|].
  destruct (now c <? omega)%Z; [|injection Hrun as _ <- _; reflexivity].
  destruct (poll node_list c failed previous) as [[e|v] t] eqn:Hpoll; [discriminate|].
  pose proof (poll_failed_grows _ _ _ _ _ _ Hpoll) as Hgrow.
  destruct (converged v).
  - injection Hrun as _ <- _. exact Hgrow.
  - specialize (IH _ _ _ _ _ _ _ Hrun). set_solver.
Qed.

(** A node that has failed and now reports ready with an address: the
    loop is left in this cycle and the node is still in the failed
    set. *)
Lemma failed_set_only_grows_witness :
  let node := {| state := Some "Ready"; target_state := "Started";
                 private_ip := Some "10.0.0.4"; hostname := None |} in
  let c := {| now := 6;
              get_nodes := fun _ => inr (<["n1" := node]> {[ "n2" := node ]});
              check_output := fun _ => inr ""; iteration := elements |} in
  exists ready' failed' trace',
    poll_loop 3600 [ "n1"; "n2" ] [ c ] {[ "n1" ]} [] [] ∅
    = Exited ready' failed' trace'
    /\ ({[ "n1" ]} : gset string) ⊆ failed'.
Proof.
  intros node c.
  destruct (poll_loop 3600 [ "n1"; "n2" ] [ c ] {[ "n1" ]} [] [] ∅)
    as [e t|ready' failed' trace'|t] eqn:Hrun;
    [vm_compute in Hrun; discriminate | | vm_compute in Hrun; discriminate].
  exists ready', failed', trace'. split; [reflexivity|].
  exact (failed_set_only_grows 3600 [ "n1"; "n2" ] [ c ] _ _ _ _ _ _ _ Hrun).
Defined.

(** ** [_resume] and [_as_nodes] *)

Lemma find_app {A : Type} (f : A -> bool) (l1 l2 : list A) :
  find f (l1 ++ l2)
  = match find f l1 with
    | Some x => Some x
    | None => find f l2
    end.
Proof.
  induction l1 as [|x l1 IH]; simpl; [reflexivity|].
  destruct (f x); [reflexivity | exact IH].
Qed.

Section ResumeFacts.
Variable N : Type.
Variable all_nodes : Render.Partition -> list string.
Variable bucket_id_for_node : Render.Partition -> string -> string.
Variable repr_names : list string -> string.
Variable set_name_format : string -> N -> N.
Variable allocate : nat -> string -> string -> exn + list N.
Variable bootup : list N -> exn + string.

Lemma lookup_assign (name k : string) (p : Render.Partition)
  (d : list (string * Render.Partition)) :
  Fleet.lookup_partition name (Fleet.assign k p d)
  = if String.eqb k name then Some p else Fleet.lookup_partition name d.
Proof.
  induction d as [|[k' v] rest IH]; simpl.
  - reflexivity.
  - destruct (String.eqb_spec k' k) as [->|Hk]; simpl.
    + destruct (String.eqb k name); reflexivity.
    + rewrite IH.
      destruct (String.eqb_spec k' name) as [->|Hk'];
        destruct (String.eqb_spec k name) as [->|Hk'']; congruence.
Qed.

Lemma lookup_assign_all (name : string) (p : Render.Partition) (names : list string) :
  forall d,
    Fleet.lookup_partition name (fold_left (fun d k => Fleet.assign k p d) names d)
    = if existsb (String.eqb name) names then Some p
      else Fleet.lookup_partition name d.
Proof.
  induction names as [|k names IH]; intros d; simpl; [reflexivity|].
  rewrite IH, lookup_assign. rewrite (String.eqb_sym name k).
  destruct (existsb (String.eqb name) names), (String.eqb k name); reflexivity.
Qed.

Lemma lookup_name_to_partition (name : string) (partitions : list Render.Partition) :
  forall d,
    Fleet.lookup_partition name
      (fold_left
         (fun d p => fold_left (fun d k => Fleet.assign k p d) (all_nodes p) d)
         partitions d)
    = match find (fun p => existsb (String.eqb name) (all_nodes p)) (rev partitions) with
      | Some p => Some p
      | None => Fleet.lookup_partition name d
      end.
Proof.
  induction partitions as [|p rest IH]; intros d; simpl; [reflexivity|].
  rewrite IH, find_app. simpl.
  destruct (find _ (rev rest)); [reflexivity|].
  rewrite lookup_assign_all.
  destruct (existsb (String.eqb name) (all_nodes p)); reflexivity.
Qed.

(** X15.  When a node name is listed by several partitions,
    [_resume] takes it to belong to the last of them: the dictionary
    from names to partitions gives, for every name, the last partition
    that lists it, and nothing for a name that no partition lists. *)
Theorem last_partition_claims_the_name
  (name : string) (partitions : list Render.Partition) :
  Fleet.lookup_partition name (Fleet.name_to_partition all_nodes partitions)
  = find (fun p => existsb (String.eqb name) (all_nodes p)) (rev partitions).
Proof.
  unfold Fleet.name_to_partition. rewrite lookup_name_to_partition.
  now destruct (find _ (rev partitions)).
Qed.

Lemma allocate_all_succeeds (existing : gset string)
  (d : list (string * Render.Partition)) (node_list : list string) :
  (forall name, In name node_list ->
                name ∈ existing \/ Fleet.lookup_partition name d <> None) ->
  (forall calls b name, exists node, allocate calls b name = inr [ node ]) ->
  forall calls nodes trace,
  exists added : list N,
    Fleet.allocate_all N bucket_id_for_node repr_names set_name_format allocate
      existing d node_list calls nodes trace
    = (inr (nodes ++ added)%list,
       (trace ++ map (Fleet.allocation_call N bucket_id_for_node d) (Fleet.to_allocate existing node_list))%list)
    /\ Forall2
         (fun name node =>
            exists calls raw,
              allocate calls
                (match Fleet.lookup_partition name d with
                 | Some p => bucket_id_for_node p name
                 | None => ""
                 end) name = inr [ raw ]
              /\ node = set_name_format name raw)
         (Fleet.to_allocate existing node_list) added.
Proof.
  intros Hknown Hone.
  induction node_list as [|name rest IH]; intros calls nodes trace; simpl.
  - exists []. rewrite !app_nil_r. split; [reflexivity | constructor].
  - unfold Fleet.to_allocate. simpl.
    destruct (decide (name ∈ existing)) as [Hin|Hnotin].
    + rewrite (bool_decide_eq_true_2 _ Hin). simpl.
      apply IH. intros n Hn. apply Hknown. now right.
    + rewrite (bool_decide_eq_false_2 _ Hnotin). simpl.
      destruct (Hknown name (or_introl eq_refl)) as [?|Hsome]; [contradiction|].
      unfold Fleet.allocation_call at 1.
      destruct (Fleet.lookup_partition name d) as [p|] eqn:Hp; [|congruence].
      destruct (Hone calls (bucket_id_for_node p name) name) as [raw Hraw].
      rewrite Hraw.
      destruct (IH (fun n Hn => Hknown n (or_intror Hn)) (S calls)
                  (nodes ++ [ set_name_format name raw ])%list
                  (trace ++ [ Fleet.Allocate N (bucket_id_for_node p name) name ])%list)
        as (added & Hrun & Hall).
      exists (set_name_format name raw :: added). split.
      * rewrite Hrun. unfold Fleet.to_allocate.
        now rewrite <- !List.app_assoc.
      * constructor; [|exact Hall]. rewrite Hp. now exists calls, raw.
Qed.

(** X16.  When every requested name is in the inventory or listed by a
    partition, and the fleet manager answers every allocation with
    exactly one node, [_resume] allocates one node for each requested
    name that is not in the inventory, in request order and once per
    occurrence, pins each allocated node to its name, and then calls
    [bootup] once with all of them: names in the inventory are never
    allocated, and [bootup] is called even when nothing was. *)
Theorem resume_allocates_missing_names_then_boots
  (existing : gset string) (partitions : list Render.Partition)
  (node_list : list string) :
  (forall name, In name node_list ->
                name ∈ existing
                \/ Fleet.lookup_partition name
                     (Fleet.name_to_partition all_nodes partitions) <> None) ->
  (forall calls b name, exists node, allocate calls b name = inr [ node ]) ->
  exists nodes : list N,
    Fleet.allocate_and_boot N all_nodes bucket_id_for_node repr_names set_name_format
      allocate bootup existing partitions node_list
    = (bootup nodes,
       (map (Fleet.allocation_call N bucket_id_for_node
               (Fleet.name_to_partition all_nodes partitions))
          (Fleet.to_allocate existing node_list)
          ++ [ Fleet.Bootup N nodes ])%list)
    /\ Forall2
         (fun name node =>
            exists calls raw,
              allocate calls
                (match Fleet.lookup_partition name
                         (Fleet.name_to_partition all_nodes partitions) with
                 | Some p => bucket_id_for_node p name
                 | None => ""
                 end) name = inr [ raw ]
              /\ node = set_name_format name raw)
         (Fleet.to_allocate existing node_list) nodes.
Proof.
  intros Hknown Hone. unfold Fleet.allocate_and_boot.
  destruct (allocate_all_succeeds existing _ node_list Hknown Hone 0 [] [])
    as (nodes & Hrun & Hall).
  rewrite Hrun. simpl. now exists nodes.
Qed.

Lemma allocate_all_unknown (existing : gset string)
  (d : list (string * Render.Partition)) (before after : list string) (name : string) :
  (forall n, In n before -> n ∈ existing \/ Fleet.lookup_partition n d <> None) ->
  (forall calls b n, exists node, allocate calls b n = inr [ node ]) ->
  name ∉ existing ->
  Fleet.lookup_partition name d = None ->
  forall calls nodes trace,
    Fleet.allocate_all N bucket_id_for_node repr_names set_name_format allocate
      existing d (before ++ name :: after) calls nodes trace
    = (inl (Exn CyclecloudSlurmError
              ("Unknown node name: " ++ name ++ ": " ++ repr_names (map fst d))),
       (trace ++ map (Fleet.allocation_call N bucket_id_for_node d) (Fleet.to_allocate existing before))%list).
Proof.
  intros Hknown Hone Hnotin Hnone.
  induction before as [|n rest IH]; intros calls nodes trace; simpl.
  - rewrite (bool_decide_eq_false_2 _ Hnotin), Hnone. now rewrite app_nil_r.
  - unfold Fleet.to_allocate. simpl.
    destruct (decide (n ∈ existing)) as [Hin|Hn].
    + rewrite (bool_decide_eq_true_2 _ Hin). simpl.
      apply IH. intros m Hm. apply Hknown. now right.
    + rewrite (bool_decide_eq_false_2 _ Hn). simpl.
      destruct (Hknown n (or_introl eq_refl)) as [?|Hsome]; [contradiction|].
      unfold Fleet.allocation_call at 1.
      destruct (Fleet.lookup_partition n d) as [p|] eqn:Hp; [|congruence].
      destruct (Hone calls (bucket_id_for_node p n) n) as [raw Hraw].
      rewrite Hraw.
      rewrite (IH (fun m Hm => Hknown m (or_intror Hm))).
      unfold Fleet.to_allocate. now rewrite <- !List.app_assoc.
Qed.

(** X17.  A requested name that is neither in the inventory nor listed
    by any partition makes [_resume] raise [CyclecloudSlurmError] when
    the loop reaches it.  The allocations for the names before it have
    been made by then; [bootup] is not called for them, and
    [_wait_for_resume] is not entered. *)
Theorem resume_unknown_name_boots_nothing
  (existing : gset string) (partitions : list Render.Partition)
  (before after : list string) (name : string) (no_wait : bool)
  (is_valid_hostname : string * Node -> bool)
  (final_check_output : list string -> exn + string)
  (start : Z) (cycles : list Cycle) :
  (forall n, In n before ->
             n ∈ existing
             \/ Fleet.lookup_partition n
                  (Fleet.name_to_partition all_nodes partitions) <> None) ->
  (forall calls b n, exists node, allocate calls b n = inr [ node ]) ->
  name ∉ existing ->
  (forall p, In p partitions -> ~ In name (all_nodes p)) ->
  let trace :=
    map (Fleet.allocation_call N bucket_id_for_node
           (Fleet.name_to_partition all_nodes partitions))
      (Fleet.to_allocate existing before) in
  Fleet._resume N all_nodes bucket_id_for_node repr_names set_name_format
    allocate bootup existing partitions (before ++ name :: after) no_wait
    is_valid_hostname final_check_output start cycles
  = (inl (Exn CyclecloudSlurmError
            ("Unknown node name: " ++ name ++ ": "
               ++ repr_names
                    (map fst (Fleet.name_to_partition all_nodes partitions)))),
     trace, None)
  /\ existsb (Fleet.is_bootup N) trace = false.
Proof.
  intros Hknown Hone Hnotin Hunlisted trace.
  assert (Hnone : Fleet.lookup_partition name
                    (Fleet.name_to_partition all_nodes partitions) = None).
  { rewrite last_partition_claims_the_name.
    destruct (find _ (rev partitions)) as [p|] eqn:Hfind; [|reflexivity].
    apply find_some in Hfind. destruct Hfind as [Hin Hex].
    apply existsb_exists in Hex. destruct Hex as (n & Hn & Heq).
    apply String.eqb_eq in Heq. subst n.
    destruct (Hunlisted p (proj2 (in_rev partitions p) Hin) Hn). }
  split.
  - unfold Fleet._resume, Fleet.allocate_and_boot.
    rewrite (allocate_all_unknown existing _ before after name Hknown Hone Hnotin Hnone).
    reflexivity.
  - unfold trace. induction (Fleet.to_allocate existing before) as [|n l IH];
      [reflexivity | exact IH].
Qed.

End ResumeFacts.


(** An HPC partition listing [hpc-1] and [hpc-2], of which [hpc-1] is
    in the inventory. *)
Lemma resume_allocates_missing_names_then_boots_witness :
  let hpc := {| Render.name := "hpc"; Render.nodearray := "hpc";
                Render.node_list := Some "hpc-[1-2]";
                Render.node_list_by_pg := [ (None, [ "hpc-1"; "hpc-2" ]) ];
                Render.is_default := true; Render.is_hpc := true;
                Render.max_vm_count := 2; Render.max_scaleset_size := 2;
                Render.memory := 4096; Render.pcpu_count := 2;
                Render.vcpu_count := 4; Render.use_pcpu := true;
                Render.gpu_count := 0 |} in
  let all_nodes p := flat_map snd (Render.node_list_by_pg p) in
  fst (Fleet.allocate_and_boot string all_nodes (fun p _ => Render.nodearray p)
         (String.concat ",") (fun name _ => name) (fun _ _ name => inr [ name ])
         (fun _ => inr "op-1") {[ "hpc-1" ]} [ hpc ] [ "hpc-1"; "hpc-2" ])
  = inr "op-1".
Proof.
  intros hpc all_nodes.
  destruct (resume_allocates_missing_names_then_boots string all_nodes
              (fun p _ => Render.nodearray p) (String.concat ",")
              (fun name _ => name) (fun _ _ name => inr [ name ])
              (fun _ => inr "op-1") {[ "hpc-1" ]} [ hpc ] [ "hpc-1"; "hpc-2" ])
    as (nodes & Hrun & _).
  - intros name [<-|[<-|[]]]; [left; set_solver | right; vm_compute; discriminate].
  - intros calls b name. now exists name.
  - rewrite Hrun. reflexivity.
Defined.

(** The same partition and inventory, with [hpc-2] requested before the
    name [gpu-1], which no partition lists. *)
Lemma resume_unknown_name_boots_nothing_witness :
  let hpc := {| Render.name := "hpc"; Render.nodearray := "hpc";
                Render.node_list := Some "hpc-[1-2]";
                Render.node_list_by_pg := [ (None, [ "hpc-1"; "hpc-2" ]) ];
                Render.is_default := true; Render.is_hpc := true;
                Render.max_vm_count := 2; Render.max_scaleset_size := 2;
                Render.memory := 4096; Render.pcpu_count := 2;
                Render.vcpu_count := 4; Render.use_pcpu := true;
                Render.gpu_count := 0 |} in
  let all_nodes p := flat_map snd (Render.node_list_by_pg p) in
  Fleet._resume string all_nodes (fun p _ => Render.nodearray p)
    (String.concat ",") (fun name _ => name) (fun _ _ name => inr [ name ])
    (fun _ => inr "op-1") {[ "hpc-1" ]} [ hpc ] ([ "hpc-2" ] ++ "gpu-1" :: [])
    false (fun _ => true) (fun _ => inr "") 0 []
  = (inl (Exn CyclecloudSlurmError "Unknown node name: gpu-1: hpc-1,hpc-2"),
     [ Fleet.Allocate string "hpc" "hpc-2" ], None).
Proof.
  intros hpc all_nodes.
  refine (proj1 (resume_unknown_name_boots_nothing string all_nodes
                   (fun p _ => Render.nodearray p) (String.concat ",")
                   (fun name _ => name) (fun _ _ name => inr [ name ])
                   (fun _ => inr "op-1") {[ "hpc-1" ]} [ hpc ] [ "hpc-2" ] []
                   "gpu-1" false (fun _ => true) (fun _ => inr "") 0 [] _ _ _ _)).
  - intros name [<-|[]]. right. vm_compute. discriminate.
  - intros calls b name. now exists name.
  - set_solver.
  - intros p [<-|[]]. vm_compute. intros [H|[H|[]]]; discriminate H.
Defined.

(** ** [_as_nodes] *)

(** X18.  [_as_nodes] returns the inventory nodes of the requested
    names, one per name and in request order, when every name is in the
    inventory; otherwise it raises [CyclecloudSlurmError] for the first
    requested name that is not. *)
Theorem as_nodes_all_or_first_unknown
  (by_name : gmap string Node) (node_list : list string) :
  ((forall name, In name node_list -> is_Some (by_name !! name)) ->
   exists nodes,
     Fleet._as_nodes by_name node_list = inr nodes
     /\ Forall2 (fun name node => by_name !! name = Some node) node_list nodes)
  /\ (forall before name after,
         node_list = (before ++ name :: after)%list ->
         (forall n, In n before -> is_Some (by_name !! n)) ->
         by_name !! name = None ->
         Fleet._as_nodes by_name node_list
         = inl (Exn CyclecloudSlurmError ("Unknown node - " ++ name))).
Proof.
  split.
  - induction node_list as [|name rest IH]; intros Hall; simpl.
    + exists []. split; [reflexivity | constructor].
    + destruct (Hall name (or_introl eq_refl)) as [node Hnode]. rewrite Hnode.
      destruct (IH (fun n Hn => Hall n (or_intror Hn))) as (nodes & Hrun & Hmatch).
      rewrite Hrun. simpl. exists (node :: nodes).
      split; [reflexivity | now constructor].
  - intros before name after -> Hknown Hnone.
    induction before as [|n rest IH]; simpl.
    + now rewrite Hnone.
    + destruct (Hknown n (or_introl eq_refl)) as [node Hnode]. rewrite Hnode.
      rewrite (IH (fun m Hm => Hknown m (or_intror Hm))). reflexivity.
Qed.

(** An inventory of one node, asked for that node and then for
    another. *)
Lemma as_nodes_all_or_first_unknown_witness :
  let node := {| state := Some "Ready"; target_state := "Started";
                 private_ip := Some "10.1.0.4"; hostname := Some "hpc-1" |} in
  Fleet._as_nodes {[ "hpc-1" := node ]} [ "hpc-1"; "hpc-9" ]
  = inl (Exn CyclecloudSlurmError ("Unknown node - " ++ "hpc-9")).
Proof.
  intros node.
  apply (proj2 (as_nodes_all_or_first_unknown {[ "hpc-1" := node ]}
                  [ "hpc-1"; "hpc-9" ]) [ "hpc-1" ] "hpc-9" []).
  - reflexivity.
  - intros n [<-|[]]. now exists node.
  - reflexivity.
Defined.

(** ** [is_autoscale_enabled] *)

Lemma split_on_without_separator (sep : ascii) (s : string) :
  ~ In sep (list_ascii_of_string s) -> Autoscale.split_on sep s = [ s ].
Proof.
  induction s as [|c s IH]; intros Hnot; [reflexivity|].
  simpl in *. destruct (Ascii.eqb_spec c sep) as [->|_].
  - exfalso. apply Hnot. now left.
  - rewrite IH; [reflexivity|]. intros Hin. apply Hnot. now right.
Qed.

Section AutoscaleFacts.

Variable strip : string -> string.
Variable split_whitespace : string -> list string.
Variable parse_int : string -> option Z.

Lemma scan_line_other (cache : option bool) (raw : string) :
  Autoscale.is_suspend_time_line (strip raw) = false ->
  Autoscale.scan_line strip split_whitespace parse_int cache raw = inr cache.
Proof. intros H. unfold Autoscale.scan_line. now rewrite H. Qed.

Lemma scan_other_lines (cache : option bool) (lines rest : list string) :
  (forall raw, In raw lines -> Autoscale.is_suspend_time_line (strip raw) = false) ->
  Autoscale.scan strip split_whitespace parse_int cache (lines ++ rest)
  = Autoscale.scan strip split_whitespace parse_int cache rest.
Proof.
  induction lines as [|raw lines IH]; intros Hother; [reflexivity|].
  simpl. rewrite scan_line_other by (apply Hother; now left).
  apply IH. intros r Hr. apply Hother. now right.
Qed.




(** X19.  A boolean returned by [is_autoscale_enabled] is stored in
    [_IS_AUTOSCALE_ENABLED], and every later call returns it without
    looking at [scontrol] or at [slurm.conf], whatever they now hold. *)
Theorem autoscale_decision_is_cached
  (cache cache' : option bool) (scontrol conf : exn + list string) (b : bool) :
  Autoscale.is_autoscale_enabled strip split_whitespace parse_int cache scontrol conf
  = (inr (Some b), cache') ->
  cache' = Some b
  /\ forall scontrol' conf',
       Autoscale.is_autoscale_enabled strip split_whitespace parse_int cache'
         scontrol' conf'
       = (inr (Some b), cache').
Proof.
  intros Hrun.
  assert (Hcache : cache' = Some b).
  { unfold Autoscale.is_autoscale_enabled in Hrun.
    destruct cache as [c|]; [congruence|].
    destruct scontrol as [e|lines].
    - destruct conf as [e'|lines]; [congruence|].
      destruct (Autoscale.scan strip split_whitespace parse_int None lines)
        as [[err|[]] c]; congruence.
    - destruct (Autoscale.scan strip split_whitespace parse_int None lines)
        as [[err|[]] c]; congruence. }
  split; [exact Hcache|]. subst cache'. reflexivity.
Qed.

(** X20.  When no line of the configuration is a [SuspendTime] line,
    [is_autoscale_enabled] returns [None], not a boolean, and stores
    nothing: the next call reads the configuration again.  This holds
    for the lines of [scontrol show config] and, when that command
    fails, for those of [slurm.conf]. *)
Theorem autoscale_undecided_without_suspend_time
  (lines : list string) (conf : exn + list string) (e : exn) :
  (forall raw, In raw lines -> Autoscale.is_suspend_time_line (strip raw) = false) ->
  Autoscale.is_autoscale_enabled strip split_whitespace parse_int None (inr lines) conf
  = (inr None, None)
  /\ Autoscale.is_autoscale_enabled strip split_whitespace parse_int None (inl e)
       (inr lines)
     = (inr None, None).
Proof.
  intros Hother. unfold Autoscale.is_autoscale_enabled.
  rewrite <- (app_nil_r lines), scan_other_lines by exact Hother.
  now split.
Qed.

(** X21.  A line starting with [SuspendTime] and a space that holds
    no [=] makes [is_autoscale_enabled] raise [IndexError]: the split at
    [=] has one piece and the code takes the second.  The lines before
    it are not [SuspendTime] lines, so nothing has been stored. *)
Theorem autoscale_raises_on_suspend_time_without_equals
  (before after : list string) (raw : string) (conf : exn + list string) :
  (forall r, In r before -> Autoscale.is_suspend_time_line (strip r) = false) ->
  String.prefix "SuspendTime " (strip raw) = true ->
  ~ In "="%char (list_ascii_of_string (strip raw)) ->
  Autoscale.is_autoscale_enabled strip split_whitespace parse_int None
    (inr (before ++ raw :: after)%list) conf
  = (inl Autoscale.IndexError, None).
Proof.
  intros Hother Hprefix Hnone. unfold Autoscale.is_autoscale_enabled.
  rewrite scan_other_lines by exact Hother.
  simpl. unfold Autoscale.scan_line, Autoscale.is_suspend_time_line.
  rewrite Hprefix. simpl. unfold Autoscale.suspend_time_of.
  now rewrite split_on_without_separator.
Qed.


End AutoscaleFacts.

(** ** [_update_future_states] *)

Section FutureFacts.

Variable strip : string -> string.
Variable split_whitespace : string -> list string.
Variable parse_int : string -> option Z.
Variable check_output : list string -> Future.outcome.
Variable warn : string -> exn + unit.

Lemma not_started_app (a b : list (string * Node)) :
  Future.not_started (a ++ b) = (Future.not_started a ++ Future.not_started b)%list.
Proof. unfold Future.not_started. now rewrite List.filter_app, map_app. Qed.

(** The loop goes through the nodes whose command completes, or fails
    with [SubprocessError] and a warning that can be written. *)
Lemma mark_future_passes (before rest : list (string * Node)) :
  (forall name, In name (Future.not_started before) ->
     check_output (Future.future_cmd name) = Future.Completed
     \/ (check_output (Future.future_cmd name) = Future.SubprocessError
         /\ warn name = inr tt)) ->
  Future.mark_future check_output warn (before ++ rest)
  = (fst (Future.mark_future check_output warn rest),
     (map Future.future_cmd (Future.not_started before)
        ++ snd (Future.mark_future check_output warn rest))%list).
Proof.
  induction before as [|[name node] before IH]; intros Hpass.
  - simpl. now destruct (Future.mark_future check_output warn rest).
  - simpl. unfold Future.not_started in *. simpl in *.
    destruct (String.eqb (target_state node) "Started"); simpl in *.
    + exact (IH Hpass).
    + rewrite (IH (fun n Hn => Hpass n (or_intror Hn))).
      destruct (Hpass name (or_introl eq_refl)) as [->|[-> ->]]; reflexivity.
Qed.

(** X23.  Without a [SuspendTime] line in the configuration, autoscale
    is undecided, and [_update_future_states] treats that as disabled:
    it runs the [state=FUTURE] command for every node whose target
    state is not [Started], in inventory order, and for no other node;
    the module variable stays unset. *)
Theorem undecided_autoscale_marks_nodes_future
  (lines : list string) (conf : exn + list string) (nodes : list (string * Node)) :
  (forall raw, In raw lines -> Autoscale.is_suspend_time_line (strip raw) = false) ->
  (forall name, In name (Future.not_started nodes) ->
     check_output (Future.future_cmd name) = Future.Completed) ->
  Future._update_future_states strip split_whitespace parse_int check_output warn
    None (inr lines) conf (inr nodes)
  = (inr tt, map Future.future_cmd (Future.not_started nodes), None).
Proof.
  intros Hother Hdone. unfold Future._update_future_states.
  unfold Autoscale.is_autoscale_enabled.
  rewrite <- (app_nil_r lines), scan_other_lines by exact Hother.
  simpl. rewrite <- (app_nil_r nodes) at 1.
  rewrite mark_future_passes by (intros name Hin; left; exact (Hdone name Hin)).
  simpl. now rewrite app_nil_r.
Qed.

(** X24.  In the loop of [_update_future_states] a command that fails
    with [SubprocessError] is passed over once its warning is written,
    and a command that fails with any other exception ends the loop:
    the exception is raised and no later node is touched. *)
Theorem future_loop_stops_at_other_error
  (before after : list (string * Node)) (name : string) (node : Node) (e : exn) :
  (forall n, In n (Future.not_started before) ->
     check_output (Future.future_cmd n) = Future.Completed
     \/ (check_output (Future.future_cmd n) = Future.SubprocessError
         /\ warn n = inr tt)) ->
  target_state node <> "Started" ->
  check_output (Future.future_cmd name) = Future.OtherError e ->
  Future.mark_future check_output warn (before ++ (name, node) :: after)
  = (inl e,
     (map Future.future_cmd (Future.not_started before)
        ++ [ Future.future_cmd name ])%list).
Proof.
  intros Hpass Hstate Herr. rewrite mark_future_passes by exact Hpass.
  simpl. apply String.eqb_neq in Hstate. rewrite Hstate, Herr. reflexivity.
Qed.

End FutureFacts.

(** ** [SlurmCLI.scale] *)

Lemma length_append (a b : string) :
  String.length (a ++ b) = String.length a + String.length b.
Proof.
  induction a as [|c a IH]; [reflexivity|].
  change (S (String.length (a ++ b)) = S (String.length a + String.length b)).
  now rewrite IH.
Qed.

Lemma path_join_ends_with (a b : string) :
  exists front, Scale.path_join a b = front ++ b.
Proof.
  unfold Scale.path_join.
  destruct (String.prefix "/" b); [now exists ""|].
  destruct (String.eqb a ""); [now exists ""|].
  destruct (String.eqb _ "/"); [now exists a|].
  exists (a ++ "/"). now rewrite append_assoc.
Qed.

Lemma azure_and_gres_names_differ (a b : string) :
  a ++ "azure.conf" <> b ++ "gres.conf".
Proof.
  revert b. induction a as [|c a IH]; intros b H.
  - destruct b as [|c1 [|c2 b]]; try discriminate H.
    apply (f_equal String.length) in H.
    change (10 = S (S (String.length (b ++ "gres.conf")))) in H.
    rewrite length_append in H. simpl in H. lia.
  - destruct b as [|c1 b].
    + apply (f_equal String.length) in H.
      change (S (String.length (a ++ "azure.conf")) = 9) in H.
      rewrite length_append in H. simpl in H. lia.
    + change (String c (a ++ "azure.conf") = String c1 (b ++ "gres.conf")) in H.
      injection H as _ H. exact (IH b H).
Qed.

Lemma azure_conf_is_not_gres_conf (sched_dir slurm_conf_dir : string) :
  Scale.path_join sched_dir "azure.conf" <> Scale.path_join slurm_conf_dir "gres.conf".
Proof.
  destruct (path_join_ends_with sched_dir "azure.conf") as [a ->].
  destruct (path_join_ends_with slurm_conf_dir "gres.conf") as [b ->].
  apply azure_and_gres_names_differ.
Qed.

Section ScaleFacts.

Variable from_hostlist : string -> list string.
Variable to_hostlist : string -> string.
Variable sort_nodes : bool -> list string -> list string.
Variable node_manager : exn + unit.
Variable fetch_partitions : exn + list Render.Partition.
Variable path_exists : string -> bool.
Variable perform : Scale.op -> exn + unit.

Lemma in_snoc {A : Type} (x y : A) (l : list A) :
  In x (l ++ [ y ])%list <-> In x l \/ y = x.
Proof. rewrite in_app_iff. simpl. tauto. Qed.

Lemma in_writes (x : Scale.op) (path : string) (previous : list Scale.op)
  (texts : list string) :
  In x (previous ++ map (Scale.WriteText path) texts)%list ->
  In x previous \/ exists text, x = Scale.WriteText path text.
Proof.
  rewrite in_app_iff, in_map_iff. intros [H|(text & <- & _)]; [now left|].
  right. now exists text.
Qed.

Lemma backup_ops (path copy : string) (trace : list Scale.op) :
  Forall Scale.is_backup_op trace ->
  Forall Scale.is_backup_op (snd (Scale.backup path_exists perform path copy trace)).
Proof.
  intros H. unfold Scale.backup, Scale.attempt.
  destruct (path_exists path); [|exact H].
  simpl. apply Forall_app. split; [exact H|]. now repeat constructor.
Qed.


Lemma backup_op_in (x : Scale.op) (trace : list Scale.op) :
  Forall Scale.is_backup_op trace -> In x trace -> Scale.is_backup_op x.
Proof. rewrite List.Forall_forall. intros H Hin. exact (H x Hin). Qed.

(** A name that the trace of a run does not hold. *)
Ltac not_in_trace :=
  let H := fresh "H" in
  intros H; exfalso;
  repeat first
    [ apply in_snoc in H; destruct H as [H|H]; [|solve [discriminate H | congruence]]
    | apply in_writes in H; destruct H as [H|[? H]]; [|discriminate H] ];
  destruct H.

(** One way in which a run of [scale] ends. *)
Ltac scale_leaf :=
  cbn beta iota zeta; cbn [fst snd]; repeat apply conj;
  first
    [ let H := fresh "H" in intros H; discriminate H
    | intros _; eexists; repeat apply conj; solve [ eassumption | reflexivity ]
    | intros _; solve [ eassumption | reflexivity ]
    | let H := fresh "H" in intros H; split; [exact H | eexists; reflexivity]
    | not_in_trace ].

(** X25.  [scale] replaces a configuration file only by a completely
    rendered one, and restarts [slurmctld] only after both files are in
    place: the move onto [azure.conf] is attempted only if
    [_partitions] rendered every partition; the move onto [gres.conf]
    only if moreover the first move and [_update_future_states]
    succeeded and [_generate_gres_conf] rendered every partition; the
    restart only if the second move succeeded.  A run that returns ends
    with the restart. *)
Theorem scale_replaces_files_only_after_rendering
  (now : string) (autoscale : bool)
  (backup_dir slurm_conf_dir sched_dir : string) (config_only : bool) :
  let azure_conf := Scale.path_join sched_dir "azure.conf" in
  let gres_conf := Scale.path_join slurm_conf_dir "gres.conf" in
  let azure_move := Scale.MoveFile (azure_conf ++ ".tmp") azure_conf in
  let gres_move := Scale.MoveFile (gres_conf ++ ".tmp") gres_conf in
  let restart := Scale.Run [ "systemctl"; "restart"; "slurmctld" ] in
  let run :=
    Scale.scale from_hostlist to_hostlist sort_nodes node_manager fetch_partitions
      path_exists perform now autoscale backup_dir slurm_conf_dir sched_dir
      config_only in
  (In azure_move (snd run) ->
   exists partition_dict,
     fetch_partitions = inr partition_dict
     /\ fst (Render._partitions partition_dict autoscale) = inr tt)
  /\ (In gres_move (snd run) ->
      exists partition_dict,
        fetch_partitions = inr partition_dict
        /\ fst (Render._generate_gres_conf from_hostlist to_hostlist sort_nodes
                  partition_dict) = inr tt
        /\ perform azure_move = inr tt
        /\ perform Scale.UpdateFutureStates = inr tt)
  /\ (In restart (snd run) -> perform gres_move = inr tt)
  /\ (fst run = inr tt ->
      perform restart = inr tt
      /\ exists before, snd run = (before ++ [ restart ])%list).
Proof.
  intros azure_conf gres_conf azure_move gres_move restart run.
  pose proof (azure_conf_is_not_gres_conf sched_dir slurm_conf_dir) as Hdiff.
  fold azure_conf gres_conf in Hdiff.
  subst run azure_move gres_move restart.
  unfold Scale.scale, Scale.write_then_move, Scale.backup, Scale.attempt.
  fold azure_conf gres_conf. clearbody azure_conf gres_conf.
  set (dir := Scale.path_join backup_dir now). clearbody dir.
  destruct node_manager as [e|[]]; [scale_leaf|].
  destruct (perform (Scale.MakeDirs dir)) as [e|[]]; [scale_leaf|].
  cbn beta iota zeta.
  destruct (path_exists azure_conf);
    [destruct (perform (Scale.CopyFile azure_conf _)) as [e|[]]; [scale_leaf|]|];
    cbn beta iota zeta;
    (destruct (path_exists gres_conf);
     [destruct (perform (Scale.CopyFile gres_conf _)) as [e|[]]; [scale_leaf|]|]);
    cbn beta iota zeta;
    (destruct fetch_partitions as [e|partition_dict]; [scale_leaf|]);
    (destruct (perform (Scale.OpenForWriting (azure_conf ++ ".tmp"))) as [e|[]];
     [scale_leaf|]);
    cbn beta iota zeta;
    (destruct (fst (Render._partitions partition_dict autoscale)) as [e|[]]
       eqn:Hpartitions; [scale_leaf|]);
    (destruct (perform (Scale.MoveFile (azure_conf ++ ".tmp") azure_conf))
       as [e|[]]; [scale_leaf|]);
    (destruct (perform Scale.UpdateFutureStates) as [e|[]]; [scale_leaf|]);
    (destruct (perform (Scale.OpenForWriting (gres_conf ++ ".tmp"))) as [e|[]];
     [scale_leaf|]);
    cbn beta iota zeta;
    (destruct (fst (Render._generate_gres_conf from_hostlist to_hostlist sort_nodes
                      partition_dict)) as [e|[]] eqn:Hgres; [scale_leaf|]);
    (destruct (perform (Scale.MoveFile (gres_conf ++ ".tmp") gres_conf))
       as [e|[]]; [scale_leaf|]);
    scale_leaf.
Qed.

(** X26.  When every operation succeeds and [_partitions] renders the
    partitions but [_generate_gres_conf] raises, [scale] raises that
    exception after it has replaced [azure.conf]: [gres.conf] is left
    as it was and [slurmctld] is not restarted. *)
Theorem scale_stops_between_the_two_files
  (now : string) (autoscale : bool)
  (backup_dir slurm_conf_dir sched_dir : string) (config_only : bool)
  (partition_dict : list Render.Partition) (e : exn) :
  let azure_conf := Scale.path_join sched_dir "azure.conf" in
  let gres_conf := Scale.path_join slurm_conf_dir "gres.conf" in
  let run :=
    Scale.scale from_hostlist to_hostlist sort_nodes node_manager fetch_partitions
      path_exists perform now autoscale backup_dir slurm_conf_dir sched_dir
      config_only in
  node_manager = inr tt ->
  fetch_partitions = inr partition_dict ->
  (forall o, perform o = inr tt) ->
  fst (Render._partitions partition_dict autoscale) = inr tt ->
  fst (Render._generate_gres_conf from_hostlist to_hostlist sort_nodes partition_dict)
  = inl e ->
  fst run = inl e
  /\ In (Scale.MoveFile (azure_conf ++ ".tmp") azure_conf) (snd run)
  /\ ~ In (Scale.MoveFile (gres_conf ++ ".tmp") gres_conf) (snd run)
  /\ ~ In (Scale.Run [ "systemctl"; "restart"; "slurmctld" ]) (snd run).
Proof.
  intros azure_conf gres_conf run Hmgr Hfetch Hperform Hpartitions Hgres.
  pose proof (azure_conf_is_not_gres_conf sched_dir slurm_conf_dir) as Hdiff.
  fold azure_conf gres_conf in Hdiff.
  subst run.
  unfold Scale.scale, Scale.write_then_move, Scale.backup, Scale.attempt.
  fold azure_conf gres_conf. clearbody azure_conf gres_conf.
  rewrite Hmgr, Hfetch, !Hperform. cbn beta iota zeta.
  destruct (path_exists azure_conf); rewrite ?Hperform; cbn beta iota zeta;
    (destruct (path_exists gres_conf); rewrite ?Hperform; cbn beta iota zeta);
    rewrite ?Hperform, Hpartitions; cbn beta iota zeta; rewrite ?Hperform, Hgres;
    cbn [fst snd];
    (split; [reflexivity|]);
    (split; [rewrite !in_app_iff; simpl; tauto|]);
    split; not_in_trace.
Qed.

End ScaleFacts.

(** ** Example runs *)

(** A configuration whose [SuspendTime] is 300 seconds, read when
    nothing is stored; the later call finds [scontrol] and [slurm.conf]
    unreadable. *)
Lemma autoscale_decision_is_cached_witness :
  let strip := fun s : string => s in
  let split_whitespace := fun s : string => if String.eqb s "" then [] else [ s ] in
  let parse_int := fun s : string => if String.eqb s "300" then Some 300%Z else None in
  let e := Exn ExternalError "unavailable" in
  Autoscale.is_autoscale_enabled strip split_whitespace parse_int (Some true)
    (inl e) (inl e)
  = (inr (Some true), Some true).
Proof.
  intros strip split_whitespace parse_int e.
  apply (proj2 (autoscale_decision_is_cached strip split_whitespace parse_int
                  None (Some true) (inr [ "SuspendTime=300" ]) (inl e) true
                  eq_refl)).
Defined.

(** [SuspendTimeout] is not [SuspendTime]. *)
Lemma autoscale_undecided_without_suspend_time_witness :
  let strip := fun s : string => s in
  let split_whitespace := fun s : string => if String.eqb s "" then [] else [ s ] in
  let parse_int := fun s : string => if String.eqb s "300" then Some 300%Z else None in
  Autoscale.is_autoscale_enabled strip split_whitespace parse_int None
    (inr [ "SlurmctldPort=6817"; "SuspendTimeout=600" ]) (inl (Exn ExternalError ""))
  = (inr None, None).
Proof.
  intros strip split_whitespace parse_int.
  apply (autoscale_undecided_without_suspend_time strip split_whitespace parse_int
           [ "SlurmctldPort=6817"; "SuspendTimeout=600" ]
           (inl (Exn ExternalError "")) (Exn ExternalError "")).
  intros raw [<-|[<-|[]]]; reflexivity.
Defined.

(** A [SuspendTime] line written with a space instead of [=]. *)
Lemma autoscale_raises_on_suspend_time_without_equals_witness :
  let strip := fun s : string => s in
  let split_whitespace := fun s : string => if String.eqb s "" then [] else [ s ] in
  let parse_int := fun s : string => if String.eqb s "300" then Some 300%Z else None in
  Autoscale.is_autoscale_enabled strip split_whitespace parse_int None
    (inr ([ "SlurmctldPort=6817" ] ++ "SuspendTime 300" :: [ "SuspendTime=300" ])%list)
    (inl (Exn ExternalError ""))
  = (inl Autoscale.IndexError, None).
Proof.
  intros strip split_whitespace parse_int.
  apply (autoscale_raises_on_suspend_time_without_equals strip split_whitespace
           parse_int [ "SlurmctldPort=6817" ] [ "SuspendTime=300" ]
           "SuspendTime 300" (inl (Exn ExternalError ""))).
  - intros r [<-|[]]. reflexivity.
  - reflexivity.
  - vm_compute. intros H.
    repeat (destruct H as [H|H]; [discriminate H|]). exact H.
Defined.


(** Two nodes, of which [hpc-2] is not meant to be started. *)
Lemma undecided_autoscale_marks_nodes_future_witness :
  let strip := fun s : string => s in
  let split_whitespace := fun s : string => if String.eqb s "" then [] else [ s ] in
  let parse_int := fun s : string => if String.eqb s "300" then Some 300%Z else None in
  let node target := {| state := Some "Off"; target_state := target;
                        private_ip := None; hostname := None |} in
  Future._update_future_states strip split_whitespace parse_int
    (fun _ => Future.Completed) (fun _ => inr tt) None
    (inr [ "SuspendTimeout=600" ]) (inl (Exn ExternalError ""))
    (inr [ ("hpc-1", node "Started"); ("hpc-2", node "Off") ])
  = (inr tt,
     [ [ "scontrol"; "update"; "NodeName=hpc-2"; "NodeAddr=hpc-2";
         "NodeHostName=hpc-2"; "state=FUTURE" ] ],
     None).
Proof.
  intros strip split_whitespace parse_int node.
  apply (undecided_autoscale_marks_nodes_future strip split_whitespace parse_int
           (fun _ => Future.Completed) (fun _ => inr tt) [ "SuspendTimeout=600" ]
           (inl (Exn ExternalError ""))
           [ ("hpc-1", node "Started"); ("hpc-2", node "Off") ]).
  - intros raw [<-|[]]. reflexivity.
  - reflexivity.
Defined.

(** [scontrol] is missing: the first command raises an error that is
    not a [SubprocessError]. *)
Lemma future_loop_stops_at_other_error_witness :
  let node target := {| state := Some "Off"; target_state := target;
                        private_ip := None; hostname := None |} in
  let e := Exn ExternalError "No such file or directory: 'scontrol'" in
  Future.mark_future (fun _ => Future.OtherError e) (fun _ => inr tt)
    ([ ("hpc-1", node "Started") ] ++ ("hpc-2", node "Off") :: [ ("hpc-3", node "Off") ])
  = (inl e, ([] ++ [ Future.future_cmd "hpc-2" ])%list).
Proof.
  intros node e.
  apply (future_loop_stops_at_other_error (fun _ => Future.OtherError e)
           (fun _ => inr tt) [ ("hpc-1", node "Started") ] [ ("hpc-3", node "Off") ]
           "hpc-2" (node "Off") e).
  - intros n [].
  - discriminate.
  - reflexivity.
Defined.

(** A run in which every operation succeeds, on one partition. *)
Lemma scale_replaces_files_only_after_rendering_witness :
  let hpc := {| Render.name := "hpc"; Render.nodearray := "hpc";
                Render.node_list := Some "hpc-[1-2]";
                Render.node_list_by_pg := [ (None, [ "hpc-1"; "hpc-2" ]) ];
                Render.is_default := true; Render.is_hpc := true;
                Render.max_vm_count := 2; Render.max_scaleset_size := 2;
                Render.memory := 4096; Render.pcpu_count := 2;
                Render.vcpu_count := 4; Render.use_pcpu := true;
                Render.gpu_count := 0 |} in
  let run :=
    Scale.scale (fun _ => [ "hpc-1"; "hpc-2" ]) (fun s => s) (fun _ l => l)
      (inr tt) (inr [ hpc ]) (fun _ => true) (fun _ => inr tt)
      "1700000000.0" true "/etc/slurm/.backups" "/etc/slurm" "/sched" false in
  exists before,
    snd run = (before ++ [ Scale.Run [ "systemctl"; "restart"; "slurmctld" ] ])%list.
Proof.
  intros hpc run.
  apply (proj2 (proj2 (proj2
           (scale_replaces_files_only_after_rendering
              (fun _ => [ "hpc-1"; "hpc-2" ]) (fun s => s) (fun _ l => l)
              (inr tt) (inr [ hpc ]) (fun _ => true) (fun _ => inr tt)
              "1700000000.0" true "/etc/slurm/.backups" "/etc/slurm" "/sched"
              false)))).
  vm_compute. reflexivity.
Defined.

(** A partition for which no node has been created: [azure.conf]
    names it with [Nodes=None], and [gres.conf] cannot be written. *)
Lemma scale_stops_between_the_two_files_witness :
  let htc := {| Render.name := "htc"; Render.nodearray := "htc";
                Render.node_list := None;
                Render.node_list_by_pg := [];
                Render.is_default := false; Render.is_hpc := false;
                Render.max_vm_count := 2; Render.max_scaleset_size := 2;
                Render.memory := 4096; Render.pcpu_count := 2;
                Render.vcpu_count := 4; Render.use_pcpu := true;
                Render.gpu_count := 0 |} in
  let run :=
    Scale.scale (fun _ => []) (fun s => s) (fun _ l => l)
      (inr tt) (inr [ htc ]) (fun _ => false) (fun _ => inr tt)
      "1700000000.0" true "/etc/slurm/.backups" "/etc/slurm" "/sched" false in
  fst run
  = inl (Exn RuntimeError
           "No nodes found for nodearray htc. Please run 'cyclecloud_slurm.sh create_nodes' first!")
  /\ In (Scale.MoveFile "/sched/azure.conf.tmp" "/sched/azure.conf") (snd run)
  /\ ~ In (Scale.MoveFile "/etc/slurm/gres.conf.tmp" "/etc/slurm/gres.conf") (snd run)
  /\ ~ In (Scale.Run [ "systemctl"; "restart"; "slurmctld" ]) (snd run).
Proof.
  intros htc run.
  apply (scale_stops_between_the_two_files
           (fun _ => []) (fun s => s) (fun _ l => l)
           (inr tt) (inr [ htc ]) (fun _ => false) (fun _ => inr tt)
           "1700000000.0" true "/etc/slurm/.backups" "/etc/slurm" "/sched" false
           [ htc ]
           (Exn RuntimeError
              "No nodes found for nodearray htc. Please run 'cyclecloud_slurm.sh create_nodes' first!"));
    reflexivity.
Defined.
